(** * Verification of the jmm2020ai_deepcrawl crawl engine

    A shallow embedding of the crawl orchestration code of
    [src/core/master_crawl.py], [src/core/db_adapter.py] and
    [src/api/api_bridge.py], with the properties the specification states
    about it, and of the code around it: the padding and the result limit of
    [src/core/integrated_workflow.py], the importer
    [src/scripts/process_json_to_supabase.py], the WebSocket registry of
    [src/api/api_bridge.py] and the selectors of [src/utils/selectors.py],
    with further properties of all of it.

    Conventions of the embedding.
    - A Python [str] is a list of Unicode code points ([text]); [len] is
      [length].
    - A Python [int] that may be negative is a [Z]; a length or an index that
      the code only counts upwards from zero is a [nat].
    - A wall-clock reading or a progress fraction (a Python [float]) is an
      exact rational [Q] in the engine; the clock readings of the examples
      are dyadic and away from every threshold, so the comparisons agree
      with IEEE arithmetic there. The rate limiter is also given on its own
      over binary64 numbers ([FloatLimiter]), with the rounding of the code,
      and its general properties are stated there.
    - Code that talks to the network is a field of a record of oracles.
    - Mutable engine state is passed explicitly; the observable effects
      ([print], the progress callback, page processing) are appended to a
      trace. *)

From Stdlib Require Import ZArith QArith Lia List Bool Ascii String.
From Corelib Require PrimFloat.
From stdpp Require Import gmap strings list fin_maps pretty.
Set Warnings "-abstract-large-number,-register-all,-inexact-float".
Close Scope Q_scope.
Close Scope string_scope.

(** * Part I. The model *)

(** ** Python strings *)

Module PyStr.

Definition text := list N.

(** A string literal of the source, as code points. *)
Definition py (s : string) : text :=
  map N_of_ascii (list_ascii_of_string s).

Definition nl : N := 10.

Definition hash : N := 35.

Definition space : N := 32.

(** [str.isspace] for one code point (CPython's [_PyUnicode_IsWhitespace]). *)
Definition isspace (c : N) : bool :=
  ((9 <=? c) && (c <=? 13) || (28 <=? c) && (c <=? 32) || (c =? 133)
   || (c =? 160) || (c =? 5760) || (8192 <=? c) && (c <=? 8202)
   || (c =? 8232) || (c =? 8233) || (c =? 8239) || (c =? 8287)
   || (c =? 12288))%N.

(** Truth value of a string: [if s:]. *)
Definition truthy {A} (s : list A) : bool :=
  match s with [] => false | _ :: _ => true end.

(** [o is not None] *)
Definition not_none {A} (o : option A) : bool :=
  match o with Some _ => true | None => false end.

(** [l[:n]] for an [int] [n]: a negative [n] counts from the end. *)
Definition slice_to {A} (n : Z) (l : list A) : list A :=
  if (n <? 0)%Z then take (length l - Z.to_nat (- n)) l
  else take (Z.to_nat n) l.

(** [l * n] for an [int] [n]. *)
Definition list_times {A} (l : list A) (n : Z) : list A :=
  concat (repeat l (Z.to_nat n)).

Fixpoint lstrip (s : text) : text :=
  match s with
  | [] => []
  | c :: s' => if isspace c then lstrip s' else s
  end.

Definition rstrip (s : text) : text := rev (lstrip (rev s)).

(** [s.strip()] *)
Definition strip (s : text) : text := rstrip (lstrip s).

(** [s.split()]: the maximal runs of non-whitespace characters. [cur] is the
    run being read, reversed. *)
Fixpoint split_go (cur : text) (s : text) : list text :=
  match s with
  | [] => if truthy cur then [rev cur] else []
  | c :: s' =>
    if isspace c
    then (if truthy cur then rev cur :: split_go [] s' else split_go [] s')
    else split_go (c :: cur) s'
  end.

Definition split (s : text) : list text := split_go [] s.

Fixpoint startswith (p s : text) : bool :=
  match p, s with
  | [], _ => true
  | a :: p', b :: s' => (a =? b)%N && startswith p' s'
  | _ :: _, [] => false
  end.

Definition endswith (p s : text) : bool := startswith (rev p) (rev s).

(** The characters of [s] that are not whitespace, in order. *)
Definition nonspace (s : text) : text :=
  List.filter (fun c => negb (isspace c)) s.

End PyStr.

(** ** Control flow of the Python code: state and exceptions

    A statement is a function from the state before it to its outcome (a
    value, or a raised exception) and the state after it. A raised exception
    keeps the mutations made before it. *)

Module Py.

Inductive exn :=
  | AttributeError
  | IndexError
  | ValueError
  | RequestException
  | HTTPError
  | ParseError
  | RecursionError.

Inductive outcome (A : Type) :=
  | Returned (a : A)
  | Raised (e : exn).
Arguments Returned {A}.
Arguments Raised {A}.

Definition M (St A : Type) : Type := St -> outcome A * St.

Definition ret {St A} (a : A) : M St A := fun s => (Returned a, s).

Definition raise {St A} (e : exn) : M St A := fun s => (Raised e, s).

Definition bind {St A B} (m : M St A) (k : A -> M St B) : M St B :=
  fun s =>
    match m s with
    | (Returned a, s') => k a s'
    | (Raised e, s') => (Raised e, s')
    end.

(** [try: m except Exception as e: handler e] *)
Definition try_except {St A} (m : M St A) (handler : exn -> M St A) : M St A :=
  fun s =>
    match m s with
    | (Returned a, s') => (Returned a, s')
    | (Raised e, s') => handler e s'
    end.

Definition gets {St A} (f : St -> A) : M St A := fun s => (Returned (f s), s).

Definition modify {St} (f : St -> St) : M St unit := fun s => (Returned tt, f s).

Definition when {St} (b : bool) (m : M St unit) : M St unit :=
  if b then m else ret tt.

Declare Scope py_scope.
Delimit Scope py_scope with py.
Notation "'do' x <- m ; k" := (bind m (fun x => k))
  (at level 10, x name, m at level 100, k at level 200) : py_scope.
Notation "m ;; k" := (bind m (fun _ => k))
  (at level 100, k at level 200, right associativity) : py_scope.

(** [for x in l: acc.extend(body x)] *)
Fixpoint for_extend {St A B} (l : list A) (body : A -> M St (list B))
  (acc : list B) : M St (list B) :=
  match l with
  | [] => ret acc
  | x :: l' => bind (body x) (fun ys => for_extend l' body (acc ++ ys))
  end.

(** [for i, x in enumerate(l, start): body i x] *)
Fixpoint for_enumerate {St A} (start : nat) (l : list A)
  (body : nat -> A -> M St unit) : M St unit :=
  match l with
  | [] => ret tt
  | x :: l' => bind (body start x) (fun _ => for_enumerate (S start) l' body)
  end.

(** *** Statements that only move the state forward

    [R] is a preorder on states, read as "is a later state of". A statement
    [grows] at [s] when the state it leaves is later than [s], whatever its
    outcome; it is [steady] at [s] when, in addition, it does not raise. *)

Definition grows_at {St A} (R : relation St) (m : M St A) (s : St) : Prop :=
  R s (m s).2.

Definition steady_at {St A} (R : relation St) (m : M St A) (s : St) : Prop :=
  R s (m s).2 /\ exists a, (m s).1 = Returned a.

Definition grows {St A} (R : relation St) (m : M St A) : Prop :=
  forall s, grows_at R m s.

Definition steady {St A} (R : relation St) (m : M St A) : Prop :=
  forall s, steady_at R m s.

End Py.

(** ** The chunker: [DeepCrawler._chunk_markdown] *)

Module Chunker.
Import PyStr.

(** [#{n} ] at the head of [s]: exactly [n] hashes, then a space. *)
Fixpoint hashes_space (n : nat) (s : text) : bool :=
  match n, s with
  | O, c :: _ => (c =? space)%N
  | S n', c :: s' => (c =? hash)%N && hashes_space n' s'
  | _, [] => false
  end.

(** The pattern [(\n\n|\n#{1,6} )] anchored at the head of [s]: the length of
    the match. The first alternative is tried first; the quantifier is
    greedy, so six hashes are tried before five, and so on. *)
Definition match_delim (s : text) : option nat :=
  match s with
  | c :: s' =>
    if (c =? nl)%N then
      if startswith [nl] s' then Some 2
      else (fun n => n + 2) <$> List.find (fun n => hashes_space n s') [6; 5; 4; 3; 2; 1]
    else None
  | [] => None
  end.

Definition push (c : N) (parts : list text) : list text :=
  match parts with
  | p :: ps => (c :: p) :: ps
  | [] => [[c]]
  end.

(** [re.split] with one capturing group: text, delimiter, text, ...,
    text. [k] counts the characters of the delimiter being read that are
    still to come, the current one included; [k = 0] outside a delimiter. *)
Fixpoint re_split_go (k : nat) (s : text) : list text :=
  match s with
  | [] => [[]]
  | c :: s' =>
    let k' := match k with O => default 0 (match_delim s) | S _ => k end in
    let rest :=
      match k' with
      | 0 => push c (re_split_go 0 s')
      | 1 => [c] :: re_split_go 0 s'
      | S j => push c (re_split_go j s')
      end in
    if Nat.eqb k 0 && negb (Nat.eqb k' 0) then [] :: rest else rest
  end.

(** [re.split(r'(\n\n|\n#{1,6} )', s)] *)
Definition re_split (s : text) : list text := re_split_go 0 s.

Record chunk := mk_chunk {
  id : nat;
  content : text;
  word_count : nat
}.

(** The local variables of the loop of [_chunk_markdown]. *)
Record loop_state := mk_loop {
  chunks : list chunk;
  current_chunk : text;
  chunk_index : nat
}.

Definition flush (st : loop_state) : list chunk :=
  chunks st ++ [mk_chunk (chunk_index st) (strip (current_chunk st))
                         (length (split (current_chunk st)))].

(** One iteration of [for i in range(0, len(text_parts))]. *)
Definition chunk_step (max_chunk_size : Z) (st : loop_state) (part : text)
  : loop_state :=
  if negb (truthy (strip part)) then st
  else if (Z.of_nat (length (current_chunk st)) + Z.of_nat (length part)
           >? max_chunk_size)%Z && truthy (current_chunk st)
  then mk_loop (flush st) part (S (chunk_index st))
  else mk_loop (chunks st) (current_chunk st ++ part) (chunk_index st).

Definition chunk_parts (max_chunk_size : Z) (text_parts : list text)
  : list chunk :=
  let st := fold_left (chunk_step max_chunk_size) text_parts (mk_loop [] [] 0) in
  if truthy (strip (current_chunk st)) then flush st else chunks st.

Definition _chunk_markdown (markdown_text : text) (max_chunk_size : Z)
  : list chunk :=
  if negb (truthy markdown_text) then []
  else chunk_parts max_chunk_size (re_split markdown_text).

(** The default of the parameter [max_chunk_size]. *)
Definition default_max_chunk_size : Z := 1000.

(** *** Vocabulary of the statements about the chunker *)

(** What the specification asks of one chunk: its content is not empty, and
    it fits in [max_chunk_size] unless it is one split part that is too long
    on its own. *)
Definition chunk_ok (max_chunk_size : Z) (text_parts : list text) (c : chunk)
  : Prop :=
  content c <> [] /\
  ((Z.of_nat (length (content c)) <= max_chunk_size)%Z \/
   exists part, In part text_parts /\ content c = strip part /\
                (max_chunk_size < Z.of_nat (length part))%Z).

(** The running chunk is empty, or it has a visible character and either fits
    or is a single part. *)
Definition current_ok (max_chunk_size : Z) (text_parts : list text)
  (cur : text) : Prop :=
  cur = [] \/
  (nonspace cur <> [] /\
   ((Z.of_nat (length cur) <= max_chunk_size)%Z \/ In cur text_parts)).

Definition loop_ok (max_chunk_size : Z) (text_parts : list text)
  (st : loop_state) : Prop :=
  Forall (chunk_ok max_chunk_size text_parts) (chunks st) /\
  current_ok max_chunk_size text_parts (current_chunk st).

(** The parts the loop does not skip. *)
Definition kept (text_parts : list text) : list text :=
  List.filter (fun part => truthy (strip part)) text_parts.

(** The chunks emitted so far are the groups [gs] of consecutive kept parts,
    each glued and stripped, and the running chunk is the group [cur],
    glued. *)
Definition grouped (done : list text) (st : loop_state)
  (gs : list (list text)) (cur : list text) : Prop :=
  concat gs ++ cur = kept done /\
  Forall (fun g => g <> []) gs /\
  map content (chunks st) = map (fun g => strip (concat g)) gs /\
  concat cur = current_chunk st /\
  Forall (fun part => nonspace part <> []) cur.

(** What the chunks hold, whitespace apart: everything read so far. *)
Definition visible (st : loop_state) : text :=
  nonspace (concat (map content (chunks st))) ++ nonspace (current_chunk st).

(** The contents of the chunks with a gap before each of them and one after
    the last. *)
Fixpoint interleave (gaps contents : list text) : text :=
  match gaps, contents with
  | gap :: gaps', c :: contents' => gap ++ c ++ interleave gaps' contents'
  | gap :: _, [] => gap
  | [], _ => []
  end.

(** The round trip as the specification words it: the text and the glued
    contents differ by whitespace at the chunk boundaries only. The text is
    the contents in order, with nothing but whitespace before the first,
    between two neighbours and after the last. *)
Definition boundary_roundtrip (markdown_text : text) (contents : list text)
  : Prop :=
  exists gaps : list text,
    length gaps = S (length contents) /\
    Forall (fun gap => nonspace gap = []) gaps /\
    interleave gaps contents = markdown_text.

End Chunker.

(** ** Embedding normalisation: [DeepCrawler._get_embedding] and
       [SupabaseAdapter.generate_embedding]

    The values of a vector are never computed with, only copied, so the
    definitions are generic in their type; [zero] is the literal [0.0]. *)

Module Embedding.
Import PyStr.

(** What [requests.post] gave back: the status code and the ["embedding"]
    field of the JSON body, if there is one. *)
Record response (float : Type) := Response {
  status_code : Z;
  embedding_field : option (list float)
}.
Arguments Response {float}.
Arguments status_code {float}.
Arguments embedding_field {float}.

(** [if len(text) > 8000: text = text[:8000]] *)
Definition truncate_prompt (prompt : text) : text :=
  if 8000 <? length prompt then take 8000 prompt else prompt.

Section Normalise.
Context {float : Type} (zero : float).

Definition expected_dim : nat := 1536.

(** Lines 550-569 of master_crawl.py: the branch [if embedding:] of
    [_get_embedding]. The padding is [[0.0] * (expected_dim - current_dim)]. *)
Definition fix_dimension (embedding : list float) : list float :=
  if truthy embedding then
    let current_dim := length embedding in
    if negb (current_dim =? expected_dim) then
      if current_dim <? expected_dim
      then embedding ++ repeat zero (expected_dim - current_dim)
      else take expected_dim embedding
    else embedding
  else embedding.

(** [DeepCrawler._get_embedding]. [post] is the call to the Ollama endpoint:
    [None] when it raises, which the [except Exception] turns into [None]. *)
Definition _get_embedding (post : text -> option (response float))
  (prompt : text) : option (list float) :=
  match post (truncate_prompt prompt) with
  | Some r =>
    if (status_code r =? 200)%Z
    then fix_dimension <$> embedding_field r
    else None
  | None => None
  end.

(** [SupabaseAdapter.generate_embedding]: same call, but the padding repeats
    the vector: [(embedding * padding_repeats)[:self.embedding_dimensions]].
    [embedding_dimensions] is the field of the adapter, whatever [int] the
    constructor was given or read from the environment: zero and negative
    values reach the slices. *)
Definition generate_embedding (embedding_dimensions : Z)
  (post : text -> option (response float)) (prompt : text)
  : option (list float) :=
  match post (truncate_prompt prompt) with
  | Some r =>
    if (status_code r =? 200)%Z then
      match embedding_field r with
      | Some embedding =>
        if truthy embedding then
          let current_dim := Z.of_nat (length embedding) in
          if (current_dim <? embedding_dimensions)%Z then
            let padding_repeats := (embedding_dimensions / current_dim + 1)%Z in
            Some (slice_to embedding_dimensions
                           (list_times embedding padding_repeats))
          else if (current_dim >? embedding_dimensions)%Z then
            Some (slice_to embedding_dimensions embedding)
          else Some embedding
        else None
      | None => None
      end
    else None
  | None => None
  end.

(** The padding policy the specification names: position [i] of the result
    holds the value at [i mod n] of an input of length [n]. *)
Definition cyclic_padding (v e : list float) : Prop :=
  forall i, length v <= i < length e -> e !! i = v !! (i mod length v).

(** The claim as the specification words it, for the page embedding. *)
Definition padded_cyclically (v : list float) : Prop :=
  length (fix_dimension v) = 1536 /\
  take 500 (fix_dimension v) = v /\
  cyclic_padding v (fix_dimension v).

End Normalise.

End Embedding.

(** ** The rate limiter: [wait_for_rate_limit] in [crawl_many]

    Here the clock readings are exact rationals, as they are in the engine
    below. The differences and sums the limiter computes are exact there;
    the code rounds them, so the two agree on readings whose differences
    and sums are binary64 numbers, as those of the examples are. The
    limiter with the rounding of the code is [FloatLimiter]. *)

Module RateLimiter.
Import Py.
Local Open Scope py_scope.

Definition Qlt_bool (a b : Q) : bool := negb (Qle_bool b a).

(** What the name [time] stands for where the limiter is defined. The
    module imports [time] at its top (line 23), and [crawl_many] then runs
    [from time import time] (line 173): inside [crawl_many] and its closures
    the name is the function [time.time]. *)
Inductive time_binding :=
  | TimeModule
  | TimeFunction.

Definition time_in_crawl_many : time_binding := TimeFunction.

(** [request_times] is the ledger of the source; [slept] lists the
    durations handed to a successful [sleep], oldest first. *)
Record limiter := mk_limiter {
  request_times : list Q;
  slept : list Q
}.

Definition MIN_REQUEST_INTERVAL : Q := 0.1.

(** [time.sleep(seconds)]: an attribute lookup on whatever [time] is. A
    builtin function has no attribute [sleep]. *)
Definition time_sleep (time : time_binding) (seconds : Q) : M limiter unit :=
  match time with
  | TimeModule =>
    modify (fun st => mk_limiter (request_times st) (slept st ++ [seconds]))
  | TimeFunction => raise AttributeError
  end.

(** [while request_times and current_time - request_times[0] > 1.0:
        request_times.pop(0)] *)
Fixpoint evict (current_time : Q) (times : list Q) : list Q :=
  match times with
  | t :: rest =>
    if Qlt_bool 1.0 (current_time - t) then evict current_time rest else times
  | [] => []
  end.

(** The body of [wait_for_rate_limit], under [with requests_lock], for the
    clock reading [current_time]. *)
Definition wait_for_rate_limit_with (time : time_binding)
  (max_concurrent_requests : Z) (current_time : Q) : M limiter unit :=
  modify (fun st => mk_limiter (evict current_time (request_times st)) (slept st)) ;;
  do times <- gets request_times ;
  when (Z.of_nat (length times) >=? max_concurrent_requests)%Z
    (match times with
     | first :: _ =>
       let sleep_time := (first + 1.0 - current_time)%Q in
       when (Qlt_bool 0 sleep_time) (time_sleep time sleep_time)
     | [] => raise IndexError
     end) ;;
  modify (fun st => mk_limiter (request_times st ++ [current_time]) (slept st)) ;;
  do times <- gets request_times ;
  when (PyStr.truthy times && (1 <? length times))
    (match rev times with
     | _ :: last_request :: _ =>
       let time_since_last := (current_time - last_request)%Q in
       when (Qlt_bool time_since_last MIN_REQUEST_INTERVAL)
            (time_sleep time (MIN_REQUEST_INTERVAL - time_since_last)%Q)
     | _ => raise IndexError
     end).

Definition wait_for_rate_limit : Z -> Q -> M limiter unit :=
  wait_for_rate_limit_with time_in_crawl_many.

End RateLimiter.

(** ** The rate limiter in the arithmetic of the code

    [time()] returns a [float], and the limiter subtracts, adds and compares
    these readings as IEEE binary64 numbers, rounding to nearest. Here the
    same function is over the kernel's binary64 numbers: the literals are
    the doubles Python reads them as, [-] and [+] round as Python's do, and
    [a > b] is [b <? a]. *)

Module FloatLimiter.
Import PrimFloat Py.
Local Open Scope py_scope.

(** [request_times] is the ledger of the source; [slept] lists the
    durations handed to a successful [sleep], oldest first. *)
Record limiter := mk_limiter {
  request_times : list float;
  slept : list float
}.

Definition MIN_REQUEST_INTERVAL : float := 0.1%float.

(** [time.sleep(seconds)], for what the name [time] is bound to. *)
Definition time_sleep (time : RateLimiter.time_binding) (seconds : float)
  : M limiter unit :=
  match time with
  | RateLimiter.TimeModule =>
    modify (fun st => mk_limiter (request_times st) (slept st ++ [seconds]))
  | RateLimiter.TimeFunction => raise AttributeError
  end.

(** [while request_times and current_time - request_times[0] > 1.0:
        request_times.pop(0)] *)
Fixpoint evict (current_time : float) (times : list float) : list float :=
  match times with
  | t :: rest =>
    if (1.0 <? current_time - t)%float then evict current_time rest else times
  | [] => []
  end.

(** The body of [wait_for_rate_limit], under [with requests_lock], for the
    clock reading [current_time]. *)
Definition wait_for_rate_limit_with (time : RateLimiter.time_binding)
  (max_concurrent_requests : Z) (current_time : float) : M limiter unit :=
  modify (fun st => mk_limiter (evict current_time (request_times st)) (slept st)) ;;
  do times <- gets request_times ;
  when (Z.of_nat (length times) >=? max_concurrent_requests)%Z
    (match times with
     | first :: _ =>
       let sleep_time := (first + 1.0 - current_time)%float in
       when (0 <? sleep_time)%float (time_sleep time sleep_time)
     | [] => raise IndexError
     end) ;;
  modify (fun st => mk_limiter (request_times st ++ [current_time]) (slept st)) ;;
  do times <- gets request_times ;
  when (PyStr.truthy times && (1 <? length times))
    (match rev times with
     | _ :: last_request :: _ =>
       let time_since_last := (current_time - last_request)%float in
       when (time_since_last <? MIN_REQUEST_INTERVAL)%float
            (time_sleep time (MIN_REQUEST_INTERVAL - time_since_last)%float)
     | _ => raise IndexError
     end).

Definition wait_for_rate_limit : Z -> float -> M limiter unit :=
  wait_for_rate_limit_with RateLimiter.time_in_crawl_many.

End FloatLimiter.

(** ** The crawl engine: [DeepCrawler.verify_links] and [crawl_many] *)

Module Engine.
Import PyStr Py.
Local Open Scope py_scope.

(** What [_extract_content] returns: always the three keys. *)
Record content := mk_content {
  c_title : text;
  cleaned_html : text;
  markdown : text
}.

(** The dictionary [_process_page] builds, flattened; the two time stamps are
    left out. [embedding] is [None] when the key is absent. *)
Record page_info := mk_page {
  status : text;
  page_url : text;
  title : text;
  page_markdown : text;
  summary : text;
  page_chunks : list Chunker.chunk;
  word_count : nat;
  chunk_count : nat;
  links : list text;
  embedding : option (list Q)
}.

(** The collaborators the engine reaches over the network or through a
    parsing library. [urlparse] and [urljoin] raise [ValueError] on some
    strings (a host with an unbalanced bracket, as in ['http://[']): the
    two [_raises] fields tell where, and [netloc] and [urljoin] give the
    results elsewhere. *)
Record World := mk_world {
  netloc : text -> text;                      (* urlparse(u).netloc *)
  urlparse_raises : text -> bool;             (* urlparse(u) raises ValueError *)
  _extract_content : text -> option content;  (* None after three failed attempts *)
  hrefs : text -> list text;                  (* a['href'] for a in soup.find_all('a', href=True) *)
  urljoin : text -> text -> text;
  urljoin_raises : text -> text -> bool;      (* urljoin(base, href) raises ValueError *)
  find_title : text -> option text;           (* soup.find('title'), its text stripped *)
  find_h1 : text -> option text;
  _get_summary_with_llm : text -> list Chunker.chunk -> text;
  post_embeddings : text -> option (Embedding.response Q);
  lower : text -> text;                       (* str.lower *)
  time : nat -> Q                             (* the k-th reading of the clock *)
}.

Inductive message :=
  | MsgProcessingUrl (url : text) (max_depth : Z)
  | MsgProcessingPage (url : text)
  | MsgSuccessfullyProcessed (url : text)
  | MsgTitle (title : text)
  | MsgContentStats
  | MsgProcessingLink (i n : nat) (link_url : text)
  | MsgErrorProcessingLink (link_url : text) (e : exn)
  | MsgNoUrls
  | MsgStarting (n : nat)
  | MsgMaxDepth (max_depth : Z)
  | MsgMaxConcurrent (max_concurrent_requests : Z)
  | MsgProcessingSeed (url : text)
  | MsgErrorCrawling (url : text) (e : exn)
  | MsgCompleted (url : text) (i n : nat)
  | MsgFailed (url : text) (i n : nat)
  | MsgException (url : text) (e : exn)
  | MsgMultiCompleted (pages n : nat).

(** What can be observed of a run, in order. [ProcessPage] is a call of
    [self._process_page]; the lines it prints and the callbacks it makes
    itself are part of that one event. *)
Inductive event :=
  | Printed (m : message)
  | Callback (m : message)
  | VisitedAdd (url : text)
  | ProcessPage (url : text).

(** The fields of a [DeepCrawler] that crawling touches, the ledger shared by
    the workers of the running [crawl_many], and the world outside: what has
    been observed so far and how often the clock has been read. The [results]
    dictionary is a finite map; the order of its keys is not modelled. *)
Record state := mk_state {
  visited_urls : gset text;
  results : gmap text page_info;
  allowed_domains : option (list text);
  limiter : RateLimiter.limiter;
  trace : list event;
  ticks : nat
}.

(** [DeepCrawler(allowed_domains=...)] before any call. *)
Definition fresh (allowed : option (list text)) : state :=
  mk_state ∅ ∅ allowed (RateLimiter.mk_limiter [] []) [] 0.

Definition log (e : event) (st : state) : state :=
  mk_state (visited_urls st) (results st) (allowed_domains st) (limiter st)
           (trace st ++ [e]) (ticks st).

Definition add_visited (url : text) (st : state) : state :=
  mk_state ({[url]} ∪ visited_urls st) (results st) (allowed_domains st)
           (limiter st) (trace st ++ [VisitedAdd url]) (ticks st).

Definition set_results (r : gmap text page_info) (st : state) : state :=
  mk_state (visited_urls st) r (allowed_domains st) (limiter st) (trace st)
           (ticks st).

Definition set_allowed (a : option (list text)) (st : state) : state :=
  mk_state (visited_urls st) (results st) a (limiter st) (trace st) (ticks st).

Definition set_limiter (l : RateLimiter.limiter) (st : state) : state :=
  mk_state (visited_urls st) (results st) (allowed_domains st) l (trace st)
           (ticks st).

Definition tick (st : state) : state :=
  mk_state (visited_urls st) (results st) (allowed_domains st) (limiter st)
           (trace st) (S (ticks st)).

Definition print (m : message) : M state unit := modify (log (Printed m)).

(** [if progress_callback: progress_callback(m)]; [cb] tells whether a
    callback was passed. *)
Definition callback (cb : bool) (m : message) : M state unit :=
  when cb (modify (log (Callback m))).

(** *** [_process_page] *)

Definition strip_www (domain : text) : text :=
  if startswith (py "www.") domain then drop 4 domain else domain.

Definition is_http_url (s : text) : bool :=
  startswith (py "http://") s || startswith (py "https://") s.

Definition domain_matches (domain allowed_domain : text) : bool :=
  bool_decide (domain = allowed_domain)
  || endswith (py "." ++ allowed_domain) domain.

(** The check of the page's own URL, where [urlparse] raises on no entry:
    entries of [allowed_domains] that are URLs are reduced to their host,
    and a leading [www.] is dropped. *)
Definition url_allowed (w : World) (domain : text) (allowed : list text) : bool :=
  existsb (fun allowed_domain =>
             let a := if is_http_url allowed_domain
                      then netloc w allowed_domain else allowed_domain in
             domain_matches domain (strip_www a)) allowed.

(** The check of a link found on the page: no [www.] is dropped here. *)
Definition link_allowed (w : World) (absolute_url : text) (allowed : list text)
  : bool :=
  existsb (fun allowed_domain =>
             let a := if is_http_url allowed_domain
                      then netloc w allowed_domain else allowed_domain in
             domain_matches (netloc w absolute_url) a) allowed.

(** The loop over [self.allowed_domains] with its [break], as both checks
    run it; [matches] is the comparison with one entry, which has been
    reduced to its host when it is a URL. [None] when [urlparse] raises on
    an entry the loop reaches. *)
Fixpoint check_allowed (w : World) (matches : text -> bool)
  (allowed : list text) : option bool :=
  match allowed with
  | [] => Some false
  | allowed_domain :: rest =>
    if is_http_url allowed_domain && urlparse_raises w allowed_domain then None
    else
      let a := if is_http_url allowed_domain
               then netloc w allowed_domain else allowed_domain in
      if matches a then Some true else check_allowed w matches rest
  end.

Definition asset_extensions : list text :=
  [py ".pdf"; py ".zip"; py ".jpg"; py ".png"; py ".gif"].

(** The anchors the loop over the links does not skip. *)
Definition followed (href : text) : bool :=
  negb (negb (truthy href) || startswith (py "#") href
        || startswith (py "javascript:") href || startswith (py "mailto:") href).

(** Whether the loop over the links raises: at an anchor it does not skip,
    [urljoin] raises, or [urlparse] raises on the absolute URL or on an
    entry of [allowed_domains] that the check of the link reaches. *)
Definition links_raise (w : World) (base_url : text) (allowed : list text)
  (html : text) : bool :=
  existsb (fun href =>
    followed href &&
    (urljoin_raises w base_url href
     || let absolute_url := urljoin w base_url href in
        urlparse_raises w absolute_url
        || negb (not_none
                   (check_allowed w
                      (fun a => domain_matches (netloc w absolute_url) a)
                      allowed))))
    (hrefs w html).

(** The links the loop collects, where it does not raise. *)
Definition page_links (w : World) (base_url : text) (allowed : list text)
  (html : text) : list text :=
  flat_map (fun href =>
    if negb (truthy href) || startswith (py "#") href
       || startswith (py "javascript:") href || startswith (py "mailto:") href
    then []
    else
      let absolute_url := urljoin w base_url href in
      if link_allowed w absolute_url allowed
         && negb (existsb (fun ext => endswith ext (lower w absolute_url))
                          asset_extensions)
      then [absolute_url] else [])
    (hrefs w html).

Definition page_title (w : World) (c : content) : text :=
  if truthy (c_title c) then c_title c
  else match find_title w (cleaned_html c) with
       | Some t => t
       | None => default [] (find_h1 w (cleaned_html c))
       end.

Definition build_page (w : World) (url : text) (allowed : list text)
  (c : content) : page_info :=
  let md := markdown c in
  let t := page_title w c in
  let chunks := if truthy md
                then Chunker._chunk_markdown md Chunker.default_max_chunk_size
                else [] in
  let summ := if truthy md then _get_summary_with_llm w t chunks else [] in
  let emb := if truthy md
             then Embedding._get_embedding 0%Q (post_embeddings w)
                    (t ++ [nl; nl] ++ md)
             else None in
  mk_page (py "accessible") url t md summ chunks
          (length (split md)) (length chunks)
          (page_links w url allowed (cleaned_html c))
          (match emb with
           | Some e => if truthy e then Some e else None
           | None => None
           end).

(** [self._process_page(url, progress_callback)]. Every exception inside is
    caught by the function itself and turned into [None]: the [ValueError]
    of [urlparse(url)] before anything is assigned, that of the check of the
    URL after [allowed_domains] has been set, and that of the loop over the
    links after the content has been extracted. *)
Definition _process_page (w : World) (url : text)
  : M state (option page_info) :=
  modify (log (ProcessPage url)) ;;
  if urlparse_raises w url then ret None
  else
    let domain := strip_www (netloc w url) in
    do unset <- gets (fun st => negb (not_none (allowed_domains st))) ;
    when unset (modify (set_allowed (Some [domain]))) ;;
    do allowed <- gets (fun st => default [] (allowed_domains st)) ;
    match check_allowed w (fun a => domain_matches domain (strip_www a)) allowed with
    | Some true =>
      match _extract_content w url with
      | None => ret None
      | Some c =>
        if links_raise w url allowed (cleaned_html c) then ret None
        else ret (Some (build_page w url allowed c))
      end
    | Some false => ret None
    | None => ret None
    end.

(** [key in page_info] for the dictionary [_process_page] returns. *)
Definition has_key (key : text) (p : page_info) : bool :=
  bool_decide (key ∈ [py "status"; py "content"; py "links"; py "metadata"])
  || (bool_decide (key = py "embedding") && not_none (embedding p)).

(** *** [verify_links] *)

(** The value a call of [verify_links] evaluates to: the literal [{}], the
    [page_info] of the URL it was called on, or [None]. *)
Inductive py_ret :=
  | RetEmptyDict
  | RetPageInfo (p : page_info)
  | RetNone.

Definition store_result (url : text) (p : page_info) (st : state) : state :=
  set_results (<[url := p]> (results st)) st.

(** Lines 128-134: the messages after a page was stored. *)
Definition report_page (cb : bool) (url : text) (p : page_info) : M state unit :=
  when cb
    (when (has_key (py "title") p)
       (callback cb (MsgSuccessfullyProcessed url) ;;
        callback cb (MsgTitle (title p))) ;;
     when (has_key (py "content_stats") p) (callback cb MsgContentStats)).

(** Lines 139-152: the loop over the links of a page. [recurse] is the
    recursive call with the depth reduced. *)
Definition follow_links (recurse : text -> M state py_ret) (cb : bool)
  (page_links : list text) : M state unit :=
  for_enumerate 0 page_links (fun i link_url =>
    do visited <- gets visited_urls ;
    when (negb (bool_decide (link_url ∈ visited)))
      (try_except
         (callback cb (MsgProcessingLink (i + 1) (length page_links) link_url) ;;
          recurse link_url ;;
          ret tt)
         (fun e =>
            print (MsgErrorProcessingLink link_url e) ;;
            callback cb (MsgErrorProcessingLink link_url e)))).

(** Lines 116-124: the URL is announced, marked as visited, and handed to
    [_process_page]. *)
Definition visit (w : World) (max_depth : Z) (cb : bool) (url : text)
  : M state (option page_info) :=
  print (MsgProcessingUrl url max_depth) ;;
  callback cb (MsgProcessingPage url) ;;
  modify (add_visited url) ;;
  _process_page w url.

(** [verify_links] for [max_depth = depth >= 0]. The recursive call passes
    [max_depth - 1], which is [depth'] when [max_depth > 0]. *)
Fixpoint verify_links_at (w : World) (depth : nat) (cb : bool) (url : text)
  : M state py_ret :=
  do visited <- gets visited_urls ;
  if bool_decide (url ∈ visited) then ret RetEmptyDict
  else
    do page <- visit w (Z.of_nat depth) cb url ;
    match page with
    | Some p =>
      modify (store_result url p) ;;
      report_page cb url p ;;
      match depth with
      | S depth' => follow_links (verify_links_at w depth' cb) cb (links p)
      | O => ret tt
      end ;;
      ret (RetPageInfo p)
    | None => ret RetNone
    end.

(** [self.verify_links(url, max_depth, progress_callback)] *)
Definition verify_links (w : World) (url : text) (max_depth : Z) (cb : bool)
  : M state py_ret :=
  if (max_depth <? 0)%Z then ret RetEmptyDict
  else verify_links_at w (Z.to_nat max_depth) cb url.

(** *** [crawl_many] *)

Definition on_limiter {A} (m : M RateLimiter.limiter A) : M state A :=
  fun st => let '(o, l) := m (limiter st) in (o, set_limiter l st).

(** [wait_for_rate_limit()]: one reading of the clock, then the limiter. *)
Definition wait_for_rate_limit (w : World) (max_concurrent_requests : Z)
  : M state unit :=
  do k <- gets ticks ;
  modify tick ;;
  on_limiter (RateLimiter.wait_for_rate_limit max_concurrent_requests (time w k)).

(** The task [crawl_single_url(url)] of one worker. *)
Definition crawl_single_url (w : World) (max_depth max_concurrent_requests : Z)
  (cb : bool) (url : text) : M state (option page_info) :=
  try_except
    (wait_for_rate_limit w max_concurrent_requests ;;
     callback cb (MsgProcessingSeed url) ;;
     do page <- _process_page w url ;
     match page with
     | Some p =>
       modify (store_result url p) ;;
       when (max_depth >? 0)%Z
         (for_enumerate 0 (links p) (fun i link_url =>
            do visited <- gets visited_urls ;
            when (negb (bool_decide (link_url ∈ visited)))
              (try_except
                 (wait_for_rate_limit w max_concurrent_requests ;;
                  callback cb (MsgProcessingLink (i + 1) (length (links p)) link_url) ;;
                  verify_links w link_url (max_depth - 1) cb ;;
                  ret tt)
                 (fun e =>
                    print (MsgErrorProcessingLink link_url e) ;;
                    callback cb (MsgErrorProcessingLink link_url e))))) ;;
       ret page
     | None => ret page
     end)
    (fun e =>
       print (MsgErrorCrawling url e) ;;
       callback cb (MsgErrorCrawling url e) ;;
       ret None).

(** [self.crawl_many(urls, max_depth, max_concurrent_requests,
    progress_callback)], for the schedule in which the tasks run one after
    the other in the order they were submitted, each reported when it is
    done. That is the schedule of a pool with one worker; with more workers
    it is one of the possible interleavings. [ThreadPoolExecutor] refuses a
    pool without workers. *)
Definition crawl_many (w : World) (urls : list text)
  (max_depth max_concurrent_requests : Z) (cb : bool)
  : M state (gmap text page_info) :=
  if negb (truthy urls) then
    print MsgNoUrls ;; callback cb MsgNoUrls ;; ret ∅
  else
    print (MsgStarting (length urls)) ;;
    callback cb (MsgStarting (length urls)) ;;
    callback cb (MsgMaxDepth max_depth) ;;
    callback cb (MsgMaxConcurrent max_concurrent_requests) ;;
    modify (set_results ∅) ;;
    modify (set_limiter (RateLimiter.mk_limiter [] [])) ;;
    (if (max_concurrent_requests <=? 0)%Z then raise ValueError else ret tt) ;;
    for_enumerate 0 urls (fun i url =>
      try_except
        (do result <- crawl_single_url w max_depth max_concurrent_requests cb url ;
         if not_none result
         then print (MsgCompleted url (i + 1) (length urls)) ;;
              callback cb (MsgCompleted url (i + 1) (length urls))
         else print (MsgFailed url (i + 1) (length urls)) ;;
              callback cb (MsgFailed url (i + 1) (length urls)))
        (fun e =>
           print (MsgException url e) ;;
           callback cb (MsgException url e))) ;;
    do pages <- gets (fun st => size (results st)) ;
    print (MsgMultiCompleted pages (length urls)) ;;
    callback cb (MsgMultiCompleted pages (length urls)) ;;
    gets results.

(** A call made on the engine from outside, and a sequence of such calls
    on one engine. *)
Inductive call :=
  | CallVerifyLinks (url : text) (max_depth : Z) (cb : bool)
  | CallCrawlMany (urls : list text) (max_depth max_concurrent_requests : Z)
                  (cb : bool).

Definition perform (w : World) (c : call) (s : state) : state :=
  match c with
  | CallVerifyLinks url max_depth cb => (verify_links w url max_depth cb s).2
  | CallCrawlMany urls max_depth max_concurrent_requests cb =>
    (crawl_many w urls max_depth max_concurrent_requests cb s).2
  end.

Definition run (w : World) (calls : list call) (s : state) : state :=
  fold_left (fun s c => perform w c s) calls s.

(** The URLs [_process_page] was called on, one entry per call. *)
Definition processed (tr : list event) : list text :=
  flat_map (fun e => match e with ProcessPage u => [u] | _ => [] end) tr.

(** How often [_process_page] was called on [url]. *)
Definition times_processed (url : text) (st : state) : nat :=
  length (List.filter (fun u => bool_decide (u = url)) (processed (trace st))).

(** *** Vocabulary of the statements about the engine *)

(** [s'] is a later state of [s]: nothing has left the visited set and the
    trace has only been appended to. *)
Definition extends (s s' : state) : Prop :=
  visited_urls s ⊆ visited_urls s' /\ trace s `prefix_of` trace s'.

(** No URL has been processed twice, and every processed URL is marked as
    visited. *)
Definition once (s : state) : Prop :=
  NoDup (processed (trace s)) /\
  forall u, u ∈ processed (trace s) -> u ∈ visited_urls s.

(** A step after which [once] still holds if it held before. *)
Definition safe_step (s s' : state) : Prop :=
  extends s s' /\ (once s -> once s').

(** The state [_process_page] leaves: the call is on the trace, and an unset
    [allowed_domains] is now the domain of the URL, unless [urlparse] raised
    on the URL. *)
Definition after_process (w : World) (url : text) (s : state) : state :=
  let s1 := log (ProcessPage url) s in
  if urlparse_raises w url || not_none (allowed_domains s1) then s1
  else set_allowed (Some [strip_www (netloc w url)]) s1.

(** The state before [_process_page] is called by [visit]. *)
Definition announced (max_depth : Z) (cb : bool) (url : text) (s : state)
  : state :=
  let s1 := log (Printed (MsgProcessingUrl url max_depth)) s in
  let s2 := if cb then log (Callback (MsgProcessingPage url)) s1 else s1 in
  add_visited url s2.

(** The events [visit] appends before the two that matter. *)
Definition announcement (max_depth : Z) (cb : bool) (url : text) : list event :=
  Printed (MsgProcessingUrl url max_depth)
  :: (if cb then [Callback (MsgProcessingPage url)] else []).

(** What [verify_links] does once [_process_page] has returned a page. *)
Definition after_visit (w : World) (depth : nat) (cb : bool) (url : text)
  (p : page_info) : M state py_ret :=
  (modify (store_result url p) ;;
   report_page cb url p ;;
   match depth with
   | S depth' => follow_links (verify_links_at w depth' cb) cb (links p)
   | O => ret tt
   end ;;
   ret (RetPageInfo p))%py.

(** What [crawl_single_url] does once [_process_page] has returned. *)
Definition after_seed (w : World) (max_depth max_concurrent_requests : Z)
  (cb : bool) (url : text) (page : option page_info)
  : M state (option page_info) :=
  match page with
  | Some p =>
    (modify (store_result url p) ;;
     when (max_depth >? 0)%Z
       (for_enumerate 0 (links p) (fun i link_url =>
          do visited <- gets visited_urls ;
          when (negb (bool_decide (link_url ∈ visited)))
            (try_except
               (wait_for_rate_limit w max_concurrent_requests ;;
                callback cb (MsgProcessingLink (i + 1) (length (links p)) link_url) ;;
                verify_links w link_url (max_depth - 1) cb ;;
                ret tt)
               (fun e =>
                  print (MsgErrorProcessingLink link_url e) ;;
                  callback cb (MsgErrorProcessingLink link_url e))))) ;;
     ret page)%py
  | None => ret page
  end.

End Engine.

(** ** Sitemaps: [DeepCrawler.parse_sitemap] *)

Module Sitemap.
Import PyStr Py.
Local Open Scope py_scope.

(** An [xml.etree.ElementTree.Element]. *)
Inductive element :=
  | Element (tag : text) (text_ : option text) (attrib : list (text * text))
            (children : list element).

Definition tag (e : element) : text :=
  match e with Element t _ _ _ => t end.

Definition text_ (e : element) : option text :=
  match e with Element _ t _ _ => t end.

Definition attrib (e : element) : list (text * text) :=
  match e with Element _ _ a _ => a end.

(** The elements below [e], in document order. *)
Fixpoint descendants (e : element) : list element :=
  match e with
  | Element _ _ _ children => flat_map (fun c => c :: descendants c) children
  end.

(** The path step [{*}name]: the tag [name] in any namespace or in none. *)
Definition tag_matches (name : text) (e : element) : bool :=
  bool_decide (tag e = name) || endswith (py "}" ++ name) (tag e).

(** [e.findall('.//{*}name')] and [e.find('.//{*}name')] *)
Definition findall (name : text) (e : element) : list element :=
  List.filter (tag_matches name) (descendants e).

Definition find (name : text) (e : element) : option element :=
  head (findall name e).

(** [attrib['href']] when ['href' in attrib] *)
Fixpoint get_attr (key : text) (a : list (text * text)) : option text :=
  match a with
  | [] => None
  | (k, v) :: a' => if bool_decide (k = key) then Some v else get_attr key a'
  end.

(** What [requests.get] did. *)
Inductive http_result :=
  | ConnectionFailed
  | HttpResponse (status_code : Z) (body : text).

(** The network and the XML parser: [fromstring] is [None] where
    [ET.fromstring] raises [ParseError]. *)
Record Web := mk_web {
  get : text -> http_result;
  fromstring : text -> option element
}.

Inductive log_line :=
  | Extracted (n : nat) (sitemap_url : text)
  | ErrorParsing (sitemap_url : text) (e : exn).

Definition print (l : log_line) : M (list log_line) unit :=
  modify (fun out => out ++ [l]).

(** [response = requests.get(...); response.raise_for_status();
    response.text] *)
Definition fetch (web : Web) (url : text) : M (list log_line) text :=
  match get web url with
  | ConnectionFailed => raise RequestException
  | HttpResponse status_code body =>
    if (400 <=? status_code)%Z && (status_code <? 600)%Z
    then raise HTTPError else ret body
  end.

Definition parse_xml (web : Web) (xml_content : text)
  : M (list log_line) element :=
  match fromstring web xml_content with
  | Some root => ret root
  | None => raise ParseError
  end.

(** The [<loc>] of each [<url>] (or [<sitemap>]) element. *)
Definition locs (name : text) (root : element) : list text :=
  flat_map (fun el =>
    match find (py "loc") el with
    | Some loc_element =>
      match text_ loc_element with
      | Some t => if truthy t then [strip t] else []
      | None => []
      end
    | None => []
    end) (findall name root).

(** The links of the items of an RSS feed, or of the entries of an Atom
    feed when there are no items. *)
Definition feed_links (root : element) : list text :=
  let items := if truthy (findall (py "item") root)
               then findall (py "item") root
               else findall (py "entry") root in
  flat_map (fun item =>
    match find (py "link") item with
    | Some link =>
      if truthy (default [] (text_ link)) then [strip (default [] (text_ link))]
      else match get_attr (py "href") (attrib link) with
           | Some href => [strip href]
           | None => []
           end
    | None => []
    end) items.

(** [DeepCrawler.parse_sitemap(sitemap_url)]. [calls_left] is how many more
    nested calls the interpreter's recursion limit allows: a call that has to
    recurse beyond it gets [RecursionError], which its [except Exception]
    catches like any other. *)
Fixpoint parse_sitemap (web : Web) (calls_left : nat) (sitemap_url : text)
  : M (list log_line) (list text) :=
  try_except
    (do xml_content <- fetch web sitemap_url ;
     do root <- parse_xml web xml_content ;
     do urls <-
       (if endswith (py "urlset") (tag root) then
          ret (locs (py "url") root)
        else if endswith (py "sitemapindex") (tag root) then
          match calls_left with
          | S calls_left' =>
            for_extend (locs (py "sitemap") root)
                       (parse_sitemap web calls_left') []
          | O => raise RecursionError
          end
        else if endswith (py "rss") (tag root) || endswith (py "feed") (tag root)
        then ret (feed_links root)
        else ret []) ;
     print (Extracted (length urls) sitemap_url) ;;
     ret urls)
    (fun e =>
       print (ErrorParsing sitemap_url e) ;;
       ret []).

(** The document cannot be fetched: the connection fails or the status is an
    error. *)
Definition fetch_fails (web : Web) (url : text) : Prop :=
  match get web url with
  | ConnectionFailed => True
  | HttpResponse status_code _ => (400 <= status_code < 600)%Z
  end.

(** The document is fetched but is not well-formed XML. *)
Definition parse_fails (web : Web) (url : text) : Prop :=
  match get web url with
  | ConnectionFailed => False
  | HttpResponse status_code body =>
    ~ (400 <= status_code < 600)%Z /\ fromstring web body = None
  end.

End Sitemap.

(** ** Job progress: [JobState] and [process_crawl] in api_bridge.py *)

Module Job.
Import PyStr.

(** The fields of [JobState] that the progress report reads or writes. *)
Record JobState := mk_job {
  status : text;
  progress : Q;
  current_page : option text;
  pages_crawled : Z;
  progress_logs : list text
}.

(** [JobState()] *)
Definition new_job : JobState := mk_job (py "pending") 0.0 None 0 [].

(** The text before and after the first occurrence of [marker] in [s]. *)
Fixpoint find_sub (marker s : text) : option (text * text) :=
  if startswith marker s then Some ([], drop (length marker) s)
  else match s with
       | [] => None
       | c :: s' =>
         match find_sub marker s' with
         | Some (before, after) => Some (c :: before, after)
         | None => None
         end
       end.

(** [marker in s] *)
Definition contains (marker s : text) : bool := not_none (find_sub marker s).

(** [s.split(marker)[1]], for [s] that contains [marker]. *)
Definition second_part (marker s : text) : text :=
  match find_sub marker s with
  | Some (_, after) =>
    match find_sub marker after with
    | Some (before, _) => before
    | None => after
    end
  | None => []
  end.

Definition success_marker : text := py "Successfully processed:".

(** [sync_update_progress(message)], as far as [job_state] goes. *)
Definition sync_update_progress (message : text) (j : JobState) : JobState :=
  let logs := progress_logs j ++ [message] in
  if contains success_marker message
  then mk_job (status j) (progress j)
              (Some (strip (second_part success_marker message)))
              (pages_crawled j + 1) logs
  else mk_job (status j) (progress j) (current_page j) (pages_crawled j) logs.

(** [min(a, b)] of Python: [b] when [b < a], else [a]. *)
Definition py_min (a b : Q) : Q :=
  if RateLimiter.Qlt_bool b a then b else a.

(** [request.max_pages or 50] *)
Definition page_budget (max_pages : Z) : Z :=
  if (max_pages =? 0)%Z then 50 else max_pages.

(** [min(0.9, pages_crawled / (request.max_pages or 50))] *)
Definition fraction (max_pages pages : Z) : Q :=
  py_min 0.9 (inject_Z pages / inject_Z (page_budget max_pages))%Q.

Definition check_mark : text := [10003%N].

Definition cross_mark : text := [10007%N].

Definition stats_message (p : Engine.page_info) : text :=
  py "  Content stats: "
  ++ py (pretty (Engine.word_count p)) ++ py " words, "
  ++ py (pretty (Engine.chunk_count p)) ++ py " chunks".

(** [process_page_with_progress(url)], where [result] is what the original
    [_process_page] returned for [url]. *)
Definition process_page_with_progress (max_pages : Z) (url : text)
  (result : option Engine.page_info) (j : JobState) : JobState :=
  let j := sync_update_progress (py "Processing page: " ++ url) j in
  let j := mk_job (status j) (progress j) (Some url) (pages_crawled j + 1)
                  (progress_logs j) in
  let j := mk_job (status j) (fraction max_pages (pages_crawled j))
                  (current_page j) (pages_crawled j) (progress_logs j) in
  match result with
  | Some p =>
    let j := sync_update_progress
               (check_mark ++ py " Successfully processed: " ++ url) j in
    let j := sync_update_progress (py "  Title: " ++ Engine.title p) j in
    let j := if not_none (Engine.embedding p)
             then sync_update_progress
                    (check_mark ++ py " Generated embeddings for: " ++ url) j
             else j in
    sync_update_progress (stats_message p) j
  | None =>
    sync_update_progress (cross_mark ++ py " Failed to process: " ++ url) j
  end.

(** Lines 657-660: [job_state.progress = 1.0], then the status. *)
Definition complete (j : JobState) : JobState :=
  mk_job (py "completed") 1.0 (current_page j) (pages_crawled j)
         (progress_logs j).

(** What happens to one job, as far as its progress goes: pages are
    processed one after the other, and the job may then complete. *)
Inductive step :=
  | Page (url : text) (result : option Engine.page_info)
  | Complete.

Definition exec (max_pages : Z) (j : JobState) (s : step) : JobState :=
  match s with
  | Page url result => process_page_with_progress max_pages url result j
  | Complete => complete j
  end.

Definition lifetime (pages : list (text * option Engine.page_info))
  (completes : bool) : list step :=
  map (fun '(url, result) => Page url result) pages
  ++ (if completes then [Complete] else []).

(** The values [progress] takes: before the first step and after each. *)
Fixpoint history (max_pages : Z) (j : JobState) (steps : list step) : list Q :=
  progress j ::
  match steps with
  | [] => []
  | s :: rest => history max_pages (exec max_pages j s) rest
  end.

Fixpoint nondecreasing (l : list Q) : Prop :=
  match l with
  | a :: (b :: _) as rest => (a <= b)%Q /\ nondecreasing rest
  | _ => True
  end.

(** *** Vocabulary of the statements about progress *)

(** What holds of a job between two steps: the counter is not negative and
    the progress is at most the fraction for the current counter. *)
Definition in_bounds (max_pages : Z) (j : JobState) : Prop :=
  (0 <= pages_crawled j)%Z /\
  (progress j <= fraction max_pages (pages_crawled j))%Q.

(** The value a page writes into [progress]: the fraction for the counter
    at that moment. *)
Definition page_fraction (max_pages : Z) (url : text) (j : JobState) : Q :=
  fraction max_pages
    (pages_crawled (sync_update_progress (py "Processing page: " ++ url) j) + 1).

End Job.

(** ** More vocabulary for the chunker *)

Module ChunkerTerms.
Import PyStr Chunker.

(** The chunks emitted so far carry the ordinals [0 .. chunk_index - 1]. *)
Definition numbered (st : loop_state) : Prop :=
  map id (chunks st) = seq 0 (chunk_index st).

(** A chunk as a reader expects it: no whitespace at either end of the
    content, and a word count that is the number of words of the content. *)
Definition tidy (c : chunk) : Prop :=
  strip (content c) = content c /\
  word_count c = length (split (content c)) /\
  1 <= word_count c.

(** The chunks emitted so far are tidy, and the running chunk is empty or
    has a visible character. *)
Definition loop_tidy (st : loop_state) : Prop :=
  Forall tidy (chunks st) /\
  (current_chunk st = [] \/ nonspace (current_chunk st) <> []).

(** Nothing has been emitted yet: the running chunk holds every kept part
    read so far. *)
Definition gathering (done : list text) (st : loop_state) : Prop :=
  chunks st = [] /\ chunk_index st = 0 /\ current_chunk st = concat (kept done).

End ChunkerTerms.

(** ** Embedding padding of the loaders: [pad_embedding]

    The function of the same name and body in
    [src/core/integrated_workflow.py] and
    [src/scripts/process_json_to_supabase.py]. *)

Module Padding.
Import PyStr.

(** What a call evaluates to: a list, or the exception of the integer
    division. *)
Inductive padded (A : Type) :=
  | Padded (embedding : list A)
  | ZeroDivisionError.
Arguments Padded {A}.
Arguments ZeroDivisionError {A}.

Definition pad_embedding {A} (embedding : list A) (target_dimensions : Z)
  : padded A :=
  let current_dimensions := Z.of_nat (length embedding) in
  if (current_dimensions =? target_dimensions)%Z then Padded embedding
  else if (current_dimensions >? target_dimensions)%Z
  then Padded (slice_to target_dimensions embedding)
  else if (current_dimensions =? 0)%Z then ZeroDivisionError
  else
    let padding_repeats := (target_dimensions / current_dimensions + 1)%Z in
    Padded (slice_to target_dimensions (list_times embedding padding_repeats)).

(** The dimension the loaders pass. *)
Definition target : Z := 1536.

(** [e] repeats [v] from its start: position [i] holds the value at
    [i mod len(v)]. *)
Definition repeats {A} (v e : list A) : Prop :=
  forall i, i < length e -> e !! i = v !! (i mod length v).

(** [e] is [v], cut or filled up with [zero]. *)
Definition zero_filled {A} (zero : A) (v e : list A) : Prop :=
  forall i, i < length e ->
    e !! i = if i <? length v then v !! i else Some zero.

End Padding.

(** ** More vocabulary for the crawl engine *)

Module EngineTerms.
Import PyStr Py Engine.

(** A sequence of calls that are all calls of [verify_links]. *)
Definition only_verify_links (calls : list call) : Prop :=
  Forall (fun c => match c with
                   | CallVerifyLinks _ _ _ => True
                   | CallCrawlMany _ _ _ _ => False
                   end) calls.

(** A domain restriction that is set in [s] is the same in [s']. *)
Definition keeps_allowed (s s' : state) : Prop :=
  forall a, allowed_domains s = Some a -> allowed_domains s' = Some a.

(** A statement that, when it returns, returns [f] of the state it leaves:
    [return self.f]. *)
Definition yields {St A} (f : St -> A) (m : M St A) : Prop :=
  forall s, match (m s).1 with
            | Returned v => v = f (m s).2
            | Raised _ => True
            end.

(** The events a task appends when it gives up on its seed. *)
Definition gave_up (cb : bool) (url : text) (e : exn) : list event :=
  Printed (MsgErrorCrawling url e)
  :: (if cb then [Callback (MsgErrorCrawling url e)] else []).

(** The state in which [crawl_many] starts its tasks. *)
Definition tasks_start (urls : list text) (max_depth max_concurrent_requests : Z)
  (cb : bool) (s : state) : state :=
  let s1 := log (Printed (MsgStarting (length urls))) s in
  let s2 := if cb
            then log (Callback (MsgMaxConcurrent max_concurrent_requests))
                   (log (Callback (MsgMaxDepth max_depth))
                      (log (Callback (MsgStarting (length urls))) s1))
            else s1 in
  set_limiter (RateLimiter.mk_limiter [] []) (set_results ∅ s2).

(** What a page record promises about the page it was built for. *)
Definition record_ok (w : World) (url : text) (allowed : list text)
  (p : page_info) : Prop :=
  page_url p = url /\
  status p = py "accessible" /\
  chunk_count p = length (page_chunks p) /\
  word_count p = length (split (page_markdown p)) /\
  (forall e, embedding p = Some e -> length e = 1536) /\
  Forall (fun link =>
            link_allowed w link allowed = true /\
            Forall (fun ext => endswith ext (lower w link) = false)
                   asset_extensions)
         (links p).

End EngineTerms.

(** ** More vocabulary for the sitemap parser *)

Module SitemapTerms.
Import PyStr Py Sitemap.

(** What a call of [parse_sitemap] returns and what it prints, when nothing
    has been printed before. *)
Definition urls_of (web : Web) (calls_left : nat) (sitemap_url : text)
  : list text :=
  match (parse_sitemap web calls_left sitemap_url []).1 with
  | Returned urls => urls
  | Raised _ => []
  end.

Definition lines_of (web : Web) (calls_left : nat) (sitemap_url : text)
  : list log_line :=
  (parse_sitemap web calls_left sitemap_url []).2.

(** The document at [url] is a well-formed sitemap index with root
    [root]. *)
Definition is_index (web : Web) (url : text) (root : element) : Prop :=
  exists status_code body,
    get web url = HttpResponse status_code body /\
    ~ (400 <= status_code < 600)%Z /\
    fromstring web body = Some root /\
    endswith (py "urlset") (tag root) = false /\
    endswith (py "sitemapindex") (tag root) = true.

(** The last line a call printed tells how it ended. *)
Definition reported (sitemap_url : text) (urls : list text)
  (lines : list log_line) : Prop :=
  last lines = Some (Extracted (length urls) sitemap_url) \/
  (urls = [] /\ exists e, last lines = Some (ErrorParsing sitemap_url e)).

(** A statement that returns [v] and prints [lines], whatever was printed
    before. *)
Definition prints {A} (m : M (list log_line) A) (v : A) (lines : list log_line)
  : Prop :=
  forall out, m out = (Returned v, out ++ lines).

End SitemapTerms.

(** ** The status endpoint, the result limit and the WebSocket registry of
       api_bridge.py *)

Module Api.
Import PyStr Job.

(** The ["progress"] field of the answer of [get_job_status]:
    [min(0.99, job_state.progress) if job_state.status != "completed"
     else 1.0]. *)
Definition reported_progress (j : JobState) : Q :=
  if negb (bool_decide (status j = py "completed"))
  then py_min 0.99 (progress j)
  else 1.0.

(** [for i, (url, data) in enumerate(results.items()):
        if i >= max_pages: break
        limited_results[url] = data]
    over the items from the [i]-th on. The keys of a dictionary are
    distinct, so each assignment adds an item at the end. *)
Fixpoint limit_loop {K V} (max_pages : Z) (i : nat) (items limited : list (K * V))
  : list (K * V) :=
  match items with
  | [] => limited
  | item :: rest =>
    if (Z.of_nat i >=? max_pages)%Z then limited
    else limit_loop max_pages (S i) rest (limited ++ [item])
  end.

(** The results after the limit was applied; a dictionary is the list of
    its items in insertion order. *)
Definition limit_results {K V} (max_pages : Z) (results : list (K * V))
  : list (K * V) :=
  if (max_pages >? 0)%Z && (Z.of_nat (length results) >? max_pages)%Z
  then limit_loop max_pages 0 results []
  else results.

(** [ConnectionManager.active_connections] is a [defaultdict(set)] from job
    id to the WebSockets that listen to the job: a finite map from job ids
    to finite sets, a WebSocket being named by a number.
    [self.active_connections[job_id]] is the empty set for a job that is not
    listed. *)
Definition connections (m : gmap text (gset nat)) (job_id : text) : gset nat :=
  default ∅ (m !! job_id).

(** [self.active_connections[job_id].add(websocket)] *)
Definition connect (websocket : nat) (job_id : text) (m : gmap text (gset nat))
  : gmap text (gset nat) :=
  <[job_id := {[websocket]} ∪ connections m job_id]> m.

(** [self.active_connections[job_id].discard(websocket)], and the entry is
    deleted when that leaves it empty. *)
Definition disconnect (websocket : nat) (job_id : text)
  (m : gmap text (gset nat)) : gmap text (gset nat) :=
  let rest := connections m job_id ∖ {[websocket]} in
  if bool_decide (rest = ∅) then delete job_id m else <[job_id := rest]> m.

(** The registry after [close_all_job_connections(job_id)]: the entry of a
    listed job is replaced by [set()]. *)
Definition close_all_job_connections (job_id : text)
  (m : gmap text (gset nat)) : gmap text (gset nat) :=
  match m !! job_id with
  | None => m
  | Some _ => <[job_id := ∅]> m
  end.

(** The calls that register and remove WebSockets. *)
Inductive operation :=
  | Connect (websocket : nat) (job_id : text)
  | Disconnect (websocket : nat) (job_id : text).

Definition apply_operation (m : gmap text (gset nat)) (op : operation)
  : gmap text (gset nat) :=
  match op with
  | Connect websocket job_id => connect websocket job_id m
  | Disconnect websocket job_id => disconnect websocket job_id m
  end.

(** No job is listed with an empty set of connections. *)
Definition no_empty_entry (m : gmap text (gset nat)) : Prop :=
  forall job_id, m !! job_id <> Some ∅.

End Api.

(** ** Selectors for content extraction: [src/utils/selectors.py] *)

Module Selectors.
Import PyStr.

(** The double quote in the selector [[role="main"]]. *)
Definition quote : N := 34.

Definition GENERIC_SELECTORS : list text :=
  [py "article"; py "main"; py ".content"; py "#content"; py ".post";
   py ".article"; py ".documentation"; py ".docs-content";
   py ".markdown-content"; py ".page-content";
   py "[role=" ++ [quote] ++ py "main" ++ [quote] ++ py "]";
   py ".main-content"; py "#main-content"].

Definition SUPABASE_CLI_SELECTORS : list text :=
  [py ".docs-content"; py ".prose"; py "main article";
   py ".content-container"; py "#docs-content-container"].

(** One entry of [DOMAIN_SELECTOR_MAP]. *)
Record domain_config := mk_config {
  path_patterns : list text;
  selectors : list text
}.

Definition DOMAIN_SELECTOR_MAP : gmap text domain_config :=
  {[ py "supabase.com" :=
       mk_config [py "/docs/reference/cli/"] SUPABASE_CLI_SELECTORS ]}.

Definition cli_patterns : list text :=
  [py "/cli/"; py "/reference/cli/"; py "/docs/cli/"; py "/cli-reference/";
   py "/command-line/"; py "/commands/"].

Section Urlparse.
(** [urlparse(url).netloc] and [urlparse(url).path] *)
Context (netloc path : text -> text).

Definition get_selectors_for_url (url : text) : list text :=
  match DOMAIN_SELECTOR_MAP !! netloc url with
  | Some domain_config =>
    match List.find (fun pattern => Job.contains pattern (path url))
                    (path_patterns domain_config) with
    | Some _ => selectors domain_config
    | None => GENERIC_SELECTORS
    end
  | None => GENERIC_SELECTORS
  end.

Definition is_cli_documentation (url : text) : bool :=
  existsb (fun pattern => Job.contains pattern (path url)) cli_patterns.

End Urlparse.

End Selectors.

(** ** The importer: [src/scripts/process_json_to_supabase.py]

    The JSON file is read as the list of its items in file order; its keys
    are the URLs. A record is any JSON value, and it is modelled by what the
    script does with it: the [.get] calls and the [len] calls of the script
    raise on values of the wrong kind, and where they raise decides what is
    counted. A field read with [.get] is [None] where the key is missing. *)

Module Loader.
Import PyStr.

(** [content["chunks"]], as the script uses it. [len(chunks)] raises
    [TypeError] on [null], on a number and on a boolean. Anything else is
    iterated over, and of each item the script calls [.get("content", "")],
    which raises [AttributeError] on an item that is not an object: such an
    item is [None] here. *)
Inductive chunks_field :=
  | NoChunks
  | ChunksUnsized
  | Chunks (items : list (option text)).

Record page_fields := mk_page_fields {
  pd_embedding : option (list Q);   (* page_data["embedding"] *)
  pd_title : option text;           (* metadata.get("title") *)
  pd_summary : option text;         (* metadata.get("summary") *)
  pd_markdown : option text;        (* content.get("markdown") *)
  pd_chunks : chunks_field          (* content["chunks"] *)
}.

(** One record of the file. It is [Unreadable] when reading it raises before
    anything is inserted: the record, its ["content"] or its ["metadata"] is
    not an object, so that a [.get] raises [AttributeError], or its
    ["embedding"] is [null] or a number, so that [pad_embedding] raises
    [TypeError]. *)
Inductive page_data :=
  | Unreadable
  | Readable (fields : page_fields).

Definition mk_page_data (embedding : option (list Q))
  (title summary markdown : option text) (chunks : chunks_field) : page_data :=
  Readable (mk_page_fields embedding title summary markdown chunks).

(** A row handed to [adapter.insert_site_page]. *)
Record site_page := mk_site_page {
  sp_url : text;
  sp_chunk_number : nat;
  sp_title : text;
  sp_summary : option text;
  sp_content : text;
  sp_embedding : option (list Q)
}.

(** What one call of [adapter.insert_site_page] did: it raised or returned
    something of which the script cannot read the id, it returned a falsy
    value, or it returned the inserted row, of which the script reads the
    id. *)
Inductive insert_result :=
  | InsertRaises
  | InsertRefused
  | Inserted (page_id : Z).

(** The database as the script sees it: the answer to the [n]-th call of
    [insert_site_page], and the URLs that [check_existing_urls] finds in the
    table ([None] when the request fails or is not answered with 200 or
    206). *)
Record Database := mk_database {
  insert_site_page : nat -> site_page -> insert_result;
  db_urls : option (gset text)
}.

(** The local variables of [process_json_file] that outlive one URL, the
    number of calls made to the adapter, and the rows inserted so far. *)
Record run_state := mk_run {
  existing_urls : gset text;
  successful_inserts : nat;
  failed_inserts : nat;
  skipped_duplicates : nat;
  calls : nat;
  stored : list site_page
}.

(** [check_existing_urls(adapter, urls)] *)
Definition check_existing_urls (db : Database) (urls : list text) : gset text :=
  match db_urls db with
  | Some in_table => list_to_set urls ∩ in_table
  | None => ∅
  end.

Definition start (db : Database) (urls : list text) : run_state :=
  mk_run (check_existing_urls db urls) 0 0 0 0 [].

Definition called (st : run_state) : run_state :=
  mk_run (existing_urls st) (successful_inserts st) (failed_inserts st)
         (skipped_duplicates st) (S (calls st)) (stored st).

(** The row is in the table: [existing_urls.add(url)]. *)
Definition inserted (row : site_page) (st : run_state) : run_state :=
  mk_run ({[sp_url row]} ∪ existing_urls st) (successful_inserts st)
         (failed_inserts st) (skipped_duplicates st) (calls st)
         (stored st ++ [row]).

Definition succeeded (st : run_state) : run_state :=
  mk_run (existing_urls st) (S (successful_inserts st)) (failed_inserts st)
         (skipped_duplicates st) (calls st) (stored st).

Definition failed (st : run_state) : run_state :=
  mk_run (existing_urls st) (successful_inserts st) (S (failed_inserts st))
         (skipped_duplicates st) (calls st) (stored st).

Definition skipped (st : run_state) : run_state :=
  mk_run (existing_urls st) (successful_inserts st) (failed_inserts st)
         (S (skipped_duplicates st)) (calls st) (stored st).

(** [for attempt in range(retry_count)]: the row is inserted at the first
    attempt that returns a row; an attempt that raises or returns nothing is
    followed by the next. *)
Fixpoint try_insert (db : Database) (attempts : nat) (row : site_page)
  (st : run_state) : option Z * run_state :=
  match attempts with
  | O => (None, st)
  | S attempts' =>
    match insert_site_page db (calls st) row with
    | Inserted page_id => (Some page_id, inserted row (succeeded (called st)))
    | _ => try_insert db attempts' row (called st)
    end
  end.

Definition chunk_url (url : text) (chunk_idx : nat) : text :=
  url ++ py "#chunk" ++ py (pretty chunk_idx).

Definition chunk_page (url title : text) (chunk_idx : nat) (content : text)
  : site_page :=
  mk_site_page (chunk_url url chunk_idx) (chunk_idx + 1)
    (title ++ py " (Chunk " ++ py (pretty chunk_idx) ++ py ")")
    None content None.

(** [for chunk_idx, chunk in enumerate(chunks, 1)], from [chunk_idx] on.
    Whatever is raised for one chunk is caught for that chunk. *)
Fixpoint insert_chunks (db : Database) (url title : text) (chunk_idx : nat)
  (chunks : list (option text)) (st : run_state) : run_state :=
  match chunks with
  | [] => st
  | chunk :: rest =>
    let st' :=
      if bool_decide (chunk_url url chunk_idx ∈ existing_urls st) then st
      else
        match chunk with
        | Some content =>
          let row := chunk_page url title chunk_idx content in
          match insert_site_page db (calls st) row with
          | Inserted _ => inserted row (called st)
          | _ => called st
          end
        | None => st
        end in
    insert_chunks db url title (S chunk_idx) rest st'
  end.

(** [if inserted and "chunks" in content:], once the page is inserted.
    [len(chunks)] is outside the [try] of the chunks: when it raises, the
    [except] of the URL counts a failure for a URL that has been counted as
    inserted. *)
Definition process_chunks (db : Database) (url title : text)
  (chunks : chunks_field) (st : run_state) : run_state :=
  match chunks with
  | NoChunks => st
  | ChunksUnsized => failed st
  | Chunks items => insert_chunks db url title 1 items st
  end.

(** The row of the page is built and inserted, and then its chunks. *)
Definition insert_page (db : Database) (retry_count : Z) (url : text)
  (page : page_fields) (embedding : option (list Q)) (st : run_state)
  : run_state :=
  let title := default (py "No Title") (pd_title page) in
  let row := mk_site_page url 1 title
               (Some (default [] (pd_summary page)))
               (default [] (pd_markdown page)) embedding in
  match try_insert db (Z.to_nat retry_count) row st with
  | (Some _, st') => process_chunks db url title (pd_chunks page) st'
  | (None, st') => failed st'
  end.

(** The body of [for url in batch_urls]. *)
Definition process_url (db : Database) (retry_count : Z) (st : run_state)
  (item : text * page_data) : run_state :=
  let '(url, page) := item in
  if bool_decide (url ∈ existing_urls st) then skipped st
  else
    match page with
    | Unreadable => failed st
    | Readable page =>
      match pd_embedding page with
      | Some embedding =>
        match Padding.pad_embedding embedding Padding.target with
        | Padding.Padded e => insert_page db retry_count url page (Some e) st
        | Padding.ZeroDivisionError => failed st
        end
      | None => insert_page db retry_count url page None st
      end
    end.

(** [range(0, stop, step)] for a positive [step], from [i] on. *)
Fixpoint range_from (fuel i stop step : nat) : list nat :=
  match fuel with
  | O => []
  | S fuel' => if i <? stop then i :: range_from fuel' (i + step) stop step else []
  end.

(** [for i in range(0, total_urls, batch_size): batch_urls = urls[i:i+batch_size]],
    each batch handed to the loop over its URLs. [None] is the [ValueError]
    that [range] raises for a step of zero; a negative step gives an empty
    range. *)
Definition process_batches (db : Database) (batch_size retry_count : Z)
  (data : list (text * page_data)) (st : run_state) : option run_state :=
  if (batch_size =? 0)%Z then None
  else if (batch_size <? 0)%Z then Some st
  else
    let step := Z.to_nat batch_size in
    Some (fold_left
            (fun st i =>
               fold_left (process_url db retry_count) (take step (drop i data)) st)
            (range_from (length data) 0 (length data) step) st).

Inductive result :=
  | Returns (successful failed : nat)
  | RaisesZeroDivisionError
  | RaisesValueError.

(** [process_json_file(input_file, batch_size, retry_count, _)]. [file] is
    [None] when the file is missing or is not JSON. The last thing the
    function does before it returns is to print the success rate,
    [successful_inserts/(total_urls-skipped_duplicates)*100]. *)
Definition process_json_file (file : option (list (text * page_data)))
  (db : Database) (batch_size retry_count : Z) : result * run_state :=
  match file with
  | None => (Returns 0 0, mk_run ∅ 0 0 0 0 [])
  | Some data =>
    let st0 := start db (map fst data) in
    match process_batches db batch_size retry_count data st0 with
    | None => (RaisesValueError, st0)
    | Some st =>
      if (Z.of_nat (length data) - Z.of_nat (skipped_duplicates st) =? 0)%Z
      then (RaisesZeroDivisionError, st)
      else (Returns (successful_inserts st) (failed_inserts st), st)
    end
  end.

(** The exit status of the script: what [main] returns, or 1 when an
    exception leaves it. *)
Definition exit_status (r : result) : Z :=
  match r with
  | Returns successful failed =>
    if failed =? 0 then 0 else if 0 <? successful then 1 else 2
  | _ => 1
  end.

(** *** Vocabulary of the statements about the importer *)



(** The rows inserted in this run have pairwise distinct URLs, none of which
    was found in the table when the run started, and all of which are now
    remembered. *)
Definition no_duplicates (before : gset text) (st : run_state) : Prop :=
  NoDup (map sp_url (stored st)) /\
  (forall row, In row (stored st) ->
     sp_url row ∈ existing_urls st /\ sp_url row ∉ before) /\
  before ⊆ existing_urls st.

End Loader.

(** * Part II. Example inputs *)

Module Inputs.
Import PyStr Py.

(** *** An embedder *)

Section Embedder.
Import Embedding.

(** An embedder that answers every prompt with 500 ones. *)
Definition ones : list Q := repeat 1%Q 500.

Definition post_ones (_ : text) : option (response Q) :=
  Some (Response 200 (Some ones)).

End Embedder.

(** *** A ledger of the rate limiter *)

Section Ledger.
Import RateLimiter.

(** One worker allowed per second, one request made at t = 100 s. *)
Definition one_request : limiter := mk_limiter [100%Q] [].

End Ledger.

(** *** A site to crawl *)

Section Site.
Import Engine.

(** A site of two pages: the home page has links to [/a], to a fragment of
    itself and to an image, and one empty link; [/a] links back to the home
    page. Every page is fetched in well under the two seconds that pass
    between two readings of the clock. *)
Definition home : text := py "https://site.test/".

Definition page_a : text := py "https://site.test/a".

Definition site : World := {|
  netloc := fun _ => py "site.test";
  urlparse_raises := fun _ => false;
  _extract_content := fun url =>
    if bool_decide (url = home)
    then Some (mk_content (py "Home") (py "<home>") (py "Welcome"))
    else if bool_decide (url = page_a)
    then Some (mk_content (py "A") (py "<a>") (py "Page A"))
    else None;
  hrefs := fun html =>
    if bool_decide (html = py "<home>")
    then [py "a"; py "#top"; py "logo.png"; py ""]
    else if bool_decide (html = py "<a>") then [py "/"]
    else [];
  urljoin := fun base href =>
    if bool_decide (href = py "/") then py "https://site.test/"
    else py "https://site.test/" ++ href;
  urljoin_raises := fun _ _ => false;
  find_title := fun _ => None;
  find_h1 := fun _ => None;
  _get_summary_with_llm := fun _ _ => [];
  post_embeddings := fun _ => None;
  lower := fun s => s;
  time := fun k => inject_Z (2 * Z.of_nat k)
|}.

Definition engine0 : state := fresh (Some [py "site.test"]).

Definition home_info : page_info :=
  mk_page (py "accessible") home (py "Home") (py "Welcome") []
          [Chunker.mk_chunk 0 (py "Welcome") 1] 1 1 [page_a] None.

Definition a_info : page_info :=
  mk_page (py "accessible") page_a (py "A") (py "Page A") []
          [Chunker.mk_chunk 0 (py "Page A") 2] 2 1 [home] None.

(** The engine after the home page was crawled without following links. *)
Definition engine1 : state := (verify_links site home 0 false engine0).2.

End Site.

(** *** Sitemaps on the web *)

Section Web.
Import Sitemap.

Definition ns : text := py "{http://www.sitemaps.org/schemas/sitemap/0.9}".

Definition url_entry (loc : text) : element :=
  Element (ns ++ py "url") None []
    [Element (ns ++ py "loc") (Some loc) [] [];
     Element (ns ++ py "lastmod") (Some (py "2025-01-01")) [] []].

(** A sitemap with three entries at [/sitemap.xml], an index at
    [/index.xml] that points to it and to a missing one, a document that is
    not XML at [/broken.xml], and nothing anywhere else. *)
Definition web : Web := {|
  get := fun url =>
    if bool_decide (url = py "https://site.test/sitemap.xml")
    then HttpResponse 200 (py "<urlset>")
    else if bool_decide (url = py "https://site.test/index.xml")
    then HttpResponse 200 (py "<sitemapindex>")
    else if bool_decide (url = py "https://site.test/broken.xml")
    then HttpResponse 200 (py "<urlset")
    else if bool_decide (url = py "https://down.test/sitemap.xml")
    then ConnectionFailed
    else HttpResponse 404 (py "Not Found");
  fromstring := fun xml =>
    if bool_decide (xml = py "<urlset>")
    then Some (Element (ns ++ py "urlset") None []
                 [url_entry (py "https://site.test/");
                  url_entry ([nl] ++ py "  https://site.test/a ");
                  url_entry (py "https://site.test/b")])
    else if bool_decide (xml = py "<sitemapindex>")
    then Some (Element (ns ++ py "sitemapindex") None []
                 [Element (ns ++ py "sitemap") None []
                    [Element (ns ++ py "loc")
                       (Some (py "https://site.test/sitemap.xml")) [] []];
                  Element (ns ++ py "sitemap") None []
                    [Element (ns ++ py "loc")
                       (Some (py "https://site.test/gone.xml")) [] []]])
    else None
|}.

End Web.

End Inputs.

(** *** More engines and worlds *)

Module EngineInputs.
Import PyStr Py Engine Inputs.

(** The engine in the middle of a [crawl_many] with one worker: one request
    was recorded at t = 0 and the clock has not moved. *)
Definition busy : state := set_limiter (RateLimiter.mk_limiter [0%Q] []) engine0.

(** A world in which the host of a URL is what follows [https://] up to the
    next slash. *)
Fixpoint upto_slash (s : text) : text :=
  match s with
  | [] => []
  | c :: s' => if (c =? 47)%N then [] else c :: upto_slash s'
  end.

Definition hosts : World := {|
  netloc := fun url => upto_slash (drop 8 url);
  urlparse_raises := fun _ => false;
  _extract_content := fun _ => None;
  hrefs := fun _ => [];
  urljoin := fun _ href => href;
  urljoin_raises := fun _ _ => false;
  find_title := fun _ => None;
  find_h1 := fun _ => None;
  _get_summary_with_llm := fun _ _ => [];
  post_embeddings := fun _ => None;
  lower := fun s => s;
  time := fun k => inject_Z (Z.of_nat k)
|}.

(** A string on which [urlparse] and [urljoin] raise [ValueError]: the
    bracket of an IPv6 host is not closed. *)
Definition bracket : text := py "http://[".

(** The site of two pages with one more anchor on its home page, the
    string above. *)
Definition broken : World := {|
  netloc := netloc site;
  urlparse_raises := fun url => bool_decide (url = bracket);
  _extract_content := _extract_content site;
  hrefs := fun html =>
    if bool_decide (html = py "<home>")
    then hrefs site html ++ [bracket] else hrefs site html;
  urljoin := urljoin site;
  urljoin_raises := fun _ href => bool_decide (href = bracket);
  find_title := find_title site;
  find_h1 := find_h1 site;
  _get_summary_with_llm := _get_summary_with_llm site;
  post_embeddings := post_embeddings site;
  lower := lower site;
  time := time site
|}.

End EngineInputs.

(** *** A file to import *)

Module LoaderInputs.
Import PyStr Loader Inputs.

(** A table that already holds the home page of the example site, and an
    adapter that refuses its second call and accepts every other. *)
Definition table : Database := {|
  insert_site_page := fun n _ =>
    if n =? 1 then InsertRefused else Inserted (Z.of_nat n);
  db_urls := Some {[home]}
|}.

(** A file with two pages: the home page, and a page with two chunks. *)
Definition dump : list (text * page_data) :=
  [(home, mk_page_data None (Some (py "Home")) None (Some (py "Welcome"))
            (Chunks [Some (py "Welcome")]));
   (page_a, mk_page_data None (Some (py "A")) (Some (py "About"))
              (Some (py "Page A")) (Chunks [Some (py "Page"); Some (py "A")]))].

(** A table that holds nothing and accepts every row. *)
Definition empty_table : Database := {|
  insert_site_page := fun n _ => Inserted (Z.of_nat n);
  db_urls := Some ∅
|}.

(** A file whose one page has ["chunks": null]. *)
Definition null_chunks : list (text * page_data) :=
  [(page_a, mk_page_data None (Some (py "A")) None (Some (py "Page A"))
              ChunksUnsized)].

(** A file with a record that is [null], and a page whose chunks are
    strings, not objects. *)
Definition odd_records : list (text * page_data) :=
  [(home, Unreadable);
   (page_a, mk_page_data None (Some (py "A")) None (Some (py "Page A"))
              (Chunks [None; None]))].

End LoaderInputs.

(** * Part III. Properties *)

(** ** Statements that move the state forward *)

Module PyProps.
Import Py.

Lemma steady_grows {St A} (R : relation St) (m : M St A) :
  steady R m -> grows R m.
Proof. intros H s. apply H. Qed.

Lemma steady_weaken {St A} (R R' : relation St) (m : M St A) :
  (forall s s', R s s' -> R' s s') -> steady R m -> steady R' m.
Proof. intros HR Hm s. destruct (Hm s) as [H1 H2]. split; auto. Qed.

(** The value of a statement that ends in [return b]. *)
Lemma steady_at_then_ret {St A B} (R : relation St) (m : M St A) (b : B) s :
  steady_at R m s -> (bind m (fun _ => ret b) s).1 = Returned b.
Proof.
  intros [_ [a Ha]]. unfold bind. destruct (m s) as [o s'].
  simpl in Ha. now subst o.
Qed.

Lemma steady_ret {St A} (R : relation St) `{!Reflexive R} (a : A) :
  steady (St:=St) R (ret a).
Proof. intros s. split; [reflexivity | now exists a]. Qed.

Lemma steady_gets {St A} (R : relation St) `{!Reflexive R} (f : St -> A) :
  steady R (gets f).
Proof. intros s. split; [reflexivity | now exists (f s)]. Qed.

Lemma steady_modify {St} (R : relation St) (f : St -> St) :
  (forall s, R s (f s)) -> steady R (modify f).
Proof. intros H s. split; [apply H | now exists tt]. Qed.

Lemma grows_raise {St A} (R : relation St) `{!Reflexive R} e :
  grows (St:=St) (A:=A) R (raise e).
Proof. intros s. unfold grows_at. simpl. reflexivity. Qed.

Lemma steady_at_bind {St A B} (R : relation St) `{!Transitive R}
    (m : M St A) (k : A -> M St B) s :
  steady_at R m s ->
  (forall a, (m s).1 = Returned a -> steady_at R (k a) (m s).2) ->
  steady_at R (bind m k) s.
Proof.
  unfold steady_at, bind. intros [Hm [a Ha]] Hk.
  destruct (m s) as [o s']. simpl in *. subst o.
  destruct (Hk a eq_refl) as [Hk1 Hk2].
  split; [etransitivity; eassumption | exact Hk2].
Qed.

Lemma steady_bind {St A B} (R : relation St) `{!Transitive R}
    (m : M St A) (k : A -> M St B) :
  steady R m -> (forall a, steady R (k a)) -> steady R (bind m k).
Proof.
  intros Hm Hk s. apply steady_at_bind; [exact _ | apply Hm |].
  intros a _. apply Hk.
Qed.

Lemma grows_bind {St A B} (R : relation St) `{!Transitive R}
    (m : M St A) (k : A -> M St B) :
  grows R m -> (forall a, grows R (k a)) -> grows R (bind m k).
Proof.
  intros Hm Hk s. unfold grows_at, bind.
  specialize (Hm s). unfold grows_at in Hm.
  destruct (m s) as [[a|e] s']; simpl in *; [|exact Hm].
  etransitivity; [exact Hm | apply Hk].
Qed.

Lemma steady_try_except {St A} (R : relation St) `{!Transitive R}
    (m : M St A) (h : exn -> M St A) :
  grows R m -> (forall e, steady R (h e)) -> steady R (try_except m h).
Proof.
  intros Hm Hh s. unfold steady_at, try_except.
  specialize (Hm s). unfold grows_at in Hm.
  destruct (m s) as [[a|e] s']; simpl in *.
  - split; [exact Hm | now exists a].
  - destruct (Hh e s') as [H1 H2].
    split; [etransitivity; eassumption | exact H2].
Qed.

Lemma steady_when {St} (R : relation St) `{!Reflexive R} (b : bool)
    (m : M St unit) :
  steady R m -> steady R (when b m).
Proof. destruct b; simpl; [auto | intros _; now apply steady_ret]. Qed.

Lemma grows_when {St} (R : relation St) `{!Reflexive R} (b : bool)
    (m : M St unit) :
  grows R m -> grows R (when b m).
Proof.
  destruct b; simpl; [auto | intros _; apply steady_grows; now apply steady_ret].
Qed.

Lemma steady_for_enumerate {St A} (R : relation St) `{!PreOrder R}
    (body : nat -> A -> M St unit) (l : list A) :
  (forall i x, steady R (body i x)) ->
  forall start, steady R (for_enumerate start l body).
Proof.
  intros Hbody. induction l as [|x l IH]; intros start; cbn [for_enumerate].
  - apply steady_ret; exact _.
  - apply steady_bind; [exact _ | apply Hbody | intros _; apply IH].
Qed.

End PyProps.

(** ** Properties of the chunker *)

Module ChunkerProps.
Import PyStr Chunker.

(** *** The model on small inputs *)

Example re_split_paragraphs :
  re_split (py "a" ++ [nl; nl] ++ py "b") = [py "a"; [nl; nl]; py "b"].
Proof. reflexivity. Qed.

Example re_split_heading :
  re_split (py "intro" ++ [nl] ++ py "## Title" ++ [nl] ++ py "body")
  = [py "intro"; [nl] ++ py "## "; py "Title" ++ [nl] ++ py "body"].
Proof. reflexivity. Qed.

Example re_split_seven_hashes :
  re_split (py "x" ++ [nl] ++ py "####### y") = [py "x" ++ [nl] ++ py "####### y"].
Proof. reflexivity. Qed.

Example re_split_trailing :
  re_split (py "a" ++ [nl; nl]) = [py "a"; [nl; nl]; []].
Proof. reflexivity. Qed.

Example chunk_small :
  _chunk_markdown (py "ab" ++ [nl; nl] ++ py "cd") 3
  = [mk_chunk 0 (py "ab") 1; mk_chunk 1 (py "cd") 1].
Proof. reflexivity. Qed.

Example chunk_joined :
  _chunk_markdown (py "ab" ++ [nl; nl] ++ py "cd") 1000
  = [mk_chunk 0 (py "abcd") 1].
Proof. reflexivity. Qed.

Example chunk_oversized :
  _chunk_markdown (py "abcdef" ++ [nl; nl] ++ py "g") 3
  = [mk_chunk 0 (py "abcdef") 1; mk_chunk 1 (py "g") 1].
Proof. reflexivity. Qed.

(** *** Whitespace *)

Lemma truthy_rev {A} (s : list A) : truthy (rev s) = truthy s.
Proof.
  destruct s as [|a s]; [reflexivity|].
  simpl. destruct (rev s); reflexivity.
Qed.

Lemma truthy_length {A} (s : list A) : truthy s = true <-> s <> [].
Proof. destruct s; simpl; split; congruence. Qed.

Lemma nonspace_app s t : nonspace (s ++ t) = nonspace s ++ nonspace t.
Proof. apply List.filter_app. Qed.

Lemma nonspace_rev s : nonspace (rev s) = rev (nonspace s).
Proof.
  induction s as [|c s IH]; [reflexivity|].
  simpl. rewrite nonspace_app, IH. unfold nonspace at 2 3. simpl.
  destruct (isspace c); simpl; [apply app_nil_r | reflexivity].
Qed.

Lemma nonspace_lstrip s : nonspace (lstrip s) = nonspace s.
Proof.
  induction s as [|c s IH]; [reflexivity|].
  simpl. destruct (isspace c) eqn:E; simpl; rewrite ?E; simpl; auto.
Qed.

Lemma nonspace_strip s : nonspace (strip s) = nonspace s.
Proof.
  unfold strip, rstrip.
  rewrite nonspace_rev, nonspace_lstrip, nonspace_rev, rev_involutive.
  apply nonspace_lstrip.
Qed.

Lemma truthy_lstrip s : truthy (lstrip s) = truthy (nonspace s).
Proof.
  induction s as [|c s IH]; [reflexivity|].
  simpl. destruct (isspace c) eqn:E; simpl; rewrite ?E; simpl; auto.
Qed.

(** [s.strip()] is non-empty exactly when [s] has a non-whitespace
    character. *)
Lemma truthy_strip s : truthy (strip s) = truthy (nonspace s).
Proof.
  unfold strip, rstrip.
  rewrite truthy_rev, truthy_lstrip, nonspace_rev, truthy_rev.
  now rewrite nonspace_lstrip.
Qed.

Lemma length_lstrip s : length (lstrip s) <= length s.
Proof.
  induction s as [|c s IH]; simpl; [lia|].
  destruct (isspace c); simpl; lia.
Qed.

Lemma length_strip s : length (strip s) <= length s.
Proof.
  unfold strip, rstrip. rewrite length_rev.
  etransitivity; [apply length_lstrip|].
  rewrite length_rev. apply length_lstrip.
Qed.

(** *** [re.split] loses nothing *)

Lemma push_nonnil c parts : push c parts <> [].
Proof. destruct parts; simpl; congruence. Qed.

Lemma re_split_go_nonnil k s : re_split_go k s <> [].
Proof.
  destruct s as [|c s]; cbn [re_split_go]; [congruence|].
  set (k' := match k with O => _ | S _ => _ end).
  destruct (_ && _); [congruence|].
  destruct k' as [|[|j]]; solve [apply push_nonnil | congruence].
Qed.

Lemma concat_push c parts :
  parts <> [] -> concat (push c parts) = c :: concat parts.
Proof. destruct parts; simpl; congruence. Qed.

Lemma concat_re_split_go s : forall k, concat (re_split_go k s) = s.
Proof.
  induction s as [|c s IH]; intros k; [reflexivity|].
  cbn [re_split_go].
  set (k' := match k with O => _ | S _ => _ end).
  assert (Hrest : concat (match k' with
                          | 0 => push c (re_split_go 0 s)
                          | 1 => [c] :: re_split_go 0 s
                          | S (S j as j') => push c (re_split_go j' s)
                          end) = c :: s).
  { destruct k' as [|[|j]].
    - rewrite concat_push by apply re_split_go_nonnil. now rewrite IH.
    - simpl. now rewrite IH.
    - rewrite concat_push by apply re_split_go_nonnil. now rewrite IH. }
  destruct (_ && _); simpl; exact Hrest.
Qed.

(** The parts returned by [re.split], glued together, are the text. *)
Lemma concat_re_split s : concat (re_split s) = s.
Proof. apply concat_re_split_go. Qed.

(** *** [re_split] against the textbook reading of [re.split]

    Scanning from the left: where the pattern does not match, the character
    joins the current piece; where it matches [m] characters, the piece is
    closed, the match is a part of its own, and the scan resumes behind it. *)

Lemma hashes_space_length n s : hashes_space n s = true -> n < length s.
Proof.
  revert s. induction n as [|n IH]; intros [|c s]; simpl; try discriminate.
  - lia.
  - intros [_ H]%andb_true_iff. apply IH in H. lia.
Qed.

Lemma match_delim_bounds s m :
  match_delim s = Some m -> 2 <= m <= length s.
Proof.
  destruct s as [|c s]; cbn [match_delim]; [discriminate|].
  destruct (c =? nl)%N; [|discriminate].
  destruct (startswith [nl] s) eqn:Hnl.
  - intros [= <-]. destruct s; [discriminate|]. simpl. lia.
  - destruct (List.find _ _) as [n|] eqn:F; [|discriminate].
    intros [= <-]. apply find_some in F as [_ F].
    apply hashes_space_length in F. simpl. lia.
Qed.

Lemma re_split_go_delim s : forall k,
  1 <= k <= length s ->
  re_split_go k s = take k s :: re_split (drop k s).
Proof.
  induction s as [|c s IH]; intros k Hk; simpl in Hk; [lia|].
  destruct k as [|[|j]]; [lia| reflexivity |].
  cbn [re_split_go Nat.eqb andb].
  rewrite IH by lia. reflexivity.
Qed.

Lemma re_split_nomatch c s :
  match_delim (c :: s) = None -> re_split (c :: s) = push c (re_split s).
Proof.
  intros H. unfold re_split. cbn [re_split_go]. now rewrite H.
Qed.

Lemma re_split_match s m :
  match_delim s = Some m ->
  re_split s = [] :: take m s :: re_split (drop m s).
Proof.
  intros H. pose proof (match_delim_bounds _ _ H) as Hm.
  destruct s as [|c s]; [discriminate|].
  unfold re_split at 1. cbn [re_split_go]. rewrite H.
  destruct m as [|[|j]]; [lia | lia |].
  cbn [default from_option Datatypes.id Nat.eqb andb negb]. cbn [length] in Hm.
  rewrite (re_split_go_delim s (S j)) by lia. reflexivity.
Qed.

(** *** The loop of [_chunk_markdown] *)

Lemma flush_ok max_chunk_size text_parts st :
  loop_ok max_chunk_size text_parts st ->
  nonspace (current_chunk st) <> [] ->
  Forall (chunk_ok max_chunk_size text_parts) (flush st).
Proof.
  intros [Hc Hcur] Hns. unfold flush.
  apply Forall_app. split; [exact Hc|].
  constructor; [|constructor].
  split; cbn [content].
  - apply truthy_length. rewrite truthy_strip. now apply truthy_length.
  - pose proof (length_strip (current_chunk st)) as Hlen.
    destruct Hcur as [E | [_ [Hfit | Hin]]].
    + rewrite E in Hns. now contradiction Hns.
    + left. lia.
    + destruct (Z_le_gt_dec (Z.of_nat (length (current_chunk st))) max_chunk_size).
      * left. lia.
      * right. exists (current_chunk st). repeat split; [exact Hin | lia].
Qed.

Lemma chunk_step_ok max_chunk_size text_parts st part :
  In part text_parts ->
  loop_ok max_chunk_size text_parts st ->
  loop_ok max_chunk_size text_parts (chunk_step max_chunk_size st part).
Proof.
  intros Hin Hst. unfold chunk_step.
  destruct (truthy (strip part)) eqn:Hpart; cbn [negb]; [|exact Hst].
  rewrite truthy_strip in Hpart. apply truthy_length in Hpart.
  destruct (_ && _) eqn:Hflush.
  - apply andb_true_iff in Hflush as [_ Hcur%truthy_length].
    split; cbn [chunks current_chunk].
    + apply flush_ok; [exact Hst|].
      destruct Hst as [_ [E | [Hns _]]]; [contradiction | exact Hns].
    + right. split; [exact Hpart | right; exact Hin].
  - destruct Hst as [Hc Hcur]. split; cbn [chunks current_chunk]; [exact Hc|].
    right. split.
    + rewrite nonspace_app. intros [_ E]%app_eq_nil. contradiction.
    + apply andb_false_iff in Hflush as [Hfit | Hempty].
      * left. rewrite length_app. lia.
      * right. destruct (current_chunk st); [exact Hin | discriminate].
Qed.

Lemma chunk_loop_ok max_chunk_size text_parts : forall done st,
  (forall p, In p done -> In p text_parts) ->
  loop_ok max_chunk_size text_parts st ->
  loop_ok max_chunk_size text_parts
    (fold_left (chunk_step max_chunk_size) done st).
Proof.
  induction done as [|p done IH]; intros st Hsub Hst; [exact Hst|].
  cbn [fold_left]. apply IH.
  - intros q Hq. apply Hsub. now right.
  - apply chunk_step_ok; [apply Hsub; now left | exact Hst].
Qed.

Lemma chunk_parts_ok max_chunk_size text_parts :
  Forall (chunk_ok max_chunk_size text_parts)
         (chunk_parts max_chunk_size text_parts).
Proof.
  unfold chunk_parts.
  assert (H : loop_ok max_chunk_size text_parts
                (fold_left (chunk_step max_chunk_size) text_parts (mk_loop [] [] 0))).
  { apply chunk_loop_ok; [auto|]. split; [constructor | now left]. }
  destruct (truthy (strip _)) eqn:E; [|apply H].
  apply flush_ok; [exact H|].
  rewrite truthy_strip in E. now apply truthy_length.
Qed.

Lemma nonspace_flush st :
  nonspace (concat (map content (flush st))) = visible st.
Proof.
  unfold flush, visible.
  rewrite map_app, concat_app, nonspace_app. cbn [map concat content].
  now rewrite app_nil_r, nonspace_strip.
Qed.

Lemma chunk_step_visible max_chunk_size st part :
  visible (chunk_step max_chunk_size st part) = visible st ++ nonspace part.
Proof.
  unfold chunk_step.
  destruct (truthy (strip part)) eqn:Hpart; cbn [negb].
  - destruct (_ && _).
    + unfold visible at 1. cbn [chunks current_chunk].
      now rewrite nonspace_flush.
    + unfold visible. cbn [chunks current_chunk].
      now rewrite nonspace_app, app_assoc.
  - rewrite truthy_strip in Hpart.
    destruct (nonspace part); [now rewrite app_nil_r | discriminate].
Qed.

Lemma chunk_loop_visible max_chunk_size : forall text_parts st,
  visible (fold_left (chunk_step max_chunk_size) text_parts st)
  = visible st ++ nonspace (concat text_parts).
Proof.
  induction text_parts as [|p ps IH]; intros st; cbn [fold_left concat].
  - now rewrite app_nil_r.
  - now rewrite IH, chunk_step_visible, nonspace_app, app_assoc.
Qed.

Lemma chunk_parts_visible max_chunk_size text_parts :
  nonspace (concat (map content (chunk_parts max_chunk_size text_parts)))
  = nonspace (concat text_parts).
Proof.
  unfold chunk_parts.
  pose proof (chunk_loop_visible max_chunk_size text_parts (mk_loop [] [] 0)) as H.
  cbn in H.
  destruct (truthy (strip _)) eqn:E.
  - now rewrite nonspace_flush.
  - rewrite <- H. unfold visible.
    rewrite truthy_strip in E.
    destruct (nonspace (current_chunk _)); [now rewrite app_nil_r | discriminate].
Qed.

(** C5. Every chunk returned by [_chunk_markdown] has non-empty content, and
    its content is at most [max_chunk_size] characters long unless the chunk
    is a single part of the split that is longer than [max_chunk_size] on its
    own. *)
Theorem chunk_markdown_nonempty_bounded (markdown_text : text) (max_chunk_size : Z) :
  Forall (chunk_ok max_chunk_size (re_split markdown_text))
         (_chunk_markdown markdown_text max_chunk_size).
Proof.
  unfold _chunk_markdown.
  destruct (negb (truthy markdown_text)); [constructor|].
  apply chunk_parts_ok.
Qed.

Lemma kept_app l1 l2 : kept (l1 ++ l2) = kept l1 ++ kept l2.
Proof. apply List.filter_app. Qed.

Lemma grouped_current_nil done st gs cur :
  grouped done st gs cur -> nonspace (current_chunk st) = [] -> cur = [].
Proof.
  intros (_ & _ & _ & Hcur & Hns) Hempty.
  destruct cur as [|part cur]; [reflexivity|]. exfalso.
  apply Forall_cons in Hns as [Hpart _]. apply Hpart.
  rewrite <- Hcur in Hempty. cbn [concat] in Hempty.
  rewrite nonspace_app in Hempty. now apply app_eq_nil in Hempty.
Qed.

Lemma grouped_flush done st gs cur :
  grouped done st gs cur -> current_chunk st <> [] ->
  grouped done (mk_loop (flush st) [] (S (chunk_index st))) (gs ++ [cur]) [].
Proof.
  intros (Hparts & Hgs & Hchunks & Hcur & Hns) Hne.
  repeat split; cbn [chunks current_chunk].
  - now rewrite concat_app, app_nil_r; cbn [concat]; rewrite app_nil_r.
  - apply Forall_app. split; [exact Hgs|]. constructor; [|constructor].
    intros ->. cbn in Hcur. congruence.
  - unfold flush. rewrite !map_app, Hchunks. cbn [map content].
    now rewrite Hcur.
  - constructor.
Qed.

Lemma chunk_step_grouped max_chunk_size done st part gs cur :
  grouped done st gs cur ->
  exists gs' cur',
    grouped (done ++ [part]) (chunk_step max_chunk_size st part) gs' cur'.
Proof.
  intros H. pose proof H as (Hparts & Hgs & Hchunks & Hcur & Hns).
  unfold chunk_step. destruct (truthy (strip part)) eqn:Hpart; cbn [negb].
  - assert (Hk : kept (done ++ [part]) = kept done ++ [part]).
    { rewrite kept_app. unfold kept at 2. cbn [List.filter]. now rewrite Hpart. }
    assert (Hvis : nonspace part <> []).
    { apply truthy_length. now rewrite <- truthy_strip. }
    destruct (_ && _) eqn:Hflush.
    + apply andb_true_iff in Hflush as [_ Hne%truthy_length].
      exists (gs ++ [cur]), [part].
      destruct (grouped_flush done st gs cur H Hne) as (Hp' & Hg' & Hc' & _ & _).
      repeat split; cbn [chunks current_chunk] in *.
      * rewrite Hk, <- Hparts, concat_app. cbn [concat].
        now rewrite app_nil_r.
      * exact Hg'.
      * exact Hc'.
      * cbn [concat]. apply app_nil_r.
      * constructor; [exact Hvis | constructor].
    + exists gs, (cur ++ [part]).
      repeat split; cbn [chunks current_chunk].
      * now rewrite Hk, <- Hparts, app_assoc.
      * exact Hgs.
      * exact Hchunks.
      * rewrite concat_app, Hcur. cbn [concat]. now rewrite app_nil_r.
      * apply Forall_app. split; [exact Hns|]. constructor; [exact Hvis|constructor].
  - exists gs, cur. repeat split; try assumption.
    rewrite kept_app. unfold kept at 2. cbn [List.filter].
    rewrite Hpart. now rewrite app_nil_r.
Qed.

Lemma chunk_loop_grouped max_chunk_size : forall rest done st gs cur,
  grouped done st gs cur ->
  exists gs' cur',
    grouped (done ++ rest) (fold_left (chunk_step max_chunk_size) rest st) gs' cur'.
Proof.
  induction rest as [|part rest IH]; intros done st gs cur H; cbn [fold_left].
  - rewrite app_nil_r. eauto.
  - destruct (chunk_step_grouped max_chunk_size done st part gs cur H)
      as (gs1 & cur1 & H1).
    destruct (IH _ _ _ _ H1) as (gs2 & cur2 & H2).
    rewrite <- app_assoc in H2. eauto.
Qed.

(** The contents of the chunks are groups of consecutive kept parts, each
    glued and stripped. *)
Lemma chunk_parts_grouped max_chunk_size text_parts :
  exists groups : list (list text),
    concat groups = kept text_parts /\
    Forall (fun g => g <> []) groups /\
    map content (chunk_parts max_chunk_size text_parts)
    = map (fun g => strip (concat g)) groups.
Proof.
  unfold chunk_parts.
  destruct (chunk_loop_grouped max_chunk_size text_parts [] (mk_loop [] [] 0) [] [])
    as (gs & cur & H).
  { repeat split; constructor. }
  cbn [app] in H.
  set (st := fold_left _ _ _) in *.
  destruct (truthy (strip (current_chunk st))) eqn:E.
  - assert (Hne : current_chunk st <> []).
    { intros Hnil. rewrite Hnil in E. discriminate. }
    destruct (grouped_flush _ _ _ _ H Hne) as (Hp & Hg & Hc & _ & _).
    exists (gs ++ [cur]). cbn [chunks] in Hc. rewrite app_nil_r in Hp. auto.
  - rewrite truthy_strip in E.
    assert (Hnil : cur = []).
    { eapply grouped_current_nil; [exact H|].
      destruct (nonspace (current_chunk st)); [reflexivity | discriminate]. }
    destruct H as (Hp & Hg & Hc & _ & _). subst cur.
    rewrite app_nil_r in Hp. exists gs. auto.
Qed.

(** What does hold of the round trip, for every text and every size. The
    parts [re.split] returns are the text; the chunks are groups of
    consecutive parts, whitespace-only parts left out, each group glued and
    stripped at its two ends; so the chunks and the text have the same
    non-whitespace characters in the same order. The whitespace-only parts
    are the paragraph breaks, and they are left out inside a chunk too. *)
Theorem chunk_markdown_roundtrip (markdown_text : text) (max_chunk_size : Z) :
  concat (re_split markdown_text) = markdown_text /\
  (exists groups : list (list text),
     concat groups = kept (re_split markdown_text) /\
     Forall (fun g => g <> []) groups /\
     map content (_chunk_markdown markdown_text max_chunk_size)
     = map (fun g => strip (concat g)) groups) /\
  nonspace (concat (map content (_chunk_markdown markdown_text max_chunk_size)))
  = nonspace markdown_text.
Proof.
  split; [apply concat_re_split|].
  unfold _chunk_markdown.
  destruct markdown_text as [|c s] eqn:E.
  - split; [|reflexivity]. exists []. repeat split; constructor.
  - cbn [truthy negb]. split; [apply chunk_parts_grouped|].
    rewrite chunk_parts_visible. now rewrite concat_re_split.
Qed.

(** Where the chunks are a part each, the round trip is as the
    specification words it: the paragraph break is the gap between them. *)
Example boundary_roundtrip_small :
  let markdown_text := py "ab" ++ [nl; nl] ++ py "cd" in
  boundary_roundtrip markdown_text
    (map content (_chunk_markdown markdown_text 3)).
Proof.
  exists [[]; [nl; nl]; []]. repeat split.
  repeat constructor.
Qed.

(** C6, as the code has it. Two paragraphs that fit in one chunk are glued
    without the paragraph break between them: ['ab\n\ncd'] gives the single
    chunk ['abcd']. The whitespace that is lost is inside the chunk, not at
    a chunk boundary, so the round trip the specification words fails
    there. The pattern captures its delimiters so that [re.split] keeps
    them, and the loop is commented as keeping the delimiter with the
    content; it is the test for empty parts, [not text_parts[i].strip()],
    that drops every paragraph break. *)
Theorem paragraph_break_lost_inside_chunk :
  let markdown_text := py "ab" ++ [nl; nl] ++ py "cd" in
  _chunk_markdown markdown_text 1000 = [mk_chunk 0 (py "abcd") 1] /\
  ~ boundary_roundtrip markdown_text
      (map content (_chunk_markdown markdown_text 1000)).
Proof.
  cbv zeta. split; [reflexivity|].
  change (map content _) with [py "abcd"].
  intros (gaps & Hlen & Hws & Heq).
  destruct gaps as [|first [|last [|]]]; try discriminate Hlen.
  cbn [interleave] in Heq.
  apply Forall_cons_1 in Hws as [Hfirst _].
  destruct first as [|c first].
  - vm_compute in Heq. discriminate Heq.
  - vm_compute in Heq. injection Heq as -> _.
    vm_compute in Hfirst. discriminate Hfirst.
Qed.

End ChunkerProps.

(** ** Properties of the embedding normalisation *)

Module EmbeddingProps.
Import PyStr Embedding Inputs.

Lemma fix_dimension_short {float : Type} (zero : float) (v : list float) :
  0 < length v < expected_dim ->
  fix_dimension zero v = v ++ repeat zero (expected_dim - length v).
Proof.
  intros [Hpos Hlt]. unfold fix_dimension.
  destruct v as [|x v]; [simpl in Hpos; lia|]. cbn [truthy].
  destruct (Nat.eqb_spec (length (x :: v)) expected_dim) as [E|_]; [lia|].
  cbn [negb].
  destruct (Nat.ltb_spec (length (x :: v)) expected_dim); [reflexivity | lia].
Qed.

Lemma fix_dimension_length {float : Type} (zero : float) (v : list float) :
  v <> [] -> length (fix_dimension zero v) = expected_dim.
Proof.
  intros Hv. unfold fix_dimension.
  destruct v as [|x v]; [congruence|]. cbn [truthy].
  destruct (Nat.eqb_spec (length (x :: v)) expected_dim) as [E|NE]; [exact E|].
  cbn [negb].
  destruct (Nat.ltb_spec (length (x :: v)) expected_dim).
  - rewrite length_app, repeat_length. lia.
  - rewrite length_take. lia.
Qed.

(** C7, as the code has it. When the embedder answers with a vector of
    dimension 500, the embedding [_get_embedding] returns for the page has
    length exactly 1536, its first 500 values are the vector, and the
    remaining 1036 positions hold [0.0]. *)
Theorem page_embedding_zero_padded {float : Type} (zero : float)
    (post : text -> option (response float)) (prompt : text) (v : list float) :
  length v = 500 ->
  post (truncate_prompt prompt) = Some (Response 200 (Some v)) ->
  exists e, _get_embedding zero post prompt = Some e /\
            length e = 1536 /\
            take 500 e = v /\
            drop 500 e = repeat zero 1036.
Proof.
  intros Hlen Hpost. exists (fix_dimension zero v).
  unfold _get_embedding. rewrite Hpost. cbn [status_code embedding_field].
  split; [reflexivity|].
  rewrite fix_dimension_short by (unfold expected_dim; lia).
  rewrite Hlen. change (expected_dim - 500) with 1036.
  split; [|split].
  - rewrite length_app, repeat_length. lia.
  - rewrite <- Hlen. apply take_app_length.
  - rewrite <- Hlen. apply drop_app_length.
Qed.

(** The adapter's copy of the function does repeat the vector. *)
Lemma adapter_embedding_cyclic {float : Type}
    (post : text -> option (response float)) (prompt : text) (v : list float) :
  length v = 500 ->
  post (truncate_prompt prompt) = Some (Response 200 (Some v)) ->
  generate_embedding 1536 post prompt = Some (v ++ v ++ v ++ take 36 v).
Proof.
  intros Hlen Hpost. unfold generate_embedding.
  rewrite Hpost. cbn [status_code embedding_field].
  destruct v as [|x v]; [discriminate|]. cbn [truthy].
  rewrite Hlen. change (Z.of_nat 500 <? 1536)%Z with true. cbv iota zeta.
  change (1536 / Z.of_nat 500 + 1)%Z with 4%Z.
  unfold slice_to, list_times. change (1536 <? 0)%Z with false. cbv iota.
  change (Z.to_nat 4) with 4. change (Z.to_nat 1536) with 1536.
  cbn [repeat concat].
  rewrite app_nil_r.
  rewrite !take_app, !Hlen.
  change (1536 - 500) with 1036. change (1036 - 500) with 536.
  change (536 - 500) with 36.
  rewrite (take_ge (x :: v) 1536), (take_ge (x :: v) 1036),
          (take_ge (x :: v) 536) by lia.
  reflexivity.
Qed.

Lemma page_embedding_zero_padded_witness :
  exists e, _get_embedding 0%Q post_ones (py "title") = Some e /\
            length e = 1536 /\ take 500 e = ones /\
            drop 500 e = repeat 0%Q 1036.
Proof.
  apply (page_embedding_zero_padded 0%Q post_ones (py "title") ones);
    reflexivity.
Defined.

(** Position 500 of the page embedding holds [0.0], where cyclic repetition
    would put the value of position 0. *)
Lemma page_embedding_not_cyclic : ~ padded_cyclically 0%Q ones.
Proof.
  intros (_ & _ & H).
  specialize (H 500). 
  assert (Hi : length ones <= 500 < length (fix_dimension 0%Q ones))
    by (vm_compute; lia).
  specialize (H Hi). vm_compute in H. discriminate H.
Qed.

End EmbeddingProps.

(** ** Properties of the rate limiter *)

Module RateLimiterProps.
Import Py RateLimiter Inputs.

Lemma Qlt_bool_iff (a b : Q) : Qlt_bool a b = true <-> (a < b)%Q.
Proof.
  unfold Qlt_bool. rewrite negb_true_iff.
  split.
  - intros H. apply Qnot_le_lt. intros Hle.
    apply Qle_bool_iff in Hle. congruence.
  - intros H. destruct (Qle_bool b a) eqn:E; [|reflexivity].
    apply Qle_bool_iff in E. exfalso. exact (Qlt_not_le _ _ H E).
Qed.

(** C2, as the code has it. Whenever the window is full after eviction and
    its oldest entry has not expired, the call does not block: its first
    [time.sleep] raises [AttributeError], nothing is slept, and the request
    is not recorded. *)
Theorem full_window_raises (max_concurrent_requests : Z) (current_time : Q)
    (st : limiter) (first : Q) (rest : list Q) :
  evict current_time (request_times st) = first :: rest ->
  (max_concurrent_requests <= Z.of_nat (length (first :: rest)))%Z ->
  (current_time < first + 1.0)%Q ->
  wait_for_rate_limit max_concurrent_requests current_time st
  = (Raised AttributeError, mk_limiter (first :: rest) (slept st)).
Proof.
  intros Hev Hfull Hfresh.
  unfold wait_for_rate_limit, wait_for_rate_limit_with, time_in_crawl_many.
  unfold bind at 1. cbn [modify]. unfold bind at 1. cbn [gets request_times].
  rewrite Hev.
  assert (Hge : (Z.of_nat (length (first :: rest)) >=? max_concurrent_requests)%Z = true)
    by (apply Z.geb_le; lia).
  unfold bind at 1. rewrite Hge. cbn [when].
  assert (Hs : Qlt_bool 0 (first + 1.0 - current_time) = true).
  { apply Qlt_bool_iff. unfold Qminus.
    apply (proj1 (Qlt_minus_iff _ _)). exact Hfresh. }
  rewrite Hs. reflexivity.
Qed.

(** The minimum spacing is checked against the previous request even when
    the window has room; that [time.sleep] raises too, after the request has
    been recorded. *)
Example spacing_sleep_raises :
  wait_for_rate_limit 5 100.0625 one_request
  = (Raised AttributeError, mk_limiter [100%Q; 100.0625%Q] []).
Proof. reflexivity. Qed.

(** With room in the window and enough spacing, no [sleep] is attempted and
    the call returns. *)
Example no_sleep_needed :
  wait_for_rate_limit 5 100.5 one_request
  = (Returned tt, mk_limiter [100%Q; 100.5%Q] []).
Proof. reflexivity. Qed.

Example expired_entry_evicted :
  wait_for_rate_limit 1 102 one_request
  = (Returned tt, mk_limiter [102%Q] []).
Proof. reflexivity. Qed.

(** Had [time] still been the module, the same call would have slept for the
    half second the oldest entry needs to expire, recorded the request, and
    returned. *)
Example module_binding_sleeps :
  wait_for_rate_limit_with TimeModule 1 100.5 one_request
  = (Returned tt, mk_limiter [100%Q; 100.5%Q] [(100 + 1.0 - 100.5)%Q]).
Proof. reflexivity. Qed.

Lemma full_window_raises_witness :
  wait_for_rate_limit 1 100.5 one_request = (Raised AttributeError, one_request).
Proof.
  apply (full_window_raises 1 100.5 one_request 100%Q []);
    [reflexivity | simpl; lia | reflexivity].
Defined.

End RateLimiterProps.

(** ** Properties of the crawl engine *)

Module EngineProps.
Import PyStr Py PyProps Engine Inputs.

(** *** Later states *)

#[global] Instance extends_preorder : PreOrder extends.
Proof.
  split.
  - intros s. split; reflexivity.
  - intros s1 s2 s3 [Hv1 Ht1] [Hv2 Ht2].
    split; etransitivity; eassumption.
Qed.

#[global] Instance safe_step_preorder : PreOrder safe_step.
Proof.
  split.
  - intros s. split; [reflexivity | auto].
  - intros s1 s2 s3 [He1 Ho1] [He2 Ho2].
    split; [etransitivity; eassumption | auto].
Qed.

Lemma processed_app tr1 tr2 :
  processed (tr1 ++ tr2) = processed tr1 ++ processed tr2.
Proof. unfold processed. apply flat_map_app. Qed.

(** A state change that leaves the visited set alone and appends events
    other than [ProcessPage] is safe. *)
Lemma quiet_step (s s' : state) (evs : list event) :
  visited_urls s' = visited_urls s ->
  trace s' = trace s ++ evs ->
  processed evs = [] ->
  safe_step s s'.
Proof.
  intros Hv Ht Hp. split.
  - split; [rewrite Hv; reflexivity | rewrite Ht; now apply prefix_app_r].
  - unfold once. rewrite Hv, Ht, processed_app, Hp, app_nil_r. auto.
Qed.

Lemma log_safe (e : event) (s : state) :
  processed [e] = [] -> safe_step s (log e s).
Proof. intros H. now apply (quiet_step s (log e s) [e]). Qed.

Lemma print_steady m : steady safe_step (print m).
Proof. apply steady_modify. intros s. now apply log_safe. Qed.

Lemma callback_steady cb m : steady safe_step (callback cb m).
Proof.
  apply steady_when; [exact _|].
  apply steady_modify. intros s. now apply log_safe.
Qed.

Lemma store_result_safe url p s : safe_step s (store_result url p s).
Proof. apply (quiet_step _ _ []); [reflexivity | now rewrite app_nil_r | reflexivity]. Qed.

(** *** [_process_page] *)

Lemma process_page_state w url s :
  (_process_page w url s).2 = after_process w url s /\
  exists page, (_process_page w url s).1 = Returned page.
Proof.
  unfold _process_page, after_process, bind, modify, gets, when, ret.
  cbn [log allowed_domains].
  destruct (urlparse_raises w url); cbn [orb fst snd log allowed_domains];
    [eauto|].
  destruct (allowed_domains s) as [allowed|]; cbn [not_none negb];
    cbn [set_allowed log allowed_domains default];
    destruct (check_allowed _ _ _) as [[|]|]; cbn [fst snd];
    try destruct (_extract_content w url); cbn [fst snd];
    try destruct (links_raise _ _ _ _); cbn [fst snd]; eauto.
Qed.

Lemma after_process_visited w url s :
  visited_urls (after_process w url s) = visited_urls s.
Proof.
  unfold after_process. cbn.
  now destruct (urlparse_raises w url), (allowed_domains s).
Qed.

Lemma after_process_trace w url s :
  trace (after_process w url s) = trace s ++ [ProcessPage url].
Proof.
  unfold after_process. cbn.
  now destruct (urlparse_raises w url), (allowed_domains s).
Qed.

Lemma after_process_results w url s :
  results (after_process w url s) = results s.
Proof.
  unfold after_process. cbn.
  now destruct (urlparse_raises w url), (allowed_domains s).
Qed.

(** *** [visit]: marking and processing *)

Lemma visit_eq w max_depth cb url s :
  visit w max_depth cb url s = _process_page w url (announced max_depth cb url s).
Proof. unfold visit, announced. destruct cb; reflexivity. Qed.

Lemma visit_state w max_depth cb url s :
  (visit w max_depth cb url s).2
  = after_process w url (announced max_depth cb url s).
Proof. rewrite visit_eq. apply process_page_state. Qed.

Lemma announced_visited max_depth cb url s :
  visited_urls (announced max_depth cb url s) = {[url]} ∪ visited_urls s.
Proof. unfold announced. now destruct cb. Qed.

Lemma announced_trace max_depth cb url s :
  trace (announced max_depth cb url s)
  = trace s ++ announcement max_depth cb url ++ [VisitedAdd url].
Proof.
  unfold announced, announcement. destruct cb; cbn; now rewrite <- !app_assoc.
Qed.

Lemma visit_trace w max_depth cb url s :
  trace (visit w max_depth cb url s).2
  = trace s ++ announcement max_depth cb url
    ++ [VisitedAdd url; ProcessPage url].
Proof.
  rewrite visit_state, after_process_trace, announced_trace.
  now rewrite <- !app_assoc.
Qed.

Lemma processed_announcement max_depth cb url :
  processed (announcement max_depth cb url) = [].
Proof. now destruct cb. Qed.

(** Visiting a URL that is not yet marked keeps [once]. *)
Lemma visit_steady_at w max_depth cb url s :
  url ∉ visited_urls s ->
  steady_at safe_step (visit w max_depth cb url) s.
Proof.
  intros Hnew. split; [|rewrite visit_eq; apply process_page_state].
  pose proof (visit_trace w max_depth cb url s) as Ht.
  assert (Hv : visited_urls (visit w max_depth cb url s).2
               = {[url]} ∪ visited_urls s)
    by (rewrite visit_state, after_process_visited; apply announced_visited).
  split.
  - split; [rewrite Hv; apply union_subseteq_r | rewrite Ht; now apply prefix_app_r].
  - intros [Hnd Hsub]. unfold once.
    rewrite Hv, Ht, !processed_app, processed_announcement.
    cbn [app processed flat_map].
    split.
    + apply NoDup_app. split; [exact Hnd|].
      split; [|apply NoDup_singleton].
      intros u Hu ->%list_elem_of_singleton. apply Hnew. now apply Hsub.
    + intros u [Hu | Hu]%elem_of_app; apply elem_of_union.
      * right. now apply Hsub.
      * left. apply list_elem_of_singleton in Hu. now apply elem_of_singleton.
Qed.

(** *** [verify_links] only moves forward, keeps [once], and returns *)

Lemma report_page_steady cb url p : steady safe_step (report_page cb url p).
Proof.
  unfold report_page.
  apply steady_when; [exact _|].
  apply steady_bind; [exact _ | | intros _].
  - apply steady_when; [exact _|].
    apply steady_bind; [exact _ | apply callback_steady |].
    intros _. apply callback_steady.
  - apply steady_when; [exact _|]. apply callback_steady.
Qed.

Lemma follow_links_steady (recurse : text -> M state py_ret) cb page_links :
  (forall link_url, steady safe_step (recurse link_url)) ->
  steady safe_step (follow_links recurse cb page_links).
Proof.
  intros Hrec. unfold follow_links.
  apply steady_for_enumerate; [exact _|]. intros i link_url.
  apply steady_bind; [exact _ | apply steady_gets; exact _ |].
  intros visited. apply steady_when; [exact _|].
  apply steady_try_except; [exact _ | |].
  - apply steady_grows.
    apply steady_bind; [exact _ | apply callback_steady | intros _].
    apply steady_bind; [exact _ | apply Hrec | intros _].
    apply steady_ret; exact _.
  - intros e.
    apply steady_bind; [exact _ | apply print_steady | intros _].
    apply callback_steady.
Qed.

Lemma verify_links_at_steady w depth : forall cb url,
  steady safe_step (verify_links_at w depth cb url).
Proof.
  induction depth as [|depth IH]; intros cb url s; cbn [verify_links_at];
    (apply steady_at_bind; [exact _ | apply steady_gets; exact _ |]);
    intros visited [= <-]; cbn [gets snd];
    (destruct (bool_decide_reflect (url ∈ visited_urls s)) as [Hin|Hnew];
      [apply steady_ret; exact _|]);
    (apply steady_at_bind; [exact _ | now apply visit_steady_at |]);
    intros [p|] _; try (apply steady_ret; exact _);
    (apply steady_bind; [exact _ | | intros _]);
    try (apply steady_modify; intros s'; apply store_result_safe);
    (apply steady_bind; [exact _ | apply report_page_steady | intros _]);
    (apply steady_bind; [exact _ | | intros _; apply steady_ret; exact _]).
  - apply steady_ret; exact _.
  - apply follow_links_steady. intros link_url. apply IH.
Qed.

Lemma verify_links_steady w url max_depth cb :
  steady safe_step (verify_links w url max_depth cb).
Proof.
  unfold verify_links. destruct (max_depth <? 0)%Z.
  - apply steady_ret; exact _.
  - apply verify_links_at_steady.
Qed.

(** [verify_links] never raises. *)
Lemma verify_links_returns w url max_depth cb s :
  exists r, (verify_links w url max_depth cb s).1 = Returned r.
Proof. apply verify_links_steady. Qed.

Lemma verify_links_extends w url max_depth cb s :
  extends s (verify_links w url max_depth cb s).2.
Proof. apply verify_links_steady. Qed.

(** Calls of [verify_links] alone never process a URL twice. *)
Lemma verify_links_once w url max_depth cb s :
  once s -> once (verify_links w url max_depth cb s).2.
Proof. apply verify_links_steady. Qed.

Lemma fresh_once allowed : once (fresh allowed).
Proof. split; [constructor | intros u Hu; inversion Hu]. Qed.

Lemma once_times_processed url s : once s -> times_processed url s <= 1.
Proof.
  intros [Hnd _]. unfold times_processed.
  induction Hnd as [|u l Hu Hnd IH]; cbn [List.filter length]; [lia|].
  destruct (bool_decide_reflect (u = url)) as [->|_]; [|exact IH].
  cbn [length].
  assert (List.filter (fun u => bool_decide (u = url)) l = []) as ->; [|simpl; lia].
  clear IH Hnd. induction l as [|v l IH]; [reflexivity|].
  cbn [List.filter].
  destruct (bool_decide_reflect (v = url)) as [->|_].
  - exfalso. apply Hu. now left.
  - apply IH. intros H. apply Hu. now right.
Qed.

(** *** [crawl_many] only moves forward *)

Lemma safe_step_extends s s' : safe_step s s' -> extends s s'.
Proof. now intros [H _]. Qed.

Lemma same_view_extends s s' :
  visited_urls s' = visited_urls s -> trace s' = trace s -> extends s s'.
Proof. intros Hv Ht. split; [now rewrite Hv | now rewrite Ht]. Qed.

Lemma print_forward m : steady extends (print m).
Proof. eapply steady_weaken; [apply safe_step_extends | apply print_steady]. Qed.

Lemma callback_forward cb m : steady extends (callback cb m).
Proof. eapply steady_weaken; [apply safe_step_extends | apply callback_steady]. Qed.

Lemma store_result_forward url p : steady extends (modify (store_result url p)).
Proof.
  apply steady_modify. intros s. apply safe_step_extends, store_result_safe.
Qed.

Lemma verify_links_forward w url max_depth cb :
  steady extends (verify_links w url max_depth cb).
Proof.
  eapply steady_weaken; [apply safe_step_extends | apply verify_links_steady].
Qed.

Lemma process_page_forward w url : steady extends (_process_page w url).
Proof.
  intros s. destruct (process_page_state w url s) as [Hs Hr].
  split; [|exact Hr]. rewrite Hs. split.
  - now rewrite after_process_visited.
  - rewrite after_process_trace. now apply prefix_app_r.
Qed.

Lemma wait_for_rate_limit_forward w max_concurrent_requests :
  grows extends (wait_for_rate_limit w max_concurrent_requests).
Proof.
  intros s. unfold grows_at, wait_for_rate_limit, bind, gets, modify, on_limiter.
  cbn [fst snd].
  destruct (RateLimiter.wait_for_rate_limit _ _ _) as [[[]|e] l];
    now apply same_view_extends.
Qed.

Lemma after_seed_forward w max_depth max_concurrent_requests cb url page :
  steady extends (after_seed w max_depth max_concurrent_requests cb url page).
Proof.
  unfold after_seed. destruct page as [p|]; [|apply steady_ret; exact _].
  apply steady_bind; [exact _ | apply store_result_forward | intros _].
  apply steady_bind; [exact _ | | intros _; apply steady_ret; exact _].
  apply steady_when; [exact _|].
  apply steady_for_enumerate; [exact _|]. intros i link_url.
  apply steady_bind; [exact _ | apply steady_gets; exact _ | intros visited].
  apply steady_when; [exact _|].
  apply steady_try_except; [exact _ | |].
  - apply grows_bind; [exact _ | apply wait_for_rate_limit_forward | intros _].
    apply steady_grows.
    apply steady_bind; [exact _ | apply callback_forward | intros _].
    apply steady_bind; [exact _ | apply verify_links_forward | intros _].
    apply steady_ret; exact _.
  - intros e.
    apply steady_bind; [exact _ | apply print_forward | intros _].
    apply callback_forward.
Qed.

Lemma crawl_single_url_eq w max_depth max_concurrent_requests cb url :
  crawl_single_url w max_depth max_concurrent_requests cb url
  = try_except
      (bind (wait_for_rate_limit w max_concurrent_requests) (fun _ =>
       bind (callback cb (MsgProcessingSeed url)) (fun _ =>
       bind (_process_page w url)
            (after_seed w max_depth max_concurrent_requests cb url))))
      (fun e =>
         bind (print (MsgErrorCrawling url e)) (fun _ =>
         bind (callback cb (MsgErrorCrawling url e)) (fun _ => ret None))).
Proof. reflexivity. Qed.

Lemma crawl_single_url_forward w max_depth max_concurrent_requests cb url :
  steady extends (crawl_single_url w max_depth max_concurrent_requests cb url).
Proof.
  rewrite crawl_single_url_eq.
  apply steady_try_except; [exact _ | |].
  - apply grows_bind; [exact _ | apply wait_for_rate_limit_forward | intros _].
    apply steady_grows.
    apply steady_bind; [exact _ | apply callback_forward | intros _].
    apply steady_bind; [exact _ | apply process_page_forward |].
    apply after_seed_forward.
  - intros e.
    apply steady_bind; [exact _ | apply print_forward | intros _].
    apply steady_bind; [exact _ | apply callback_forward | intros _].
    apply steady_ret; exact _.
Qed.

Lemma crawl_many_forward w urls max_depth max_concurrent_requests cb :
  grows extends (crawl_many w urls max_depth max_concurrent_requests cb).
Proof.
  unfold crawl_many. destruct (negb (truthy urls)).
  - apply steady_grows.
    apply steady_bind; [exact _ | apply print_forward | intros _].
    apply steady_bind; [exact _ | apply callback_forward | intros _].
    apply steady_ret; exact _.
  - apply grows_bind; [exact _ | apply steady_grows, print_forward | intros _].
    do 3 (apply grows_bind; [exact _ | apply steady_grows, callback_forward | intros _]).
    apply grows_bind; [exact _ | | intros _].
    { apply steady_grows, steady_modify. intros s. now apply same_view_extends. }
    apply grows_bind; [exact _ | | intros _].
    { apply steady_grows, steady_modify. intros s. now apply same_view_extends. }
    apply grows_bind; [exact _ | | intros _].
    { destruct (_ <=? _)%Z; [apply grows_raise | apply steady_grows, steady_ret];
        exact _. }
    apply steady_grows.
    apply steady_bind; [exact _ | | intros _].
    { apply steady_for_enumerate; [exact _|]. intros i url.
      apply steady_try_except; [exact _ | |].
      - apply steady_grows.
        apply steady_bind; [exact _ | apply crawl_single_url_forward |].
        intros result. destruct (not_none result);
          (apply steady_bind; [exact _ | apply print_forward | intros _]);
          apply callback_forward.
      - intros e.
        apply steady_bind; [exact _ | apply print_forward | intros _].
        apply callback_forward. }
    apply steady_bind; [exact _ | apply steady_gets; exact _ | intros pages].
    apply steady_bind; [exact _ | apply print_forward | intros _].
    apply steady_bind; [exact _ | apply callback_forward | intros _].
    apply steady_gets; exact _.
Qed.

Lemma perform_extends w c s : extends s (perform w c s).
Proof.
  destruct c; cbn [perform].
  - apply verify_links_forward.
  - apply crawl_many_forward.
Qed.

(** Whatever is called on the engine, nothing leaves the visited set. *)
Lemma run_extends w calls : forall s, extends s (run w calls s).
Proof.
  induction calls as [|c calls IH]; intros s; cbn [run fold_left].
  - reflexivity.
  - etransitivity; [apply perform_extends | apply IH].
Qed.

(** *** The early return *)

Lemma verify_links_at_visited w depth cb url s :
  url ∈ visited_urls s ->
  verify_links_at w depth cb url s = (Returned RetEmptyDict, s).
Proof.
  intros Hin. destruct depth; cbn [verify_links_at]; unfold bind, gets;
    now rewrite (bool_decide_eq_true_2 _ Hin).
Qed.

(** C4. A call of [verify_links] with a negative [max_depth], or on a URL
    that is already in the visited set, returns the empty dictionary and
    leaves everything as it was: the visited set, the results, the rest of
    the engine, and the trace, to which no message, callback or page
    processing is added. *)
Theorem verify_links_skips (w : World) (url : text) (max_depth : Z) (cb : bool)
    (st : state) :
  (max_depth < 0)%Z \/ url ∈ visited_urls st ->
  verify_links w url max_depth cb st = (Returned RetEmptyDict, st).
Proof.
  intros H. unfold verify_links.
  destruct (Z.ltb_spec max_depth 0) as [Hneg|Hpos]; [reflexivity|].
  destruct H as [H|H]; [lia|].
  now apply verify_links_at_visited.
Qed.

Lemma home_visited : home ∈ visited_urls engine1.
Proof. apply (bool_decide_unpack _). vm_compute. exact I. Qed.

Lemma verify_links_skips_witness :
  verify_links site home (-1) true engine0 = (Returned RetEmptyDict, engine0) /\
  verify_links site home 2 true engine1 = (Returned RetEmptyDict, engine1).
Proof.
  split.
  - apply (verify_links_skips site home (-1) true engine0). left. lia.
  - apply (verify_links_skips site home 2 true engine1). right.
    apply (bool_decide_unpack _). vm_compute. exact I.
Defined.

(** *** What [verify_links] returns *)

Lemma verify_links_at_unvisited w depth cb url s :
  url ∉ visited_urls s ->
  verify_links_at w depth cb url s
  = bind (visit w (Z.of_nat depth) cb url)
         (fun page => match page with
                      | Some p => after_visit w depth cb url p
                      | None => ret RetNone
                      end) s.
Proof.
  intros Hnew. destruct depth; cbn [verify_links_at]; unfold bind at 1;
    cbn [gets]; now rewrite (bool_decide_eq_false_2 _ Hnew).
Qed.

Lemma after_visit_steady w depth cb url p :
  steady safe_step (after_visit w depth cb url p).
Proof.
  unfold after_visit.
  apply steady_bind; [exact _ | | intros _].
  { apply steady_modify. intros s. apply store_result_safe. }
  apply steady_bind; [exact _ | apply report_page_steady | intros _].
  apply steady_bind; [exact _ | | intros _; apply steady_ret; exact _].
  destruct depth as [|depth'].
  - apply steady_ret; exact _.
  - apply follow_links_steady. intros l. apply verify_links_at_steady.
Qed.

(** On a URL it does process, [verify_links] returns what [_process_page]
    returned for that URL: one page record or [None], whatever else the call
    stored in [results]. *)
Lemma verify_links_returns_page w url max_depth cb s :
  (0 <= max_depth)%Z ->
  url ∉ visited_urls s ->
  (verify_links w url max_depth cb s).1
  = Returned (match (visit w max_depth cb url s).1 with
              | Returned (Some p) => RetPageInfo p
              | _ => RetNone
              end).
Proof.
  intros Hpos Hnew. unfold verify_links.
  destruct (Z.ltb_spec max_depth 0) as [Hneg|_]; [lia|].
  rewrite <- (Z2Nat.id max_depth Hpos) at 2.
  generalize (Z.to_nat max_depth) as depth. intros depth.
  assert (Hrest : forall p s',
    ((modify (store_result url p) ;;
      report_page cb url p ;;
      match depth with
      | S depth' => follow_links (verify_links_at w depth' cb) cb (links p)
      | O => ret tt
      end ;;
      ret (RetPageInfo p))%py s').1 = Returned (RetPageInfo p)).
  { intros p s'.
    change ((modify (store_result url p) ;;
             report_page cb url p ;;
             match depth with
             | S depth' => follow_links (verify_links_at w depth' cb) cb (links p)
             | O => ret tt
             end ;;
             ret (RetPageInfo p))%py)
      with (bind (modify (store_result url p))
                 (fun _ => bind (report_page cb url p)
                   (fun _ => bind (match depth with
                      | S depth' => follow_links (verify_links_at w depth' cb) cb (links p)
                      | O => ret tt
                      end) (fun _ => ret (RetPageInfo p))))).
    unfold bind at 1. cbn [modify].
    unfold bind at 1.
    destruct (report_page_steady cb url p (store_result url p s')) as [_ [[] Hr]].
    destruct (report_page cb url p (store_result url p s')) as [o s''].
    simpl in Hr. subst o.
    apply (steady_at_then_ret safe_step).
    destruct depth as [|depth'].
    - apply steady_ret; exact _.
    - apply follow_links_steady. intros l. apply verify_links_at_steady. }
  destruct (process_page_state w url (announced (Z.of_nat depth) cb url s))
    as [_ [page Hpage]].
  rewrite <- visit_eq in Hpage.
  destruct depth as [|depth']; cbn [verify_links_at]; unfold bind at 1;
    cbn [gets]; rewrite (bool_decide_eq_false_2 _ Hnew);
    unfold bind at 1;
    destruct (visit w _ cb url s) as [o s'];
    simpl in Hpage; subst o; cbn [fst];
    (destruct page as [p|]; [apply (Hrest p s') | reflexivity]).
Qed.

(** C3, on the two-page site. Called on the home page with depth 1,
    [verify_links] processes both pages and stores both in [results], but
    the value it returns is the record of the home page alone, not the map
    from URL to record. *)
Theorem verify_links_returns_seed_record :
  let r := verify_links site home 1 false engine0 in
  r.1 = Returned (RetPageInfo home_info) /\
  results r.2 = {[home := home_info; page_a := a_info]}.
Proof. split; vm_compute; reflexivity. Qed.

(** When [_process_page] gives nothing, [verify_links] returns [None], not
    an empty map. *)
Example verify_links_returns_none :
  (verify_links site (py "https://site.test/missing") 1 false engine0).1
  = Returned RetNone.
Proof. vm_compute. reflexivity. Qed.

(** *** Marked before processing, and for good *)

(** The state [visit] leaves is an earlier state of the one the whole call
    leaves. *)
Lemma verify_links_after_visit w url max_depth cb s :
  (0 <= max_depth)%Z ->
  url ∉ visited_urls s ->
  extends (visit w max_depth cb url s).2 (verify_links w url max_depth cb s).2.
Proof.
  intros Hpos Hnew. unfold verify_links.
  destruct (Z.ltb_spec max_depth 0) as [Hneg|_]; [lia|].
  rewrite verify_links_at_unvisited by exact Hnew.
  rewrite (Z2Nat.id max_depth Hpos).
  unfold bind.
  destruct (visit w max_depth cb url s) as [[[p|]|e] s']; cbn [snd];
    try reflexivity.
  apply safe_step_extends, after_visit_steady.
Qed.

(** C10. When [verify_links] is called with [max_depth >= 0] on a URL that
    is not yet in the visited set, the URL is put into the set before
    [_process_page] is called on it, whatever [_process_page] returns; it is
    still there after any further calls on the same engine, and every later
    call of [verify_links] on it returns the empty dictionary and changes
    nothing, so the URL is not processed again by [verify_links]. *)
Theorem visited_before_processing_and_for_good (w : World) (url : text)
    (max_depth : Z) (cb : bool) (st : state) (calls : list call) :
  (0 <= max_depth)%Z ->
  url ∉ visited_urls st ->
  let st1 := (verify_links w url max_depth cb st).2 in
  let st2 := run w calls st1 in
  (exists before later,
     trace st1 = trace st ++ before ++ VisitedAdd url :: ProcessPage url :: later
     /\ processed before = []) /\
  url ∈ visited_urls st1 /\
  url ∈ visited_urls st2 /\
  forall max_depth' cb',
    verify_links w url max_depth' cb' st2 = (Returned RetEmptyDict, st2).
Proof.
  intros Hpos Hnew st1 st2.
  destruct (verify_links_after_visit w url max_depth cb st Hpos Hnew)
    as [Hv [later Ht]].
  fold st1 in Hv, Ht.
  assert (Hin1 : url ∈ visited_urls st1).
  { apply Hv. rewrite visit_state, after_process_visited, announced_visited.
    apply elem_of_union. left. now apply elem_of_singleton. }
  assert (Hin2 : url ∈ visited_urls st2).
  { destruct (run_extends w calls st1) as [Hsub _]. now apply Hsub. }
  split; [|split; [exact Hin1 | split; [exact Hin2|]]].
  - exists (announcement max_depth cb url), later. split.
    + rewrite Ht, visit_trace. now rewrite <- !app_assoc.
    + apply processed_announcement.
  - intros max_depth' cb'. unfold verify_links.
    destruct (max_depth' <? 0)%Z; [reflexivity|].
    now apply verify_links_at_visited.
Qed.

Lemma home_not_visited : home ∉ visited_urls engine0.
Proof. apply (bool_decide_unpack _). vm_compute. exact I. Qed.

Lemma visited_before_processing_and_for_good_witness :
  let st1 := (verify_links site home 1 true engine0).2 in
  let st2 := run site [CallVerifyLinks page_a 3 false;
                       CallCrawlMany [page_a] 1 1 true] st1 in
  (exists before later,
     trace st1 = trace engine0 ++ before
                 ++ VisitedAdd home :: ProcessPage home :: later
     /\ processed before = []) /\
  home ∈ visited_urls st1 /\
  home ∈ visited_urls st2 /\
  forall max_depth' cb',
    verify_links site home max_depth' cb' st2 = (Returned RetEmptyDict, st2).
Proof.
  apply (visited_before_processing_and_for_good site home 1 true engine0).
  - lia.
  - apply (bool_decide_unpack _). vm_compute. exact I.
Defined.

(** *** [crawl_many] and the visited set *)

Lemma wait_for_rate_limit_view w max_concurrent_requests s :
  visited_urls (wait_for_rate_limit w max_concurrent_requests s).2
  = visited_urls s /\
  trace (wait_for_rate_limit w max_concurrent_requests s).2 = trace s.
Proof.
  unfold wait_for_rate_limit, bind, gets, modify, on_limiter. cbn [fst snd].
  now destruct (RateLimiter.wait_for_rate_limit _ _ _) as [[[]|e] l].
Qed.

(** A task whose rate-limiter gate returns calls [_process_page] on its
    seed, whether or not the seed is in the visited set, and does not put it
    there before the call. *)
Lemma crawl_single_url_processes_seed w max_depth max_concurrent_requests cb
    url s :
  (wait_for_rate_limit w max_concurrent_requests s).1 = Returned tt ->
  exists later,
    trace (crawl_single_url w max_depth max_concurrent_requests cb url s).2
    = trace s
      ++ (if cb then [Callback (MsgProcessingSeed url)] else [])
      ++ ProcessPage url :: later.
Proof.
  intros Hgate. rewrite crawl_single_url_eq.
  destruct (wait_for_rate_limit_view w max_concurrent_requests s) as [_ Ht].
  unfold try_except. unfold bind at 1.
  destruct (wait_for_rate_limit w max_concurrent_requests s) as [o s1].
  cbn [fst snd] in Hgate, Ht. subst o.
  set (s2 := if cb then log (Callback (MsgProcessingSeed url)) s1 else s1).
  assert (Hcb : callback cb (MsgProcessingSeed url) s1 = (Returned tt, s2))
    by (unfold s2; now destruct cb).
  unfold bind at 1. rewrite Hcb.
  destruct (process_page_state w url s2) as [Hs [page Hpage]].
  unfold bind at 1. destruct (_process_page w url s2) as [o s3].
  cbn [fst snd] in Hs, Hpage. subst o s3.
  destruct (after_seed_forward w max_depth max_concurrent_requests cb url page
              (after_process w url s2)) as [[_ [later Hlater]] [r Hr]].
  destruct (after_seed _ _ _ _ _ _ _) as [o s4].
  cbn [fst snd] in Hlater, Hr. subst o. cbn [snd].
  exists later. rewrite Hlater, after_process_trace.
  unfold s2. destruct cb; cbn [log trace]; rewrite Ht;
    now rewrite <- ?app_assoc.
Qed.

(** C1, where it fails. The same URL given twice as a seed of [crawl_many],
    one worker, two seconds between the tasks: [_process_page] is called on
    it twice, and the call returns normally. *)
Theorem crawl_many_processes_duplicate_seed_twice :
  let r := crawl_many site [home; home] 0 1 false engine0 in
  r.1 = Returned {[home := home_info]} /\ times_processed home r.2 = 2.
Proof. split; vm_compute; reflexivity. Qed.

(** One seed is enough. The seed is never marked, so the link back to it
    from the page below is followed: within one [crawl_many] on one seed the
    home page is processed twice. *)
Example crawl_many_reprocesses_seed :
  let r := crawl_many site [home] 2 1 false engine0 in
  processed (trace r.2) = [home; page_a; home].
Proof. vm_compute. reflexivity. Qed.

(** A URL that [verify_links] has processed is processed again when it is
    later a seed of [crawl_many]: the seeds are not checked against the
    visited set. *)
Example crawl_many_ignores_visited :
  home ∈ visited_urls engine1 /\
  times_processed home engine1 = 1 /\
  times_processed home (crawl_many site [home] 0 1 false engine1).2 = 2.
Proof.
  split; [exact home_visited|]. split; vm_compute; reflexivity.
Qed.

(** The seeds are not marked either: a [verify_links] after the
    [crawl_many] processes the seed once more. *)
Example crawl_many_does_not_mark :
  let st := (crawl_many site [home] 0 1 false engine0).2 in
  (home ∉ visited_urls st) /\
  times_processed home (verify_links site home 0 false st).2 = 2.
Proof.
  split; [apply (bool_decide_unpack _)|]; vm_compute; [exact I | reflexivity].
Qed.

End EngineProps.

(** ** Properties of the sitemap parser *)

Module SitemapProps.
Import PyStr Py Sitemap Inputs.

Lemma fetch_fails_raises web url out :
  fetch_fails web url -> exists e, fetch web url out = (Raised e, out).
Proof.
  unfold fetch_fails, fetch. destruct (get web url) as [|status_code body].
  - intros _. now exists RequestException.
  - intros [H1 H2]. exists HTTPError.
    apply Z.leb_le in H1. apply Z.ltb_lt in H2. now rewrite H1, H2.
Qed.

Lemma parse_fails_raises web url out :
  parse_fails web url ->
  exists body, fetch web url out = (Returned body, out) /\
               parse_xml web body out = (Raised ParseError, out).
Proof.
  unfold parse_fails, fetch, parse_xml.
  destruct (get web url) as [|status_code body]; [contradiction|].
  intros [Hok Hbad]. exists body. rewrite Hbad. split; [|reflexivity].
  destruct (Z.leb_spec 400 status_code), (Z.ltb_spec status_code 600);
    cbn [andb]; try reflexivity. exfalso. apply Hok. lia.
Qed.

(** [parse_sitemap] never raises. *)
Lemma parse_sitemap_returns web calls_left url out :
  exists urls, (parse_sitemap web calls_left url out).1 = Returned urls.
Proof.
  destruct calls_left; cbn [parse_sitemap]; unfold try_except;
    match goal with |- context [let (_, _) := ?m out in _] =>
      destruct (m out) as [[urls|e] out'] end;
    cbn; eauto.
Qed.

(** C9. If the sitemap cannot be fetched, or what is fetched does not parse
    as XML, [parse_sitemap] returns the empty list and raises nothing; the
    failure is printed. *)
Theorem parse_sitemap_failure_returns_empty (web : Web) (calls_left : nat)
    (sitemap_url : text) (out : list log_line) :
  fetch_fails web sitemap_url \/ parse_fails web sitemap_url ->
  exists e,
    parse_sitemap web calls_left sitemap_url out
    = (Returned [], out ++ [ErrorParsing sitemap_url e]).
Proof.
  intros [Hf | Hp].
  - destruct (fetch_fails_raises web sitemap_url out Hf) as [e He].
    exists e. destruct calls_left; cbn [parse_sitemap];
      unfold try_except; unfold bind at 1; now rewrite He.
  - destruct (parse_fails_raises web sitemap_url out Hp) as [body [Hb He]].
    exists ParseError. destruct calls_left; cbn [parse_sitemap];
      unfold try_except; unfold bind at 1; rewrite Hb;
      unfold bind at 1; now rewrite He.
Qed.

Example parse_sitemap_urlset :
  (parse_sitemap web 10 (py "https://site.test/sitemap.xml") []).1
  = Returned [py "https://site.test/"; py "https://site.test/a";
              py "https://site.test/b"].
Proof. vm_compute. reflexivity. Qed.

(** A child sitemap that fails costs only its own URLs. *)
Example parse_sitemap_index :
  parse_sitemap web 10 (py "https://site.test/index.xml") []
  = (Returned [py "https://site.test/"; py "https://site.test/a";
               py "https://site.test/b"],
     [Extracted 3 (py "https://site.test/sitemap.xml");
      ErrorParsing (py "https://site.test/gone.xml") HTTPError;
      Extracted 3 (py "https://site.test/index.xml")]).
Proof. vm_compute. reflexivity. Qed.

Lemma parse_sitemap_failure_returns_empty_witness :
  (exists e, parse_sitemap web 10 (py "https://site.test/gone.xml") []
             = (Returned [], [] ++ [ErrorParsing (py "https://site.test/gone.xml") e])) /\
  (exists e, parse_sitemap web 10 (py "https://down.test/sitemap.xml") []
             = (Returned [], [] ++ [ErrorParsing (py "https://down.test/sitemap.xml") e])) /\
  (exists e, parse_sitemap web 10 (py "https://site.test/broken.xml") []
             = (Returned [], [] ++ [ErrorParsing (py "https://site.test/broken.xml") e])).
Proof.
  split; [|split].
  - apply (parse_sitemap_failure_returns_empty web 10
             (py "https://site.test/gone.xml") []).
    left. unfold fetch_fails.
    change (get web (py "https://site.test/gone.xml"))
      with (HttpResponse 404 (py "Not Found")).
    cbv beta iota. lia.
  - apply (parse_sitemap_failure_returns_empty web 10
             (py "https://down.test/sitemap.xml") []).
    left. vm_compute. exact I.
  - apply (parse_sitemap_failure_returns_empty web 10
             (py "https://site.test/broken.xml") []).
    right. unfold parse_fails.
    change (get web (py "https://site.test/broken.xml"))
      with (HttpResponse 200 (py "<urlset")).
    cbv beta iota. split; [lia | reflexivity].
Defined.

End SitemapProps.

(** ** Properties of the job progress *)

Module JobProps.
Import PyStr Job Inputs.

Lemma py_min_le_l a b : (py_min a b <= a)%Q.
Proof.
  unfold py_min. destruct (RateLimiter.Qlt_bool b a) eqn:E.
  - apply RateLimiterProps.Qlt_bool_iff in E. now apply Qlt_le_weak.
  - apply Qle_refl.
Qed.

Lemma py_min_mono a b b' : (b <= b')%Q -> (py_min a b <= py_min a b')%Q.
Proof.
  intros H. unfold py_min.
  destruct (RateLimiter.Qlt_bool b a) eqn:E, (RateLimiter.Qlt_bool b' a) eqn:E'.
  - exact H.
  - apply RateLimiterProps.Qlt_bool_iff in E. now apply Qlt_le_weak.
  - apply RateLimiterProps.Qlt_bool_iff in E'.
    assert (Hn : ~ (b < a)%Q).
    { intros Hlt. apply RateLimiterProps.Qlt_bool_iff in Hlt. congruence. }
    exfalso. apply Hn. eapply Qle_lt_trans; eassumption.
  - apply Qle_refl.
Qed.

Lemma page_budget_pos max_pages : (0 <= max_pages)%Z -> (0 < page_budget max_pages)%Z.
Proof.
  intros H. unfold page_budget.
  destruct (Z.eqb_spec max_pages 0); lia.
Qed.

(** With a non-negative [max_pages], more pages give a larger fraction. *)
Lemma fraction_mono max_pages n n' :
  (0 <= max_pages)%Z -> (n <= n')%Z ->
  (fraction max_pages n <= fraction max_pages n')%Q.
Proof.
  intros Hm Hn. unfold fraction. apply py_min_mono.
  unfold Qdiv. apply Qmult_le_compat_r.
  - now rewrite <- Zle_Qle.
  - apply Qlt_le_weak, Qinv_lt_0_compat.
    change 0%Q with (inject_Z 0). rewrite <- Zlt_Qlt.
    now apply page_budget_pos.
Qed.

Lemma fraction_zero max_pages :
  (0 <= max_pages)%Z -> (fraction max_pages 0 == 0)%Q.
Proof.
  intros Hm. unfold fraction, py_min.
  assert (E : (inject_Z 0 / inject_Z (page_budget max_pages) == 0)%Q).
  { unfold Qdiv. apply Qmult_0_l. }
  destruct (RateLimiter.Qlt_bool _ _) eqn:El; [exact E|].
  exfalso.
  assert (Hlt : (inject_Z 0 / inject_Z (page_budget max_pages) < 0.9)%Q)
    by (rewrite E; reflexivity).
  apply RateLimiterProps.Qlt_bool_iff in Hlt. congruence.
Qed.

Lemma sync_progress message j :
  progress (sync_update_progress message j) = progress j.
Proof. unfold sync_update_progress. now destruct (contains _ _). Qed.

Lemma sync_pages message j :
  (pages_crawled j <= pages_crawled (sync_update_progress message j)
   <= pages_crawled j + 1)%Z.
Proof. unfold sync_update_progress. destruct (contains _ _); simpl; lia. Qed.

Lemma sync_in_bounds max_pages message j :
  (0 <= max_pages)%Z -> in_bounds max_pages j ->
  in_bounds max_pages (sync_update_progress message j).
Proof.
  intros Hm [Hp Hq]. pose proof (sync_pages message j) as Hs.
  split; [lia|]. rewrite sync_progress.
  eapply Qle_trans; [exact Hq|]. apply fraction_mono; [exact Hm | lia].
Qed.

Lemma page_progress max_pages url result j :
  progress (process_page_with_progress max_pages url result j)
  = page_fraction max_pages url j.
Proof.
  unfold process_page_with_progress, page_fraction.
  cbn [status progress current_page pages_crawled progress_logs].
  destruct result as [p|]; [destruct (not_none (Engine.embedding p))|];
    now rewrite !sync_progress.
Qed.

Lemma page_in_bounds max_pages url result j :
  (0 <= max_pages)%Z -> in_bounds max_pages j ->
  in_bounds max_pages (process_page_with_progress max_pages url result j).
Proof.
  intros Hm Hj.
  pose proof (sync_in_bounds max_pages (py "Processing page: " ++ url) j Hm Hj)
    as [Hp0 _].
  unfold process_page_with_progress.
  cbn [status progress current_page pages_crawled progress_logs].
  set (j1 := mk_job _ _ _ _ _).
  assert (H1 : in_bounds max_pages j1).
  { split; unfold j1; cbn [pages_crawled progress]; [lia | apply Qle_refl]. }
  destruct result as [p|]; [destruct (not_none (Engine.embedding p))|];
    repeat apply sync_in_bounds; assumption.
Qed.

Lemma page_raises_progress max_pages url result j :
  (0 <= max_pages)%Z -> in_bounds max_pages j ->
  (progress j <= progress (process_page_with_progress max_pages url result j))%Q.
Proof.
  intros Hm [Hp Hq]. rewrite page_progress. unfold page_fraction.
  pose proof (sync_pages (py "Processing page: " ++ url) j) as Hs.
  eapply Qle_trans; [exact Hq|]. apply fraction_mono; [exact Hm | lia].
Qed.

Lemma in_bounds_cap max_pages j : in_bounds max_pages j -> (progress j <= 0.9)%Q.
Proof.
  intros [_ Hq]. eapply Qle_trans; [exact Hq | apply py_min_le_l].
Qed.

Lemma new_job_in_bounds max_pages : (0 <= max_pages)%Z -> in_bounds max_pages new_job.
Proof.
  intros Hm. split; [cbn; lia|]. cbn [progress new_job pages_crawled].
  rewrite (fraction_zero max_pages Hm). discriminate.
Qed.

Lemma lifetime_nondecreasing max_pages pages completes : forall j,
  (0 <= max_pages)%Z -> in_bounds max_pages j ->
  nondecreasing (history max_pages j (lifetime pages completes)).
Proof.
  unfold lifetime. induction pages as [|[url result] pages IH]; intros j Hm Hj.
  - destruct completes; cbn; [|exact I].
    split; [|exact I].
    eapply Qle_trans; [apply (in_bounds_cap _ _ Hj) | discriminate].
  - cbn [map app history exec].
    specialize (IH (process_page_with_progress max_pages url result j) Hm
                   (page_in_bounds _ _ _ _ Hm Hj)).
    destruct (map _ pages ++ _) as [|s rest] eqn:E;
      cbn [history] in *; (split; [now apply page_raises_progress | exact IH]).
Qed.

(** C8, as the code has it. For a job whose [max_pages] is not negative, the
    progress value never goes down while pages are processed one after the
    other and the job then completes or not: each page sets it to
    [min(0.9, pages_crawled / (max_pages or 50))] for the counter at that
    moment, which is at most 0.9, and only completion sets it to 1.0. *)
Theorem progress_nondecreasing (max_pages : Z)
    (pages : list (text * option Engine.page_info)) (completes : bool) :
  (0 <= max_pages)%Z ->
  nondecreasing (history max_pages new_job (lifetime pages completes)) /\
  (forall url result j,
     progress (exec max_pages j (Page url result))
     = page_fraction max_pages url j /\
     (page_fraction max_pages url j <= 0.9)%Q) /\
  (forall j, progress (exec max_pages j Complete) = 1.0%Q).
Proof.
  intros Hm. split; [|split].
  - apply lifetime_nondecreasing; [exact Hm | now apply new_job_in_bounds].
  - intros url result j. split; [apply page_progress | apply py_min_le_l].
  - reflexivity.
Qed.

Lemma progress_nondecreasing_witness :
  nondecreasing (history 50 new_job
                   (lifetime [(home, Some home_info); (page_a, None)] true)) /\
  (forall url result j,
     progress (exec 50 j (Page url result)) = page_fraction 50 url j /\
     (page_fraction 50 url j <= 0.9)%Q) /\
  (forall j, progress (exec 50 j Complete) = 1.0%Q).
Proof.
  apply (progress_nondecreasing 50 [(home, Some home_info); (page_a, None)] true).
  lia.
Defined.

(** The values of the example: the first page counts twice, once when it
    starts and once for its success message. *)
Example progress_values :
  history 50 new_job (lifetime [(home, Some home_info); (page_a, None)] true)
  = [0.0%Q; (1 / 50)%Q; (3 / 50)%Q; 1.0%Q].
Proof. reflexivity. Qed.

(** With [max_pages = 0] the divisor is 50. *)
Example progress_unlimited :
  history 0 new_job (lifetime [(page_a, None)] false) = [0.0%Q; (1 / 50)%Q].
Proof. reflexivity. Qed.

(** A request with [max_pages = -1]: the first page lowers the progress from
    0 to -1. *)
Lemma progress_lowered_by_negative_max_pages :
  ~ nondecreasing (history (-1) new_job (lifetime [(page_a, None)] true)).
Proof. intros [H _]. vm_compute in H. now apply H. Qed.

Example progress_negative_values :
  history (-1) new_job (lifetime [(page_a, None)] true)
  = [0.0%Q; (1 / -1)%Q; 1.0%Q].
Proof. reflexivity. Qed.

End JobProps.

(** ** Properties of the string operations *)

Module PyStrProps.
Import PyStr ChunkerProps.

Lemma lstrip_head s :
  match lstrip s with [] => True | c :: _ => isspace c = false end.
Proof.
  induction s as [|c s IH]; simpl; [exact I|].
  destruct (isspace c) eqn:E; [exact IH | exact E].
Qed.

Lemma lstrip_fixed c s : isspace c = false -> lstrip (c :: s) = c :: s.
Proof. intros E. simpl. now rewrite E. Qed.

Lemma lstrip_idem s : lstrip (lstrip s) = lstrip s.
Proof.
  pose proof (lstrip_head s) as H.
  destruct (lstrip s) as [|c t]; [reflexivity | now apply lstrip_fixed].
Qed.

Lemma lstrip_snoc s c :
  isspace c = false -> lstrip (s ++ [c]) = lstrip s ++ [c].
Proof.
  intros E. induction s as [|d s IH]; simpl; [now rewrite E|].
  destruct (isspace d); [exact IH | reflexivity].
Qed.

Lemma rstrip_cons c s : isspace c = false -> rstrip (c :: s) = c :: rstrip s.
Proof.
  intros E. unfold rstrip. cbn [rev].
  rewrite lstrip_snoc by exact E. now rewrite rev_app_distr.
Qed.

Lemma rstrip_idem s : rstrip (rstrip s) = rstrip s.
Proof. unfold rstrip. now rewrite rev_involutive, lstrip_idem. Qed.

(** [s.strip().strip() == s.strip()] *)
Lemma strip_idem s : strip (strip s) = strip s.
Proof.
  unfold strip. pose proof (lstrip_head s) as H.
  destruct (lstrip s) as [|c t].
  - reflexivity.
  - rewrite (rstrip_cons c t H), (lstrip_fixed c _ H), <- (rstrip_cons c t H).
    apply rstrip_idem.
Qed.

Lemma split_go_space cur s c :
  isspace c = true -> split_go cur (s ++ [c]) = split_go cur s.
Proof.
  intros E. revert cur. induction s as [|d s IH]; intros cur; simpl.
  - rewrite E. now destruct (truthy cur).
  - destruct (isspace d); [|apply IH].
    destruct (truthy cur); now rewrite IH.
Qed.

Lemma split_lstrip s : split (lstrip s) = split s.
Proof.
  unfold split. induction s as [|c s IH]; [reflexivity|].
  simpl. destruct (isspace c) eqn:E; [exact IH|].
  simpl. now rewrite E.
Qed.

Lemma lstrip_spaces s :
  exists w, s = w ++ lstrip s /\ Forall (fun c => isspace c = true) w.
Proof.
  induction s as [|c s (w & Hs & Hw)]; [now exists []|].
  simpl. destruct (isspace c) eqn:E.
  - exists (c :: w). split; [simpl; congruence | now constructor].
  - now exists [].
Qed.

Lemma split_go_spaces cur s w :
  Forall (fun c => isspace c = true) w -> split_go cur (s ++ rev w) = split_go cur s.
Proof.
  intros Hw. revert s. induction Hw as [|c w Hc Hw IH]; intros s; cbn [rev].
  - now rewrite app_nil_r.
  - rewrite app_assoc, split_go_space by exact Hc. apply IH.
Qed.

Lemma split_rstrip s : split (rstrip s) = split s.
Proof.
  unfold rstrip, split.
  destruct (lstrip_spaces (rev s)) as (w & Hs & Hw).
  assert (E : s = rev (lstrip (rev s)) ++ rev w).
  { rewrite <- rev_app_distr, <- Hs. symmetry. apply rev_involutive. }
  rewrite E at 2. now rewrite split_go_spaces.
Qed.

(** [s.strip().split() == s.split()] *)
Lemma split_strip s : split (strip s) = split s.
Proof. unfold strip. now rewrite split_rstrip, split_lstrip. Qed.

Lemma split_go_nonnil cur s :
  cur <> [] \/ nonspace s <> [] -> split_go cur s <> [].
Proof.
  revert cur. induction s as [|c s IH]; intros cur H; simpl.
  - destruct H as [H|H]; [|now contradiction H].
    destruct cur; [congruence | discriminate].
  - unfold nonspace in H. cbn [List.filter] in H.
    destruct (isspace c) eqn:E; cbn [negb] in H.
    + destruct cur as [|d cur]; cbn [truthy]; [|discriminate].
      apply IH. right. destruct H as [H|H]; [congruence | exact H].
    + apply IH. left. discriminate.
Qed.

(** A string with a visible character has at least one word. *)
Lemma split_nonnil s : nonspace s <> [] -> 1 <= length (split s).
Proof.
  intros H. pose proof (split_go_nonnil [] s (or_intror H)) as Hne.
  unfold split. destruct (split_go [] s); [congruence | simpl; lia].
Qed.

(** *** Prefixes and suffixes *)

Lemma startswith_spec p s : startswith p s = true <-> exists t, s = p ++ t.
Proof.
  revert s. induction p as [|a p IH]; intros s.
  - split; [intros _; now exists s | reflexivity].
  - destruct s as [|b s]; cbn [startswith].
    + split; [discriminate | intros [t Ht]; discriminate].
    + rewrite andb_true_iff, N.eqb_eq, IH. split.
      * intros [-> [t ->]]. now exists t.
      * intros [t [= -> ->]]. split; [reflexivity | now exists t].
Qed.

Lemma endswith_spec p s : endswith p s = true <-> exists t, s = t ++ p.
Proof.
  unfold endswith. rewrite startswith_spec. split.
  - intros [t Ht]. exists (rev t).
    rewrite <- (rev_involutive s), Ht, rev_app_distr. now rewrite rev_involutive.
  - intros [t ->]. exists (rev t). apply rev_app_distr.
Qed.

Lemma startswith_length p s : startswith p s = true -> length p <= length s.
Proof. intros [t ->]%startswith_spec. rewrite length_app. lia. Qed.

Lemma endswith_length p s : endswith p s = true -> length p <= length s.
Proof. intros [t ->]%endswith_spec. rewrite length_app. lia. Qed.

End PyStrProps.

(** ** More properties of the chunker *)

Module ChunkerFacts.
Import PyStr Chunker ChunkerTerms ChunkerProps PyStrProps.

Lemma flush_numbered st :
  numbered st -> map id (flush st) = seq 0 (S (chunk_index st)).
Proof.
  unfold numbered, flush. intros H.
  rewrite map_app, H, seq_S. reflexivity.
Qed.

Lemma chunk_step_numbered max_chunk_size st part :
  numbered st -> numbered (chunk_step max_chunk_size st part).
Proof.
  intros H. unfold chunk_step.
  destruct (negb _); [exact H|].
  destruct (_ && _); [|exact H].
  unfold numbered. cbn [chunks chunk_index]. now apply flush_numbered.
Qed.

Lemma chunk_loop_numbered max_chunk_size text_parts : forall st,
  numbered st -> numbered (fold_left (chunk_step max_chunk_size) text_parts st).
Proof.
  induction text_parts as [|p ps IH]; intros st H; [exact H|].
  cbn [fold_left]. now apply IH, chunk_step_numbered.
Qed.

(** X1. The chunks [_chunk_markdown] returns are numbered 0, 1, 2, ... in the
    order they are returned, without gaps. *)
Theorem chunk_ids_consecutive (markdown_text : text) (max_chunk_size : Z) :
  map id (_chunk_markdown markdown_text max_chunk_size)
  = seq 0 (length (_chunk_markdown markdown_text max_chunk_size)).
Proof.
  assert (H : forall l : list chunk, forall n, map id l = seq 0 n ->
                map id l = seq 0 (length l)).
  { intros l n E. assert (Hn : length l = n).
    { rewrite <- (length_map id l), E. apply length_seq. }
    now rewrite Hn. }
  unfold _chunk_markdown. destruct (negb (truthy markdown_text)); [reflexivity|].
  unfold chunk_parts.
  pose proof (chunk_loop_numbered max_chunk_size (re_split markdown_text)
                (mk_loop [] [] 0) eq_refl) as Hn.
  destruct (truthy (strip _)).
  - eapply H. now apply flush_numbered.
  - eapply H. exact Hn.
Qed.

(** *** Empty output *)

Lemma kept_invisible text_parts :
  nonspace (concat text_parts) = [] -> kept text_parts = [].
Proof.
  induction text_parts as [|p ps IH]; [reflexivity|].
  cbn [concat]. rewrite nonspace_app. intros [Hp Hps]%app_eq_nil.
  unfold kept. cbn [List.filter]. rewrite truthy_strip, Hp. cbn [truthy].
  now apply IH.
Qed.

Lemma concat_nonnil_nil {A} (groups : list (list A)) :
  Forall (fun g => g <> []) groups -> concat groups = [] -> groups = [].
Proof.
  intros Hg Hc. destruct groups as [|g gs]; [reflexivity|].
  apply Forall_cons in Hg as [Hg _]. cbn [concat] in Hc.
  now apply app_eq_nil in Hc as [-> _].
Qed.

(** X2. [_chunk_markdown] returns no chunk exactly when the text has no
    character other than whitespace; the empty text is one such case. *)
Theorem chunk_markdown_empty_iff (markdown_text : text) (max_chunk_size : Z) :
  _chunk_markdown markdown_text max_chunk_size = [] <->
  nonspace markdown_text = [].
Proof.
  unfold _chunk_markdown.
  destruct markdown_text as [|c s]; [cbn; tauto|]. cbn [truthy negb].
  set (md := c :: s).
  pose proof (chunk_parts_visible max_chunk_size (re_split md)) as Hvis.
  rewrite concat_re_split in Hvis.
  split.
  - intros E. rewrite E in Hvis. now symmetry.
  - intros E.
    destruct (chunk_parts_grouped max_chunk_size (re_split md))
      as (groups & Hcat & Hne & Hmap).
    rewrite kept_invisible in Hcat by now rewrite concat_re_split.
    rewrite (concat_nonnil_nil groups Hne Hcat) in Hmap.
    now apply map_eq_nil in Hmap.
Qed.

(** *** Tidy chunks *)

Lemma flush_tidy st :
  loop_tidy st -> nonspace (current_chunk st) <> [] -> Forall tidy (flush st).
Proof.
  intros [Hc _] Hns. unfold flush. apply Forall_app. split; [exact Hc|].
  constructor; [|constructor].
  unfold tidy. cbn [content word_count].
  rewrite strip_idem, split_strip. repeat split.
  now apply split_nonnil.
Qed.

Lemma chunk_step_tidy max_chunk_size st part :
  loop_tidy st -> loop_tidy (chunk_step max_chunk_size st part).
Proof.
  intros Hst. unfold chunk_step.
  destruct (truthy (strip part)) eqn:Hpart; cbn [negb]; [|exact Hst].
  rewrite truthy_strip in Hpart. apply truthy_length in Hpart.
  destruct (_ && _) eqn:Hflush.
  - apply andb_true_iff in Hflush as [_ Hcur%truthy_length].
    split; cbn [chunks current_chunk]; [|now right].
    apply flush_tidy; [exact Hst|].
    destruct Hst as [_ [E|Hns]]; [contradiction | exact Hns].
  - destruct Hst as [Hc _]. split; cbn [chunks current_chunk]; [exact Hc|].
    right. rewrite nonspace_app. intros [_ E]%app_eq_nil. contradiction.
Qed.

Lemma chunk_loop_tidy max_chunk_size text_parts : forall st,
  loop_tidy st -> loop_tidy (fold_left (chunk_step max_chunk_size) text_parts st).
Proof.
  induction text_parts as [|p ps IH]; intros st H; [exact H|].
  cbn [fold_left]. now apply IH, chunk_step_tidy.
Qed.

(** X3. No chunk [_chunk_markdown] returns begins or ends with whitespace,
    and the [word_count] of each is the number of whitespace-separated words
    of its content, which is at least one. *)
Theorem chunk_markdown_tidy (markdown_text : text) (max_chunk_size : Z) :
  Forall tidy (_chunk_markdown markdown_text max_chunk_size).
Proof.
  unfold _chunk_markdown. destruct (negb (truthy markdown_text)); [constructor|].
  unfold chunk_parts.
  assert (H : loop_tidy (fold_left (chunk_step max_chunk_size)
                           (re_split markdown_text) (mk_loop [] [] 0))).
  { apply chunk_loop_tidy. split; [constructor | now left]. }
  destruct (truthy (strip _)) eqn:E; [|apply H].
  apply flush_tidy; [exact H|].
  rewrite truthy_strip in E. now apply truthy_length.
Qed.

(** *** A text that fits *)

Lemma length_concat_kept text_parts :
  length (concat (kept text_parts)) <= length (concat text_parts).
Proof.
  induction text_parts as [|p ps IH]; [reflexivity|].
  unfold kept in *. cbn [List.filter concat].
  destruct (truthy (strip p)); cbn [concat]; rewrite ?length_app; lia.
Qed.

Lemma chunk_step_gathering max_chunk_size done st part :
  (Z.of_nat (length (concat (done ++ [part]))) <= max_chunk_size)%Z ->
  gathering done st ->
  gathering (done ++ [part]) (chunk_step max_chunk_size st part).
Proof.
  intros Hfit (Hc & Hi & Hcur). unfold chunk_step, gathering.
  rewrite kept_app. unfold kept at 2. cbn [List.filter].
  destruct (truthy (strip part)) eqn:Hpart; cbn [negb].
  - assert (Hroom : (Z.of_nat (length (current_chunk st)) + Z.of_nat (length part)
                     >? max_chunk_size)%Z = false).
    { rewrite Z.gtb_ltb. apply Z.ltb_ge. rewrite Hcur.
      pose proof (length_concat_kept done) as Hk.
      rewrite concat_app, length_app in Hfit. cbn [concat] in Hfit.
      rewrite app_nil_r in Hfit. lia. }
    rewrite Hroom. cbn [andb]. repeat split; cbn [chunks chunk_index current_chunk];
      try assumption.
    rewrite concat_app, Hcur. cbn [concat]. now rewrite app_nil_r.
  - repeat split; try assumption. now rewrite app_nil_r.
Qed.

Lemma chunk_loop_gathering max_chunk_size : forall rest done st,
  (Z.of_nat (length (concat (done ++ rest))) <= max_chunk_size)%Z ->
  gathering done st ->
  gathering (done ++ rest) (fold_left (chunk_step max_chunk_size) rest st).
Proof.
  induction rest as [|part rest IH]; intros done st Hfit H; cbn [fold_left].
  - now rewrite app_nil_r.
  - replace (done ++ part :: rest) with ((done ++ [part]) ++ rest) in *
      by now rewrite <- app_assoc.
    apply IH; [exact Hfit|].
    apply chunk_step_gathering; [|exact H].
    rewrite concat_app, length_app in Hfit. lia.
Qed.

(** X4. A text that has a visible character and is no longer than
    [max_chunk_size] comes back as exactly one chunk, numbered 0, which holds
    every part of the text that is not whitespace only. *)
Theorem chunk_markdown_single (markdown_text : text) (max_chunk_size : Z) :
  nonspace markdown_text <> [] ->
  (Z.of_nat (length markdown_text) <= max_chunk_size)%Z ->
  let body := concat (kept (re_split markdown_text)) in
  _chunk_markdown markdown_text max_chunk_size
  = [mk_chunk 0 (strip body) (length (split body))].
Proof.
  intros Hvis Hfit body. unfold _chunk_markdown.
  destruct markdown_text as [|c s]; [now contradiction Hvis|].
  cbn [truthy negb]. set (md := c :: s) in *.
  destruct (chunk_loop_gathering max_chunk_size (re_split md) [] (mk_loop [] [] 0))
    as (Hc & Hi & Hcur).
  { cbn [app]. now rewrite concat_re_split. }
  { repeat split. }
  cbn [app] in Hc, Hi, Hcur. unfold chunk_parts.
  set (st := fold_left _ _ _) in *.
  assert (Hbody : nonspace body <> []).
  { assert (Hv : visible st = nonspace md).
    { unfold st. rewrite chunk_loop_visible, concat_re_split. reflexivity. }
    unfold visible in Hv. rewrite Hc, Hcur in Hv.
    unfold body. now rewrite <- Hv in Hvis. }
  rewrite truthy_strip, Hcur. fold body.
  destruct (nonspace body) eqn:E; [congruence|]. cbn [truthy].
  unfold flush. now rewrite Hc, Hi, Hcur.
Qed.

Lemma chunk_markdown_single_witness :
  _chunk_markdown (py "ab" ++ [nl; nl] ++ py "cd") 1000
  = [mk_chunk 0 (py "abcd") 1].
Proof.
  apply (chunk_markdown_single (py "ab" ++ [nl; nl] ++ py "cd") 1000).
  - vm_compute. discriminate.
  - vm_compute. discriminate.
Defined.

End ChunkerFacts.

(** ** More properties of the embedding normalisation *)

Module EmbeddingFacts.
Import PyStr Embedding Padding EmbeddingProps.

(** *** The prompt *)

Lemma truncate_prompt_take prompt :
  truncate_prompt (take 8000 prompt) = truncate_prompt prompt.
Proof.
  unfold truncate_prompt.
  destruct (Nat.ltb_spec 8000 (length prompt)) as [Hlong|Hshort].
  - rewrite length_take.
    destruct (Nat.ltb_spec 8000 (8000 `min` length prompt)); [lia | reflexivity].
  - rewrite (take_ge prompt) by lia.
    destruct (Nat.ltb_spec 8000 (length prompt)); [lia | reflexivity].
Qed.

(** X5. Only the first 8000 characters of a text reach the embedder: the
    page path and the adapter give the same answer for a text and for its
    first 8000 characters. *)
Theorem embedding_reads_8000_characters {float : Type} (zero : float)
    (embedding_dimensions : Z) (post : text -> option (response float))
    (prompt : text) :
  _get_embedding zero post prompt = _get_embedding zero post (take 8000 prompt) /\
  generate_embedding embedding_dimensions post prompt
  = generate_embedding embedding_dimensions post (take 8000 prompt).
Proof.
  unfold _get_embedding, generate_embedding.
  now rewrite truncate_prompt_take.
Qed.

(** *** Repetition *)

Lemma length_concat_repeat {A} (v : list A) k :
  length (concat (repeat v k)) = k * length v.
Proof.
  induction k as [|k IH]; [reflexivity|].
  cbn [repeat concat]. rewrite length_app, IH. lia.
Qed.

Lemma lookup_concat_repeat {A} (v : list A) k : forall i,
  i < k * length v -> concat (repeat v k) !! i = v !! (i mod length v).
Proof.
  induction k as [|k IH]; intros i Hi; [lia|].
  cbn [repeat concat].
  destruct (Nat.lt_ge_cases i (length v)) as [Hlt|Hge].
  - rewrite lookup_app_l by exact Hlt. now rewrite Nat.mod_small.
  - rewrite lookup_app_r by exact Hge.
    rewrite IH by lia.
    replace i with ((i - length v) + 1 * length v) at 2 by lia.
    now rewrite Nat.Div0.mod_add.
Qed.

Lemma repeats_take_concat {A} (v : list A) k n :
  n <= k * length v -> repeats v (take n (concat (repeat v k))).
Proof.
  intros Hn i Hi. rewrite length_take, length_concat_repeat in Hi.
  rewrite lookup_take_lt by lia. apply lookup_concat_repeat. lia.
Qed.

Lemma repeats_take {A} (v : list A) n : repeats v (take n v).
Proof.
  intros i Hi. rewrite length_take in Hi.
  rewrite lookup_take_lt by lia. now rewrite Nat.mod_small by lia.
Qed.

Lemma repeats_self {A} (v : list A) : repeats v v.
Proof. intros i Hi. now rewrite Nat.mod_small. Qed.

(** *** [pad_embedding] on a vector that is not empty *)

Lemma slice_to_nat {A} (n : nat) (l : list A) :
  slice_to (Z.of_nat n) l = take n l.
Proof.
  unfold slice_to. destruct (Z.ltb_spec (Z.of_nat n) 0); [lia|].
  now rewrite Nat2Z.id.
Qed.

Lemma pad_embedding_nonempty {A} (embedding : list A) (n : nat) :
  embedding <> [] ->
  exists e, pad_embedding embedding (Z.of_nat n) = Padded e /\
            length e = n /\ repeats embedding e.
Proof.
  intros Hne.
  assert (Hlen : 0 < length embedding) by (destruct embedding; [congruence | simpl; lia]).
  unfold pad_embedding.
  destruct (Z.eqb_spec (Z.of_nat (length embedding)) (Z.of_nat n)) as [E|NE].
  - exists embedding. split; [reflexivity|]. split; [lia | apply repeats_self].
  - destruct (Z.gtb_spec (Z.of_nat (length embedding)) (Z.of_nat n)) as [Hgt|Hle].
    + exists (take n embedding). rewrite slice_to_nat.
      split; [reflexivity|]. split; [rewrite length_take; lia | apply repeats_take].
    + destruct (Z.eqb_spec (Z.of_nat (length embedding)) 0) as [E0|_]; [lia|].
      set (k := Z.to_nat (Z.of_nat n / Z.of_nat (length embedding) + 1)).
      exists (take n (concat (repeat embedding k))). unfold list_times.
      rewrite slice_to_nat. fold k.
      split; [reflexivity|].
      assert (Hfit : n <= k * length embedding).
      { unfold k. rewrite <- Nat2Z.inj_div.
        change 1%Z with (Z.of_nat 1). rewrite <- Nat2Z.inj_add, Nat2Z.id.
        pose proof (Nat.mul_succ_div_gt n (length embedding)). lia. }
      split; [|now apply repeats_take_concat].
      rewrite length_take, length_concat_repeat. lia.
Qed.

(** *** The adapter *)

(** On the embedder's vector, which is not empty, the adapter computes what
    [pad_embedding] computes for the same dimension. *)
Lemma generate_embedding_pads {float : Type} (embedding_dimensions : Z)
    (post : text -> option (response float)) (prompt : text) (e : list float) :
  generate_embedding embedding_dimensions post prompt = Some e ->
  exists v,
    post (truncate_prompt prompt) = Some (Response 200 (Some v)) /\
    v <> [] /\ pad_embedding v embedding_dimensions = Padded e.
Proof.
  unfold generate_embedding.
  destruct (post (truncate_prompt prompt)) as [[code emb]|] eqn:Hpost;
    [|discriminate].
  cbn [status_code embedding_field].
  destruct (Z.eqb_spec code 200) as [->|_]; [|discriminate].
  destruct emb as [v|]; [|discriminate].
  destruct (truthy v) eqn:Hv; [|discriminate]. apply ChunkerProps.truthy_length in Hv.
  assert (Hpos : (0 < Z.of_nat (length v))%Z)
    by (destruct v; [congruence | simpl; lia]).
  intros H. exists v. split; [reflexivity|]. split; [exact Hv|].
  unfold pad_embedding. cbv zeta in *.
  destruct (Z.ltb_spec (Z.of_nat (length v)) embedding_dimensions) as [Hlt|Hge].
  - injection H as <-.
    destruct (Z.eqb_spec (Z.of_nat (length v)) embedding_dimensions); [lia|].
    destruct (Z.gtb_spec (Z.of_nat (length v)) embedding_dimensions); [lia|].
    destruct (Z.eqb_spec (Z.of_nat (length v)) 0); [lia | reflexivity].
  - destruct (Z.gtb_spec (Z.of_nat (length v)) embedding_dimensions) as [Hgt|Hle];
      injection H as <-.
    + destruct (Z.eqb_spec (Z.of_nat (length v)) embedding_dimensions);
        [lia | reflexivity].
    + destruct (Z.eqb_spec (Z.of_nat (length v)) embedding_dimensions);
        [reflexivity | lia].
Qed.

(** An adapter set up for no dimension answers with the empty list, and one
    set up for a negative dimension drops that many values from the end of
    the embedder's vector. *)
Example generate_embedding_zero_dimensions :
  generate_embedding 0 Inputs.post_ones (py "title") = Some [].
Proof. reflexivity. Qed.

Example generate_embedding_negative_dimensions :
  generate_embedding (-1) Inputs.post_ones (py "title")
  = Some (take 499 Inputs.ones).
Proof. vm_compute. reflexivity. Qed.

(** X6. Whenever [SupabaseAdapter.generate_embedding] returns a vector, the
    embedder answered 200 with a non-empty vector, and the result repeats
    the embedder's vector from its start (so it is the vector itself, or a
    prefix of it, when that is long enough). When [embedding_dimensions] is
    positive the result has exactly that many values, so it is not empty.
    When [embedding_dimensions] is zero the result is the empty list, and
    when it is negative the result is the embedder's vector without that
    many of its last values. *)
Theorem generate_embedding_repeats {float : Type} (embedding_dimensions : Z)
    (post : text -> option (response float)) (prompt : text) (e : list float) :
  generate_embedding embedding_dimensions post prompt = Some e ->
  exists v,
    post (truncate_prompt prompt) = Some (Response 200 (Some v)) /\
    v <> [] /\ repeats v e /\
    ((0 < embedding_dimensions)%Z ->
     Z.of_nat (length e) = embedding_dimensions /\ e <> []) /\
    (embedding_dimensions = 0%Z -> e = []) /\
    ((embedding_dimensions < 0)%Z ->
     e = take (length v - Z.to_nat (- embedding_dimensions)) v).
Proof.
  intros H.
  destruct (generate_embedding_pads _ _ _ _ H) as (v & Hpost & Hv & Hpad).
  exists v. split; [exact Hpost|]. split; [exact Hv|].
  assert (Hlen : (0 < Z.of_nat (length v))%Z)
    by (destruct v; [congruence | simpl; lia]).
  destruct (Z.lt_trichotomy 0 embedding_dimensions) as [Hpos | [<- | Hneg]].
  - destruct (pad_embedding_nonempty v (Z.to_nat embedding_dimensions) Hv)
      as (e' & He' & Hsize & Hrep).
    rewrite Z2Nat.id in He' by lia. rewrite Hpad in He'. injection He' as <-.
    split; [exact Hrep|]. split; [|split; intros; lia].
    intros _. split; [lia|]. intros ->. simpl in Hsize. lia.
  - unfold pad_embedding in Hpad. cbv zeta in Hpad.
    destruct (Z.eqb_spec (Z.of_nat (length v)) 0); [lia|].
    destruct (Z.gtb_spec (Z.of_nat (length v)) 0); [|lia].
    injection Hpad as <-.
    split; [apply (repeats_take v 0)|]. split; [intros; lia|].
    split; [reflexivity | intros; lia].
  - unfold pad_embedding in Hpad. cbv zeta in Hpad.
    destruct (Z.eqb_spec (Z.of_nat (length v)) embedding_dimensions); [lia|].
    destruct (Z.gtb_spec (Z.of_nat (length v)) embedding_dimensions); [|lia].
    injection Hpad as <-. unfold slice_to.
    destruct (Z.ltb_spec embedding_dimensions 0); [|lia].
    split; [apply repeats_take|]. split; [intros; lia|].
    split; [intros; lia | reflexivity].
Qed.

Lemma generate_embedding_repeats_witness :
  let e := Inputs.ones ++ Inputs.ones ++ Inputs.ones ++ take 36 Inputs.ones in
  exists v,
    Inputs.post_ones (truncate_prompt (py "title"))
    = Some (Response 200 (Some v)) /\
    v <> [] /\ repeats v e /\
    ((0 < 1536)%Z -> Z.of_nat (length e) = 1536%Z /\ e <> []) /\
    (1536%Z = 0%Z -> e = []) /\
    ((1536 < 0)%Z -> e = take (length v - Z.to_nat (- 1536)) v).
Proof.
  apply (generate_embedding_repeats 1536 Inputs.post_ones (py "title")).
  vm_compute. reflexivity.
Defined.

(** *** The page path *)

Lemma lookup_repeat {A} (x : A) n : forall i, i < n -> repeat x n !! i = Some x.
Proof.
  induction n as [|n IH]; intros [|i] Hi; cbn [repeat]; try lia; [reflexivity|].
  apply IH. lia.
Qed.

Lemma zero_filled_app {A} (zero : A) (v : list A) n :
  zero_filled zero v (v ++ repeat zero n).
Proof.
  intros i Hi.
  destruct (Nat.ltb_spec i (length v)) as [Hlt|Hge].
  - now rewrite lookup_app_l.
  - rewrite lookup_app_r by exact Hge.
    rewrite length_app, repeat_length in Hi.
    apply lookup_repeat. lia.
Qed.

Lemma zero_filled_take {A} (zero : A) (v : list A) n :
  zero_filled zero v (take n v).
Proof.
  intros i Hi. rewrite length_take in Hi.
  rewrite lookup_take_lt by lia.
  destruct (Nat.ltb_spec i (length v)); [reflexivity | lia].
Qed.

(** X7. Whenever [DeepCrawler._get_embedding] returns a non-empty vector, it
    has exactly 1536 values: the embedder's vector, cut at 1536 when it is
    longer, filled up with [0.0] when it is shorter. *)
Theorem page_embedding_dimension {float : Type} (zero : float)
    (post : text -> option (response float)) (prompt : text) (e : list float) :
  _get_embedding zero post prompt = Some e ->
  e <> [] ->
  exists v,
    post (truncate_prompt prompt) = Some (Response 200 (Some v)) /\
    length e = 1536 /\ zero_filled zero v e.
Proof.
  unfold _get_embedding.
  destruct (post (truncate_prompt prompt)) as [[code emb]|] eqn:Hpost;
    [|discriminate].
  cbn [status_code embedding_field].
  destruct (Z.eqb_spec code 200) as [->|_]; [|discriminate].
  destruct emb as [v|]; [|discriminate].
  cbn [fmap option_fmap option_map]. intros [= <-] Hne.
  exists v. split; [reflexivity|].
  assert (Hv : v <> []) by (intros ->; now apply Hne).
  split; [now apply fix_dimension_length|].
  unfold fix_dimension. destruct v as [|x v']; [congruence|]. cbn [truthy].
  set (v := x :: v').
  destruct (Nat.eqb_spec (length v) expected_dim) as [E|NE]; cbn [negb].
  - rewrite <- (take_ge v (length v)) at 2 by lia. apply zero_filled_take.
  - destruct (length v <? expected_dim).
    + apply zero_filled_app.
    + apply zero_filled_take.
Qed.

Lemma page_embedding_dimension_witness :
  exists v,
    Inputs.post_ones (truncate_prompt (py "title")) = Some (Response 200 (Some v)) /\
    length (Inputs.ones ++ repeat 0%Q 1036) = 1536 /\
    zero_filled 0%Q v (Inputs.ones ++ repeat 0%Q 1036).
Proof.
  apply (page_embedding_dimension 0%Q Inputs.post_ones (py "title")).
  - vm_compute. reflexivity.
  - vm_compute. discriminate.
Defined.

(** *** [pad_embedding] *)

(** X8. For a target that is not negative, [pad_embedding] returns a vector
    of exactly the target length that repeats the given vector from its
    start, unless the given vector is empty and the target is positive: then
    the integer division by the length raises [ZeroDivisionError]. *)
Theorem pad_embedding_repeats_or_raises {A} (embedding : list A)
    (target_dimensions : Z) :
  (0 <= target_dimensions)%Z ->
  (embedding <> [] \/ target_dimensions = 0%Z ->
   exists e, pad_embedding embedding target_dimensions = Padded e /\
             Z.of_nat (length e) = target_dimensions /\
             repeats embedding e) /\
  (embedding = [] -> (0 < target_dimensions)%Z ->
   pad_embedding embedding target_dimensions = ZeroDivisionError).
Proof.
  intros Hpos. split.
  - intros [Hne | ->].
    + rewrite <- (Z2Nat.id target_dimensions Hpos).
      destruct (pad_embedding_nonempty embedding (Z.to_nat target_dimensions) Hne)
        as (e & He & Hlen & Hrep).
      exists e. split; [exact He|]. split; [now rewrite Hlen | exact Hrep].
    + destruct embedding as [|x v].
      * exists []. split; [reflexivity|]. split; [reflexivity|].
        intros i Hi. inversion Hi.
      * destruct (pad_embedding_nonempty (x :: v) 0) as (e & He & Hlen & Hrep);
          [discriminate|].
        exists e. split; [exact He|]. split; [now rewrite Hlen | exact Hrep].
  - intros -> Htarget. unfold pad_embedding.
    change (Z.of_nat (length (@nil A))) with 0%Z. cbv zeta.
    destruct (Z.eqb_spec 0 target_dimensions); [lia|].
    destruct (Z.gtb_spec 0 target_dimensions); [lia | reflexivity].
Qed.

Lemma pad_embedding_repeats_or_raises_witness :
  (exists e, pad_embedding [1%Q; 2%Q; 3%Q] 8 = Padded e /\
             Z.of_nat (length e) = 8%Z /\
             repeats [1%Q; 2%Q; 3%Q] e) /\
  pad_embedding (@nil Q) 1536 = ZeroDivisionError.
Proof.
  split.
  - apply (pad_embedding_repeats_or_raises [1%Q; 2%Q; 3%Q] 8); [lia|].
    left. discriminate.
  - apply (pad_embedding_repeats_or_raises (@nil Q) 1536); [lia | reflexivity | lia].
Defined.

(** X9. What the crawler and the adapter produce needs no padding: on a
    vector returned by [generate_embedding] of an adapter set up for 1536
    dimensions, and on a non-empty vector returned by [_get_embedding],
    [pad_embedding(_, 1536)] returns the vector unchanged and does not
    raise. *)
Theorem pad_embedding_after_normalisation {float : Type} (zero : float)
    (post : text -> option (response float)) (prompt : text) (e : list float) :
  generate_embedding 1536 post prompt = Some e \/
  (_get_embedding zero post prompt = Some e /\ e <> []) ->
  pad_embedding e target = Padded e.
Proof.
  intros H.
  assert (Hlen : length e = 1536).
  { destruct H as [H | [H Hne]].
    - destruct (generate_embedding_pads _ _ _ _ H) as (v & _ & Hv & Hpad).
      destruct (pad_embedding_nonempty v 1536 Hv) as (e' & He' & Hsize & _).
      change (Z.of_nat 1536) with 1536%Z in He'.
      rewrite Hpad in He'. now injection He' as <-.
    - unfold _get_embedding in H.
      destruct (post (truncate_prompt prompt)) as [[code emb]|]; [|discriminate].
      cbn [status_code embedding_field] in H.
      destruct (code =? 200)%Z; [|discriminate].
      destruct emb as [v|]; [|discriminate].
      cbn [fmap option_fmap option_map] in H. injection H as <-.
      apply fix_dimension_length. intros ->. now apply Hne. }
  unfold pad_embedding, target. rewrite Hlen. reflexivity.
Qed.

Lemma pad_embedding_after_normalisation_witness :
  pad_embedding (Inputs.ones ++ repeat 0%Q 1036) target
  = Padded (Inputs.ones ++ repeat 0%Q 1036).
Proof.
  apply (pad_embedding_after_normalisation 0%Q Inputs.post_ones (py "title")).
  right. split; [vm_compute; reflexivity | vm_compute; discriminate].
Defined.

End EmbeddingFacts.

(** ** More properties of the rate limiter *)

Module RateLimiterFacts.
Import PrimFloat Py FloatLimiter.

(** *** Readings that are not dyadic

    The difference of the doubles [1.1] and [0.1] is a little more than one,
    and it rounds to [1.0]: the entry is not yet expired, and it is kept. *)
Example evict_keeps_rounded_second :
  evict 1.1%float [0.1%float] = [0.1%float].
Proof. reflexivity. Qed.

Example full_window_rounded_to_expiry :
  wait_for_rate_limit 1 1.2%float (mk_limiter [0.2%float] [])
  = (Returned tt, mk_limiter [0.2%float; 1.2%float] []).
Proof. reflexivity. Qed.

(** The call of the example of the exact limiter, on doubles. *)
Example full_window_raises_at_half_second :
  wait_for_rate_limit 1 100.5%float (mk_limiter [100%float] [])
  = (Raised AttributeError, mk_limiter [100%float] []).
Proof. reflexivity. Qed.

Example full_window_raises_on_doubles :
  wait_for_rate_limit 1 1.1%float (mk_limiter [0.3%float] [])
  = (Raised AttributeError, mk_limiter [0.3%float] []).
Proof. reflexivity. Qed.

Example spacing_raises_on_doubles :
  wait_for_rate_limit 5 0.35%float (mk_limiter [0.3%float] [])
  = (Raised AttributeError, mk_limiter [0.3%float; 0.35%float] []).
Proof. reflexivity. Qed.

(** The first sleep is attempted, and raises, exactly under the test of the
    source: the window is full after eviction and the computed [sleep_time]
    is positive. *)
Lemma full_window_raises_on_floats (max_concurrent_requests : Z)
    (current_time : float) (st : limiter) (first : float) (rest : list float) :
  evict current_time (request_times st) = first :: rest ->
  (max_concurrent_requests <= Z.of_nat (length (first :: rest)))%Z ->
  (0 <? first + 1.0 - current_time)%float = true ->
  wait_for_rate_limit max_concurrent_requests current_time st
  = (Raised AttributeError, mk_limiter (first :: rest) (slept st)).
Proof.
  intros Hev Hfull Hfresh.
  unfold wait_for_rate_limit, wait_for_rate_limit_with,
    RateLimiter.time_in_crawl_many.
  unfold bind at 1. cbn [modify]. unfold bind at 1. cbn [gets request_times].
  rewrite Hev.
  assert (Hge : (Z.of_nat (length (first :: rest)) >=? max_concurrent_requests)%Z = true)
    by (apply Z.geb_le; lia).
  unfold bind at 1. rewrite Hge. cbn [when].
  rewrite Hfresh. reflexivity.
Qed.

(** X10. Eviction drops a leading run of the ledger and nothing else: every
    dropped entry passed the test [current_time - t > 1.0] of the loop, as
    the doubles compute it, and the entry now at the head, if there is one,
    fails it. *)
Theorem evict_drops_expired_prefix (current_time : float) (times : list float) :
  exists old,
    times = old ++ evict current_time times /\
    Forall (fun t => (1.0 <? current_time - t)%float = true) old /\
    match evict current_time times with
    | first :: _ => (1.0 <? current_time - first)%float = false
    | [] => True
    end.
Proof.
  induction times as [|t rest (old & Heq & Hold & Hhead)].
  - exists []. repeat split. constructor.
  - cbn [evict]. destruct (1.0 <? current_time - t)%float eqn:E.
    + exists (t :: old). split; [cbn; congruence|]. split; [|exact Hhead].
      constructor; [exact E | exact Hold].
    + exists []. split; [reflexivity|]. split; [constructor | exact E].
Qed.

(** X11. As [crawl_many] binds the name [time], [wait_for_rate_limit] never
    sleeps: whatever the ledger, the limit and the clock, no sleep is
    recorded; a call that returns has appended its own time stamp to the
    evicted ledger; a call that raises has left the evicted ledger with or
    without that time stamp; and nothing but [AttributeError] or
    [IndexError] is raised. *)
Theorem limiter_never_sleeps (max_concurrent_requests : Z) (current_time : float)
    (st : limiter) :
  let r := wait_for_rate_limit max_concurrent_requests current_time st in
  let kept := evict current_time (request_times st) in
  slept r.2 = slept st /\
  match r.1 with
  | Returned _ => request_times r.2 = kept ++ [current_time]
  | Raised e =>
    (e = AttributeError \/ e = IndexError) /\
    (request_times r.2 = kept \/ request_times r.2 = kept ++ [current_time])
  end.
Proof.
  unfold wait_for_rate_limit, wait_for_rate_limit_with,
    RateLimiter.time_in_crawl_many.
  unfold bind, modify, gets, when, time_sleep, raise, ret.
  cbn [fst snd request_times slept].
  set (kept := evict current_time (request_times st)).
  destruct (Z.of_nat (length kept) >=? max_concurrent_requests)%Z.
  - destruct kept as [|first rest] eqn:Hk; cbn [fst snd request_times slept].
    + split; [reflexivity|]. split; [now right | now left].
    + destruct (0 <? first + 1.0 - current_time)%float;
        cbn [fst snd request_times slept].
      * split; [reflexivity|]. split; [now left | now left].
      * destruct (PyStr.truthy _ && _); cbn [fst snd request_times slept];
          [|now split].
        destruct (rev _) as [|a [|b l]]; cbn [fst snd request_times slept];
          try (split; [reflexivity|]; split; [now right | now right]).
        destruct (_ <? _)%float; cbn [fst snd request_times slept].
        -- split; [reflexivity|]. split; [now left | now right].
        -- now split.
  - cbn [fst snd request_times slept].
    destruct (PyStr.truthy _ && _); cbn [fst snd request_times slept];
      [|now split].
    destruct (rev _) as [|a [|b l]]; cbn [fst snd request_times slept];
      try (split; [reflexivity|]; split; [now right | now right]).
    destruct (_ <? _)%float; cbn [fst snd request_times slept].
    + split; [reflexivity|]. split; [now left | now right].
    + now split.
Qed.

End RateLimiterFacts.

(** ** Relations the engine respects *)

Module EngineForward.
Import PyStr Py PyProps Engine EngineTerms EngineProps.

(** *** Every relation the elementary steps respect

    [R] is any preorder on engine states that holds between a state and the
    state after one elementary update. Then it holds across [verify_links],
    across [crawl_many], and across any sequence of calls. *)

Section Forward.
Context (R : relation state) `{!PreOrder R}.
Hypothesis R_log : forall e s, R s (log e s).
Hypothesis R_add_visited : forall url s, R s (add_visited url s).
Hypothesis R_store_result : forall url p s, R s (store_result url p s).
Hypothesis R_set_allowed :
  forall a s, allowed_domains s = None -> R s (set_allowed (Some a) s).
Hypothesis R_set_results : forall r s, R s (set_results r s).
Hypothesis R_set_limiter : forall l s, R s (set_limiter l s).
Hypothesis R_tick : forall s, R s (tick s).

Lemma print_moves m : steady R (print m).
Proof. apply steady_modify. intros s. apply R_log. Qed.

Lemma callback_moves cb m : steady R (callback cb m).
Proof.
  apply steady_when; [exact _|]. apply steady_modify. intros s. apply R_log.
Qed.

Lemma process_page_moves w url : steady R (_process_page w url).
Proof.
  intros s. destruct (process_page_state w url s) as [Hs Hr].
  split; [|exact Hr]. rewrite Hs. unfold after_process.
  etransitivity; [apply (R_log (ProcessPage url))|].
  destruct (urlparse_raises w url); cbn [orb]; [reflexivity|].
  destruct (allowed_domains (log (ProcessPage url) s)) eqn:E; cbn [not_none].
  - reflexivity.
  - now apply R_set_allowed.
Qed.

Lemma visit_moves w max_depth cb url : steady R (visit w max_depth cb url).
Proof.
  unfold visit.
  apply steady_bind; [exact _ | apply print_moves | intros _].
  apply steady_bind; [exact _ | apply callback_moves | intros _].
  apply steady_bind; [exact _ | | intros _; apply process_page_moves].
  apply steady_modify. intros s. apply R_add_visited.
Qed.

Lemma report_page_moves cb url p : steady R (report_page cb url p).
Proof.
  unfold report_page.
  apply steady_when; [exact _|].
  apply steady_bind; [exact _ | | intros _].
  - apply steady_when; [exact _|].
    apply steady_bind; [exact _ | apply callback_moves |].
    intros _. apply callback_moves.
  - apply steady_when; [exact _|]. apply callback_moves.
Qed.

Lemma follow_links_moves (recurse : text -> M state py_ret) cb page_links :
  (forall link_url, steady R (recurse link_url)) ->
  steady R (follow_links recurse cb page_links).
Proof.
  intros Hrec. unfold follow_links.
  apply steady_for_enumerate; [exact _|]. intros i link_url.
  apply steady_bind; [exact _ | apply steady_gets; exact _ |].
  intros visited. apply steady_when; [exact _|].
  apply steady_try_except; [exact _ | |].
  - apply steady_grows.
    apply steady_bind; [exact _ | apply callback_moves | intros _].
    apply steady_bind; [exact _ | apply Hrec | intros _].
    apply steady_ret; exact _.
  - intros e.
    apply steady_bind; [exact _ | apply print_moves | intros _].
    apply callback_moves.
Qed.

Lemma verify_links_at_moves w depth : forall cb url,
  steady R (verify_links_at w depth cb url).
Proof.
  induction depth as [|depth IH]; intros cb url; cbn [verify_links_at];
    (apply steady_bind; [exact _ | apply steady_gets; exact _ |]);
    intros visited; (destruct (bool_decide _); [apply steady_ret; exact _|]);
    (apply steady_bind; [exact _ | apply visit_moves |]);
    intros [p|]; try (apply steady_ret; exact _);
    (apply steady_bind; [exact _ | | intros _]);
    try (apply steady_modify; intros s'; apply R_store_result);
    (apply steady_bind; [exact _ | apply report_page_moves | intros _]);
    (apply steady_bind; [exact _ | | intros _; apply steady_ret; exact _]).
  - apply steady_ret; exact _.
  - apply follow_links_moves. intros link_url. apply IH.
Qed.

Lemma verify_links_moves w url max_depth cb :
  steady R (verify_links w url max_depth cb).
Proof.
  unfold verify_links. destruct (max_depth <? 0)%Z.
  - apply steady_ret; exact _.
  - apply verify_links_at_moves.
Qed.

Lemma wait_for_rate_limit_moves w max_concurrent_requests :
  grows R (wait_for_rate_limit w max_concurrent_requests).
Proof.
  intros s. unfold grows_at, wait_for_rate_limit, bind, gets, modify, on_limiter.
  cbn [fst snd].
  destruct (RateLimiter.wait_for_rate_limit _ _ _) as [[[]|e] l]; cbn [snd];
    (etransitivity; [apply R_tick | apply R_set_limiter]).
Qed.

Lemma after_seed_moves w max_depth max_concurrent_requests cb url page :
  steady R (after_seed w max_depth max_concurrent_requests cb url page).
Proof.
  unfold after_seed. destruct page as [p|]; [|apply steady_ret; exact _].
  apply steady_bind; [exact _ | | intros _].
  { apply steady_modify. intros s. apply R_store_result. }
  apply steady_bind; [exact _ | | intros _; apply steady_ret; exact _].
  apply steady_when; [exact _|].
  apply steady_for_enumerate; [exact _|]. intros i link_url.
  apply steady_bind; [exact _ | apply steady_gets; exact _ | intros visited].
  apply steady_when; [exact _|].
  apply steady_try_except; [exact _ | |].
  - apply grows_bind; [exact _ | apply wait_for_rate_limit_moves | intros _].
    apply steady_grows.
    apply steady_bind; [exact _ | apply callback_moves | intros _].
    apply steady_bind; [exact _ | apply verify_links_moves | intros _].
    apply steady_ret; exact _.
  - intros e.
    apply steady_bind; [exact _ | apply print_moves | intros _].
    apply callback_moves.
Qed.

Lemma crawl_single_url_moves w max_depth max_concurrent_requests cb url :
  steady R (crawl_single_url w max_depth max_concurrent_requests cb url).
Proof.
  rewrite crawl_single_url_eq.
  apply steady_try_except; [exact _ | |].
  - apply grows_bind; [exact _ | apply wait_for_rate_limit_moves | intros _].
    apply steady_grows.
    apply steady_bind; [exact _ | apply callback_moves | intros _].
    apply steady_bind; [exact _ | apply process_page_moves |].
    apply after_seed_moves.
  - intros e.
    apply steady_bind; [exact _ | apply print_moves | intros _].
    apply steady_bind; [exact _ | apply callback_moves | intros _].
    apply steady_ret; exact _.
Qed.

(** The loop of [crawl_many] over its seeds, and what follows it. *)
Lemma crawl_many_tasks_move w urls max_depth max_concurrent_requests cb n :
  forall start,
  steady R
    (for_enumerate start urls (fun i url =>
       try_except
         (bind (crawl_single_url w max_depth max_concurrent_requests cb url)
            (fun result =>
               if not_none result
               then bind (print (MsgCompleted url (i + 1) n))
                      (fun _ => callback cb (MsgCompleted url (i + 1) n))
               else bind (print (MsgFailed url (i + 1) n))
                      (fun _ => callback cb (MsgFailed url (i + 1) n))))
         (fun e =>
            bind (print (MsgException url e))
              (fun _ => callback cb (MsgException url e))))).
Proof.
  apply steady_for_enumerate; [exact _|]. intros i url.
  apply steady_try_except; [exact _ | |].
  - apply steady_grows.
    apply steady_bind; [exact _ | apply crawl_single_url_moves |].
    intros result. destruct (not_none result);
      (apply steady_bind; [exact _ | apply print_moves | intros _]);
      apply callback_moves.
  - intros e.
    apply steady_bind; [exact _ | apply print_moves | intros _].
    apply callback_moves.
Qed.

Lemma crawl_many_moves w urls max_depth max_concurrent_requests cb :
  grows R (crawl_many w urls max_depth max_concurrent_requests cb).
Proof.
  unfold crawl_many. destruct (negb (truthy urls)).
  - apply steady_grows.
    apply steady_bind; [exact _ | apply print_moves | intros _].
    apply steady_bind; [exact _ | apply callback_moves | intros _].
    apply steady_ret; exact _.
  - apply grows_bind; [exact _ | apply steady_grows, print_moves | intros _].
    do 3 (apply grows_bind; [exact _ | apply steady_grows, callback_moves | intros _]).
    apply grows_bind; [exact _ | | intros _].
    { apply steady_grows, steady_modify. intros s. apply R_set_results. }
    apply grows_bind; [exact _ | | intros _].
    { apply steady_grows, steady_modify. intros s. apply R_set_limiter. }
    apply grows_bind; [exact _ | | intros _].
    { destruct (_ <=? _)%Z; [apply grows_raise | apply steady_grows, steady_ret];
        exact _. }
    apply steady_grows.
    apply steady_bind; [exact _ | apply crawl_many_tasks_move | intros _].
    apply steady_bind; [exact _ | apply steady_gets; exact _ | intros pages].
    apply steady_bind; [exact _ | apply print_moves | intros _].
    apply steady_bind; [exact _ | apply callback_moves | intros _].
    apply steady_gets; exact _.
Qed.

Lemma run_moves w calls : forall s, R s (run w calls s).
Proof.
  induction calls as [|c calls IH]; intros s; cbn [run fold_left].
  - reflexivity.
  - etransitivity; [|apply IH]. destruct c; cbn [perform].
    + apply verify_links_moves.
    + apply crawl_many_moves.
Qed.

End Forward.

End EngineForward.

(** ** More properties of the crawl engine *)

Module EngineFacts.
Import PyStr Py PyProps Engine EngineTerms EngineProps EngineForward Inputs
       EngineInputs PyStrProps.

(** *** The domain restriction is never changed *)

#[global] Instance keeps_allowed_preorder : PreOrder keeps_allowed.
Proof.
  split.
  - intros s a H. exact H.
  - intros s1 s2 s3 H1 H2 a H. apply H2, H1, H.
Qed.

(** X12. A domain restriction, once it is set (by the constructor or by the
    first page processed), is never changed by [verify_links] or
    [crawl_many], whatever is crawled afterwards. *)
Theorem allowed_domains_never_change (w : World) (calls : list call) (s : state)
    (a : list text) :
  allowed_domains s = Some a ->
  allowed_domains (run w calls s) = Some a.
Proof.
  intros H. revert a H. change (keeps_allowed s (run w calls s)).
  apply run_moves; try exact _; try (intros; intros a H; exact H).
  intros a s' Hnone b Hb. congruence.
Qed.

Lemma allowed_domains_never_change_witness :
  allowed_domains
    (run site [CallVerifyLinks home 1 true; CallCrawlMany [page_a] 1 1 false]
         engine0)
  = Some [py "site.test"].
Proof.
  apply (allowed_domains_never_change site
           [CallVerifyLinks home 1 true; CallCrawlMany [page_a] 1 1 false]
           engine0 [py "site.test"]).
  reflexivity.
Defined.

(** *** [verify_links] alone *)

Lemma run_verify_links_once w calls : forall s,
  only_verify_links calls -> once s -> once (run w calls s).
Proof.
  induction calls as [|c calls IH]; intros s Hc Hs; [exact Hs|].
  apply Forall_cons in Hc as [Hv Hc]. cbn [run fold_left].
  apply IH; [exact Hc|].
  destruct c; [|contradiction]. cbn [perform]. now apply verify_links_once.
Qed.

(** X13. On a new crawler, any sequence of [verify_links] calls, on whatever
    URLs and to whatever depths, calls [_process_page] at most once on each
    URL. *)
Theorem verify_links_never_reprocesses (w : World) (allowed : option (list text))
    (calls : list call) (url : text) :
  only_verify_links calls ->
  times_processed url (run w calls (fresh allowed)) <= 1.
Proof.
  intros Hc. apply once_times_processed.
  apply run_verify_links_once; [exact Hc | apply fresh_once].
Qed.

Lemma verify_links_never_reprocesses_witness :
  times_processed home
    (run site [CallVerifyLinks home 2 false; CallVerifyLinks page_a 2 true;
               CallVerifyLinks home 0 true]
         (fresh (Some [py "site.test"]))) <= 1.
Proof.
  apply (verify_links_never_reprocesses site (Some [py "site.test"])
           [CallVerifyLinks home 2 false; CallVerifyLinks page_a 2 true;
            CallVerifyLinks home 0 true] home).
  repeat constructor.
Defined.

(** *** What [crawl_many] returns *)

Lemma steady_returns {St A} (R : relation St) (m : M St A) s :
  steady R m -> exists a, (m s).1 = Returned a.
Proof. intros H. apply H. Qed.

Lemma yields_gets {St A} (f : St -> A) : yields f (gets f).
Proof. intros s. reflexivity. Qed.

Lemma yields_bind {St A B} (f : St -> B) (m : M St A) (k : A -> M St B) :
  (forall a, yields f (k a)) -> yields f (bind m k).
Proof.
  intros Hk s. unfold bind. destruct (m s) as [[a|e] s']; [apply Hk | exact I].
Qed.

(** The tasks of [crawl_many] and what follows them. *)
Lemma crawl_many_eq w url rest max_depth max_concurrent_requests cb s :
  let urls := url :: rest in
  crawl_many w urls max_depth max_concurrent_requests cb s
  = if (max_concurrent_requests <=? 0)%Z
    then (Raised ValueError,
          tasks_start urls max_depth max_concurrent_requests cb s)
    else
      bind
        (for_enumerate 0 urls (fun i url =>
           try_except
             (bind (crawl_single_url w max_depth max_concurrent_requests cb url)
                (fun result =>
                   if not_none result
                   then bind (print (MsgCompleted url (i + 1) (length urls)))
                          (fun _ => callback cb (MsgCompleted url (i + 1) (length urls)))
                   else bind (print (MsgFailed url (i + 1) (length urls)))
                          (fun _ => callback cb (MsgFailed url (i + 1) (length urls)))))
             (fun e =>
                bind (print (MsgException url e))
                  (fun _ => callback cb (MsgException url e)))))
        (fun _ =>
           bind (gets (fun st => size (results st))) (fun pages =>
           bind (print (MsgMultiCompleted pages (length urls))) (fun _ =>
           bind (callback cb (MsgMultiCompleted pages (length urls))) (fun _ =>
           gets results))))
        (tasks_start urls max_depth max_concurrent_requests cb s).
Proof.
  intros urls. unfold crawl_many, tasks_start. fold urls.
  cbn [truthy negb urls].
  destruct cb, (max_concurrent_requests <=? 0)%Z; reflexivity.
Qed.

Lemma add_visited_extends url s : extends s (add_visited url s).
Proof.
  split; cbn [add_visited visited_urls trace].
  - apply union_subseteq_r.
  - now apply prefix_app_r.
Qed.

Lemma log_extends e s : extends s (log e s).
Proof. split; [reflexivity | now apply prefix_app_r]. Qed.

#[local] Ltac by_extends :=
  first [ exact _
        | apply log_extends
        | apply add_visited_extends
        | intros; now apply same_view_extends ].

(** X14. [crawl_many] on an empty list returns an empty dictionary and
    leaves the stored results alone. On a non-empty list it first discards
    the stored results; it then raises [ValueError] when
    [max_concurrent_requests] is not positive, and otherwise returns
    normally, whatever happens inside its tasks, and what it returns is the
    [results] dictionary of the engine. *)
Theorem crawl_many_outcome (w : World) (urls : list text)
    (max_depth max_concurrent_requests : Z) (cb : bool) (s : state) :
  let r := crawl_many w urls max_depth max_concurrent_requests cb s in
  match urls with
  | [] => r.1 = Returned ∅ /\ results r.2 = results s
  | _ :: _ =>
    if (max_concurrent_requests <=? 0)%Z
    then r.1 = Raised ValueError /\ results r.2 = ∅
    else r.1 = Returned (results r.2)
  end.
Proof.
  destruct urls as [|url rest].
  - cbn. now destruct cb.
  - cbv zeta. rewrite crawl_many_eq. cbv zeta.
    destruct (max_concurrent_requests <=? 0)%Z.
    + split; [reflexivity|]. unfold tasks_start. now destruct cb.
    + set (s0 := tasks_start _ _ _ _ _).
      match goal with |- (?m s0).1 = _ =>
        assert (Hret : exists v, (m s0).1 = Returned v);
        [|assert (Hval : yields results m)] end.
      * apply (steady_returns extends).
        apply steady_bind; [exact _ | | intros _].
        -- apply crawl_many_tasks_move; by_extends.
        -- apply steady_bind; [exact _ | apply steady_gets; exact _ | intros pages].
           apply steady_bind; [exact _ | apply print_forward | intros _].
           apply steady_bind; [exact _ | apply callback_forward | intros _].
           apply steady_gets; exact _.
      * apply yields_bind. intros _. apply yields_bind. intros pages.
        apply yields_bind. intros _. apply yields_bind. intros _.
        apply yields_gets.
      * destruct Hret as [v Hv]. specialize (Hval s0).
        rewrite Hv in Hval |- *. now rewrite Hval.
Qed.

(** *** A task that is refused by the rate limiter *)

(** X15. When the rate limiter raises in a task of [crawl_many], the task
    gives up on its seed: it reports the error, returns [None], and the seed
    is neither processed, nor marked as visited, nor stored. *)
Theorem crawl_single_url_gives_up (w : World)
    (max_depth max_concurrent_requests : Z) (cb : bool) (url : text) (s : state)
    (e : exn) :
  (wait_for_rate_limit w max_concurrent_requests s).1 = Raised e ->
  let r := crawl_single_url w max_depth max_concurrent_requests cb url s in
  r.1 = Returned None /\
  trace r.2 = trace s ++ gave_up cb url e /\
  visited_urls r.2 = visited_urls s /\
  results r.2 = results s.
Proof.
  intros Hgate.
  destruct (wait_for_rate_limit_view w max_concurrent_requests s) as [Hv Ht].
  assert (Hr : results (wait_for_rate_limit w max_concurrent_requests s).2
               = results s).
  { unfold wait_for_rate_limit, bind, gets, modify, on_limiter. cbn [fst snd].
    now destruct (RateLimiter.wait_for_rate_limit _ _ _) as [[[]|e'] l]. }
  set (s1 := (wait_for_rate_limit w max_concurrent_requests s).2) in *.
  assert (E : crawl_single_url w max_depth max_concurrent_requests cb url s
              = bind (print (MsgErrorCrawling url e)) (fun _ =>
                bind (callback cb (MsgErrorCrawling url e)) (fun _ => ret None))
                  s1).
  { rewrite crawl_single_url_eq. unfold try_except. unfold bind at 1.
    unfold s1. destruct (wait_for_rate_limit w max_concurrent_requests s) as [o s'].
    cbn [fst snd] in Hgate |- *. now subst o. }
  cbv zeta. rewrite E.
  unfold gave_up, bind, print, callback, when, modify, ret.
  destruct cb; cbn [fst snd log trace visited_urls results];
    rewrite Ht; repeat split; try assumption; now rewrite <- ?app_assoc.
Qed.

Lemma crawl_single_url_gives_up_witness :
  let r := crawl_single_url site 1 1 true home busy in
  r.1 = Returned None /\
  trace r.2 = trace busy ++ gave_up true home AttributeError /\
  visited_urls r.2 = visited_urls busy /\
  results r.2 = results busy.
Proof.
  apply (crawl_single_url_gives_up site 1 1 true home busy AttributeError).
  reflexivity.
Defined.

(** *** The first task *)

Lemma empty_ledger_passes max_concurrent_requests current_time sl :
  (0 < max_concurrent_requests)%Z ->
  RateLimiter.wait_for_rate_limit max_concurrent_requests current_time
    (RateLimiter.mk_limiter [] sl)
  = (Returned tt, RateLimiter.mk_limiter [current_time] sl).
Proof.
  intros Hpos.
  unfold RateLimiter.wait_for_rate_limit, RateLimiter.wait_for_rate_limit_with.
  unfold bind at 1. cbn [modify RateLimiter.request_times RateLimiter.evict].
  unfold bind at 1. cbn [gets RateLimiter.request_times].
  change (Z.of_nat (length (@nil Q))) with 0%Z.
  destruct (Z.geb_spec 0 max_concurrent_requests) as [Hge|_]; [lia|].
  reflexivity.
Qed.

Lemma first_request_passes w max_concurrent_requests s :
  (0 < max_concurrent_requests)%Z ->
  RateLimiter.request_times (limiter s) = [] ->
  (wait_for_rate_limit w max_concurrent_requests s).1 = Returned tt.
Proof.
  intros Hpos Hempty.
  unfold wait_for_rate_limit, bind, gets, modify, on_limiter.
  cbn [fst snd tick limiter].
  destruct (limiter s) as [times sl]. cbn [RateLimiter.request_times] in Hempty.
  subst times. now rewrite empty_ledger_passes.
Qed.

Lemma grows_from {St A B} (R : relation St) (m : M St A) (k : A -> M St B) s :
  (exists a, (m s).1 = Returned a) ->
  (forall a, grows R (k a)) ->
  R (m s).2 (bind m k s).2.
Proof.
  intros [a Ha] Hk. unfold bind. destruct (m s) as [o s'].
  cbn [fst snd] in *. subst o. apply Hk.
Qed.

Lemma try_except_returned {St A} (m : M St A) (h : exn -> M St A) s :
  (exists a, (m s).1 = Returned a) -> try_except m h s = m s.
Proof.
  intros [a Ha]. unfold try_except. destruct (m s) as [o s'].
  cbn [fst] in Ha. now subst o.
Qed.

(** X16. With at least one worker, [crawl_many] always calls
    [_process_page] on its first seed: the ledger of the rate limiter is
    empty when the first task starts, so the first task is never refused. *)
Theorem crawl_many_processes_first_seed (w : World) (url : text)
    (rest : list text) (max_depth max_concurrent_requests : Z) (cb : bool)
    (s : state) :
  (0 < max_concurrent_requests)%Z ->
  exists before later,
    trace (crawl_many w (url :: rest) max_depth max_concurrent_requests cb s).2
    = trace s ++ before ++ ProcessPage url :: later /\
    processed before = [].
Proof.
  intros Hpos. rewrite crawl_many_eq. cbv zeta.
  destruct (Z.leb_spec max_concurrent_requests 0) as [Hle|_]; [lia|].
  set (n := length (url :: rest)).
  set (s0 := tasks_start (url :: rest) max_depth max_concurrent_requests cb s).
  destruct (crawl_single_url_processes_seed w max_depth max_concurrent_requests
              cb url s0) as [later1 Hseed].
  { apply first_request_passes; [exact Hpos|]. unfold s0, tasks_start.
    reflexivity. }
  set (task := crawl_single_url w max_depth max_concurrent_requests cb url) in *.
  assert (Hsteady : steady extends task)
    by (apply crawl_single_url_moves; by_extends).
  assert (Htask : exists a, (task s0).1 = Returned a) by apply Hsteady.
  cbn [for_enumerate]. fold task.
  match goal with
  | |- context [bind (bind (try_except (bind task ?k) ?h) ?loop) ?tail] =>
    set (report := k); set (handler := h); set (others := loop);
    set (finish := tail)
  end.
  assert (Hreport : forall a, steady extends (report a)).
  { intros a. unfold report. destruct (not_none a);
      (apply steady_bind; [exact _ | apply print_forward | intros _]);
      apply callback_forward. }
  assert (H1 : extends (task s0).2 (bind task report s0).2).
  { apply (grows_from extends); [exact Htask|]. intros a. apply steady_grows, Hreport. }
  assert (Hfirst : steady extends (bind task report))
    by (apply steady_bind; [exact _ | exact Hsteady | exact Hreport]).
  assert (Hbody : try_except (bind task report) handler s0 = bind task report s0)
    by (apply try_except_returned, Hfirst).
  assert (Hothers : forall a, steady extends (others a)).
  { intros a. unfold others.
    apply crawl_many_tasks_move; by_extends. }
  assert (H2 : extends (bind task report s0).2
                 (bind (try_except (bind task report) handler) others s0).2).
  { rewrite <- Hbody at 1. apply (grows_from extends).
    - rewrite Hbody. apply Hfirst.
    - intros a. apply steady_grows, Hothers. }
  assert (H3 : extends (bind (try_except (bind task report) handler) others s0).2
                 (bind (bind (try_except (bind task report) handler) others)
                       finish s0).2).
  { apply (grows_from extends).
    - apply (steady_returns extends).
      apply steady_bind; [exact _ | | exact Hothers].
      apply steady_try_except; [exact _ | |].
      + apply steady_grows, Hfirst.
      + intros e. unfold handler.
        apply steady_bind; [exact _ | apply print_forward | intros _].
        apply callback_forward.
    - intros a. unfold finish. apply steady_grows.
      apply steady_bind; [exact _ | apply steady_gets; exact _ | intros pages].
      apply steady_bind; [exact _ | apply print_forward | intros _].
      apply steady_bind; [exact _ | apply callback_forward | intros _].
      apply steady_gets; exact _. }
  destruct (transitivity H1 (transitivity H2 H3)) as [_ [later2 Hlater]].
  rewrite Hlater, Hseed.
  assert (Hstart : exists evs, trace s0 = trace s ++ evs /\ processed evs = []).
  { unfold s0, tasks_start. destruct cb; cbn [set_limiter set_results log trace].
    - eexists. rewrite <- !app_assoc. split; [reflexivity | reflexivity].
    - eexists. split; [reflexivity | reflexivity]. }
  destruct Hstart as (evs & -> & Hevs).
  exists (evs ++ (if cb then [Callback (MsgProcessingSeed url)] else [])),
         (later1 ++ later2).
  split.
  - rewrite <- !app_assoc. reflexivity.
  - rewrite processed_app, Hevs. now destruct cb.
Qed.

Lemma crawl_many_processes_first_seed_witness :
  exists before later,
    trace (crawl_many site [home; page_a] 1 1 true engine0).2
    = trace engine0 ++ before ++ ProcessPage home :: later /\
    processed before = [].
Proof.
  apply (crawl_many_processes_first_seed site home [page_a] 1 1 true engine0).
  lia.
Defined.

(** *** The record of a page *)

Lemma existsb_false_Forall {A} (f : A -> bool) (l : list A) :
  existsb f l = false -> Forall (fun x => f x = false) l.
Proof.
  induction l as [|x l IH]; cbn [existsb]; [constructor|].
  intros [Hx Hl]%orb_false_iff. constructor; [exact Hx | now apply IH].
Qed.

Lemma page_links_allowed w base_url allowed html :
  Forall (fun link =>
            link_allowed w link allowed = true /\
            Forall (fun ext => endswith ext (lower w link) = false)
                   asset_extensions)
         (page_links w base_url allowed html).
Proof.
  unfold page_links. induction (hrefs w html) as [|href l IH]; [constructor|].
  cbn [flat_map]. apply Forall_app. split; [|exact IH].
  destruct (_ || _); [constructor|].
  destruct (link_allowed _ _ _) eqn:Hl; cbn [andb]; [|constructor].
  destruct (existsb _ _) eqn:Ha; cbn [negb]; constructor; [|constructor].
  split; [exact Hl | now apply existsb_false_Forall].
Qed.

Lemma get_embedding_length {float : Type} (zero : float) post prompt
    (e : list float) :
  Embedding._get_embedding zero post prompt = Some e -> e <> [] ->
  length e = 1536.
Proof.
  unfold Embedding._get_embedding.
  destruct (post _) as [[code emb]|]; [|discriminate].
  cbn [Embedding.status_code Embedding.embedding_field].
  destruct (code =? 200)%Z; [|discriminate].
  destruct emb as [v|]; [|discriminate].
  cbn [fmap option_fmap option_map]. intros [= <-] Hne.
  apply EmbeddingProps.fix_dimension_length. intros ->. now apply Hne.
Qed.

Lemma build_page_ok w url allowed c :
  record_ok w url allowed (build_page w url allowed c).
Proof.
  unfold record_ok, build_page.
  cbn [page_url status chunk_count page_chunks word_count page_markdown
       embedding links].
  repeat split; [|apply page_links_allowed].
  intros e. destruct (truthy (markdown c)); [|discriminate].
  destruct (Embedding._get_embedding _ _ _) as [e'|] eqn:He; [|discriminate].
  destruct (truthy e') eqn:Ht; [|discriminate]. intros [= <-].
  apply (get_embedding_length _ _ _ _ He).
  now apply ChunkerProps.truthy_length.
Qed.

Lemma check_allowed_existsb w (matches : text -> bool) allowed b :
  check_allowed w matches allowed = Some b ->
  existsb (fun allowed_domain =>
             matches (if is_http_url allowed_domain
                      then netloc w allowed_domain else allowed_domain))
          allowed = b.
Proof.
  induction allowed as [|a rest IH]; cbn [check_allowed existsb].
  - now intros [= <-].
  - destruct (is_http_url a && urlparse_raises w a); [discriminate|].
    destruct (matches _); [now intros [= <-] | exact IH].
Qed.

(** X17. Whenever [_process_page] returns a record, the domain of the URL
    passed the domain check, its content could be extracted, and the record
    is about that URL: it carries the URL and the status [accessible], its
    counters are the number of its chunks and of the words of its markdown,
    its embedding, if it has one, has 1536 values, and every link in it
    passed the domain check for links and has none of the five asset
    extensions. *)
Theorem process_page_record (w : World) (url : text) (s : state) (p : page_info) :
  (_process_page w url s).1 = Returned (Some p) ->
  let allowed := default [] (allowed_domains (_process_page w url s).2) in
  record_ok w url allowed p /\
  url_allowed w (strip_www (netloc w url)) allowed = true /\
  exists c, _extract_content w url = Some c.
Proof.
  unfold _process_page, bind, modify, gets, when, ret.
  cbn [fst snd log allowed_domains].
  destruct (urlparse_raises w url); cbn [fst snd log allowed_domains];
    [discriminate|].
  destruct (allowed_domains s) as [a|]; cbn [not_none negb fst snd];
    cbn [set_allowed log allowed_domains default];
    destruct (check_allowed _ _ _) as [[|]|] eqn:Hu; cbn [fst snd];
    try discriminate;
    destruct (_extract_content w url) as [c|] eqn:Hc; cbn [fst snd];
    try discriminate;
    destruct (links_raise _ _ _ _); cbn [fst snd]; try discriminate;
    intros [= <-]; cbn [allowed_domains default];
    (split; [apply build_page_ok
            | split; [exact (check_allowed_existsb _ _ _ _ Hu) | now exists c]]).
Qed.

Lemma process_page_record_witness :
  let allowed := default [] (allowed_domains (_process_page site home engine0).2) in
  record_ok site home allowed home_info /\
  url_allowed site (strip_www (netloc site home)) allowed = true /\
  exists c, _extract_content site home = Some c.
Proof.
  apply (process_page_record site home engine0 home_info).
  vm_compute. reflexivity.
Defined.

(** *** The domain rule *)

Lemma domain_matches_spec (domain allowed_domain : text) :
  domain_matches domain allowed_domain = true <->
  domain = allowed_domain \/
  exists sub, domain = sub ++ py "." ++ allowed_domain.
Proof.
  unfold domain_matches. rewrite orb_true_iff, bool_decide_eq_true.
  now rewrite endswith_spec.
Qed.

Lemma domain_matches_longer domain allowed_domain :
  length domain < length allowed_domain ->
  domain_matches domain allowed_domain = false.
Proof.
  intros Hlen. apply not_true_is_false. intros H.
  apply domain_matches_spec in H as [-> | [sub ->]]; [lia|].
  rewrite !length_app in Hlen. lia.
Qed.

(** A host matches itself with a leading [www.] dropped. *)
Lemma domain_matches_strip_www domain :
  domain_matches domain (strip_www domain) = true.
Proof.
  apply domain_matches_spec. unfold strip_www.
  destruct (startswith (py "www.") domain) eqn:E.
  - apply startswith_spec in E as [t ->]. right. now exists (py "www").
  - now left.
Qed.

(** Where [urlparse] raises on the URL, nothing is assigned and nothing is
    returned; where [urljoin] raises on an anchor, nothing is returned after
    the content has been extracted. *)
Example process_page_unparsable_url :
  _process_page broken bracket (fresh None)
  = (Returned None, log (ProcessPage bracket) (fresh None)).
Proof. reflexivity. Qed.

Example process_page_unparsable_link :
  _extract_content broken home <> None /\
  _process_page broken home engine0
  = (Returned None, log (ProcessPage home) engine0).
Proof. split; [discriminate | reflexivity]. Qed.

(** X18. On a crawler without a domain restriction, [_process_page] on a
    URL that [urlparse] reads makes the host of the URL, without a leading
    [www.], the one allowed domain, and the URL itself always passes the
    check that follows: the call returns a record exactly when the content
    can be extracted and the loop over its links does not raise. On a URL
    on which [urlparse] raises, the restriction stays unset and nothing is
    returned. *)
Theorem first_page_sets_allowed_domain (w : World) (url : text) (s : state) :
  allowed_domains s = None ->
  is_http_url (strip_www (netloc w url)) = false ->
  let domain := strip_www (netloc w url) in
  let r := _process_page w url s in
  if urlparse_raises w url
  then allowed_domains r.2 = None /\ r.1 = Returned None
  else
    allowed_domains r.2 = Some [domain] /\
    r.1 = Returned (match _extract_content w url with
                    | Some c =>
                      if links_raise w url [domain] (cleaned_html c)
                      then None
                      else Some (build_page w url [domain] c)
                    | None => None
                    end).
Proof.
  intros Hnone Hhttp domain.
  assert (Hok : check_allowed w (fun a => domain_matches domain (strip_www a))
                  [domain] = Some true).
  { cbn [check_allowed]. fold domain in Hhttp. rewrite Hhttp. cbn [andb].
    now rewrite domain_matches_strip_www. }
  unfold _process_page, bind, modify, gets, when, ret.
  cbn [fst snd log allowed_domains].
  destruct (urlparse_raises w url); cbn [fst snd log allowed_domains];
    [now split|].
  rewrite Hnone.
  cbn [not_none negb fst snd set_allowed log allowed_domains default].
  fold domain. unfold id. rewrite Hok.
  destruct (_extract_content w url) as [c|]; [|now split].
  now destruct (links_raise _ _ _ _).
Qed.

Lemma first_page_sets_allowed_domain_witness :
  let domain := strip_www (netloc site home) in
  let r := _process_page site home (fresh None) in
  allowed_domains r.2 = Some [domain] /\
  r.1 = Returned (match _extract_content site home with
                  | Some c =>
                    if links_raise site home [domain] (cleaned_html c)
                    then None
                    else Some (build_page site home [domain] c)
                  | None => None
                  end).
Proof.
  apply (first_page_sets_allowed_domain site home (fresh None)); reflexivity.
Defined.

(** X19. The check of a page's own URL drops a leading [www.] from the
    entries of [allowed_domains]; the check of the links on a page does not.
    With the single entry [www.] + name, a page on the host name passes the
    first check, and a link to the same host fails the second. *)
Theorem www_entry_blocks_bare_links (w : World) (url link name : text) :
  netloc w url = name ->
  netloc w link = name ->
  startswith (py "www.") name = false ->
  url_allowed w (strip_www (netloc w url)) [py "www." ++ name] = true /\
  link_allowed w link [py "www." ++ name] = false.
Proof.
  intros Hu Hl Hbare.
  unfold url_allowed, link_allowed. cbn [existsb].
  change (is_http_url (py "www." ++ name)) with false. cbv iota.
  rewrite Hu, Hl, !orb_false_r. split.
  - unfold strip_www at 2. change (startswith (py "www.") (py "www." ++ name)) with true.
    cbv iota. change (drop 4 (py "www." ++ name)) with name.
    unfold strip_www. rewrite Hbare.
    apply domain_matches_spec. now left.
  - apply domain_matches_longer. rewrite length_app. cbn. lia.
Qed.

Lemma www_entry_blocks_bare_links_witness :
  url_allowed hosts (strip_www (netloc hosts (py "https://example.com/")))
    [py "www." ++ py "example.com"] = true /\
  link_allowed hosts (py "https://example.com/docs")
    [py "www." ++ py "example.com"] = false.
Proof.
  apply (www_entry_blocks_bare_links hosts (py "https://example.com/")
           (py "https://example.com/docs") (py "example.com"));
    reflexivity.
Defined.

End EngineFacts.

(** ** More properties of the sitemap parser *)

Module SitemapFacts.
Import PyStr Py Sitemap SitemapTerms SitemapProps Inputs.

Lemma for_extend_prints (body : text -> M (list log_line) (list text))
    (vals : text -> list text) (lns : text -> list log_line) (l : list text) :
  (forall u, prints (body u) (vals u) (lns u)) ->
  forall acc, prints (for_extend l body acc)
                (acc ++ flat_map vals l) (flat_map lns l).
Proof.
  intros Hbody. induction l as [|u l IH]; intros acc out; cbn [for_extend flat_map].
  - unfold ret. now rewrite !app_nil_r.
  - unfold bind. rewrite Hbody, IH. now rewrite <- !app_assoc.
Qed.

(** What was printed before a call does not matter to it. *)
Lemma parse_sitemap_prints web calls_left : forall sitemap_url,
  prints (parse_sitemap web calls_left sitemap_url)
         (urls_of web calls_left sitemap_url)
         (lines_of web calls_left sitemap_url).
Proof.
  induction calls_left as [|n IH]; intros url out;
    unfold urls_of, lines_of; cbn [parse_sitemap];
    unfold try_except, bind, fetch, parse_xml, print, modify, ret, raise;
    (destruct (get web url) as [|code body]; [reflexivity|]);
    (destruct (_ && _); [reflexivity|]);
    (destruct (fromstring web body) as [root|]; [|reflexivity]);
    (destruct (endswith (py "urlset") (tag root)); [reflexivity|]);
    (destruct (endswith (py "sitemapindex") (tag root));
      [|destruct (_ || _); reflexivity]).
  - reflexivity.
  - rewrite (for_extend_prints _ _ _ _ IH [] out),
            (for_extend_prints _ _ _ _ IH [] []).
    cbn [app fst snd]. now rewrite <- !app_assoc.
Qed.

(** X20. [parse_sitemap] never raises, whatever the network and the parser
    do and however deep the indexes nest. It only adds to what is printed,
    and the last line it prints tells how the call ended: the number of URLs
    it returns, or the error, in which case it returns the empty list. *)
Theorem parse_sitemap_always_returns (web : Web) (calls_left : nat)
    (sitemap_url : text) (out : list log_line) :
  exists urls lines,
    parse_sitemap web calls_left sitemap_url out = (Returned urls, out ++ lines) /\
    reported sitemap_url urls lines.
Proof.
  exists (urls_of web calls_left sitemap_url), (lines_of web calls_left sitemap_url).
  split; [apply parse_sitemap_prints|].
  unfold reported, urls_of, lines_of.
  destruct calls_left as [|n]; cbn [parse_sitemap];
    unfold try_except, bind, fetch, parse_xml, print, modify, ret, raise;
    (destruct (get web sitemap_url) as [|code body];
      [right; split; [reflexivity | now eexists]|]);
    (destruct (_ && _); [right; split; [reflexivity | now eexists]|]);
    (destruct (fromstring web body) as [root|];
      [|right; split; [reflexivity | now eexists]]);
    (destruct (endswith (py "urlset") (tag root)); [now left|]);
    (destruct (endswith (py "sitemapindex") (tag root));
      [|destruct (_ || _); now left]).
  - right. split; [reflexivity | now eexists].
  - rewrite (for_extend_prints _ _ _ _ (parse_sitemap_prints web n) [] []).
    left. cbn [app fst snd]. apply last_snoc.
Qed.

(** X21. On a sitemap index, [parse_sitemap] returns the URLs of the
    sitemaps the index lists, one sitemap after the other in the order of
    the index; a sitemap that fails contributes nothing and costs the others
    nothing. *)
Theorem sitemap_index_concatenates (web : Web) (calls_left : nat)
    (sitemap_url : text) (root : element) (out : list log_line) :
  is_index web sitemap_url root ->
  (parse_sitemap web (S calls_left) sitemap_url out).1
  = Returned (flat_map (urls_of web calls_left) (locs (py "sitemap") root)).
Proof.
  intros (code & body & Hget & Hok & Hparse & Hset & Hindex).
  cbn [parse_sitemap].
  unfold try_except, bind, fetch, parse_xml, print, modify, ret, raise.
  rewrite Hget.
  destruct (Z.leb_spec 400 code), (Z.ltb_spec code 600); cbn [andb];
    try (exfalso; apply Hok; lia);
    rewrite Hparse, Hset, Hindex;
    now rewrite (for_extend_prints _ _ _ _ (parse_sitemap_prints web calls_left) [] out).
Qed.

Lemma sitemap_index_concatenates_witness :
  exists root,
    (parse_sitemap web 3 (py "https://site.test/index.xml") []).1
    = Returned (flat_map (urls_of web 2) (locs (py "sitemap") root)).
Proof.
  eexists.
  apply (sitemap_index_concatenates web 2 (py "https://site.test/index.xml")).
  unfold is_index. eexists _, _.
  change (get web (py "https://site.test/index.xml"))
    with (HttpResponse 200 (py "<sitemapindex>")).
  split; [reflexivity|]. split; [lia|].
  split; [reflexivity|]. split; reflexivity.
Defined.

End SitemapFacts.

(** ** Properties of the API bridge *)

Module ApiProps.
Import PyStr Job Api JobProps.

(** *** The counter of pages *)

Lemma success_message_marked url :
  contains success_marker (check_mark ++ py " Successfully processed: " ++ url)
  = true.
Proof. reflexivity. Qed.

(** X22. The counter [pages_crawled] of a job counts every successfully
    processed page at least twice: once when the page starts, and once more
    for its success message. *)
Theorem pages_crawled_counts_success_twice (max_pages : Z) (url : text)
    (p : Engine.page_info) (j : JobState) :
  (pages_crawled j + 2
   <= pages_crawled (process_page_with_progress max_pages url (Some p) j))%Z.
Proof.
  unfold process_page_with_progress.
  cbn [status progress current_page pages_crawled progress_logs].
  pose proof (sync_pages (py "Processing page: " ++ url) j) as H0.
  set (j0 := sync_update_progress (py "Processing page: " ++ url) j) in *.
  set (j1 := mk_job _ (fraction _ _) _ _ _).
  assert (H1 : pages_crawled j1 = (pages_crawled j0 + 1)%Z) by reflexivity.
  set (j2 := sync_update_progress
               (check_mark ++ py " Successfully processed: " ++ url) j1).
  assert (H2 : pages_crawled j2 = (pages_crawled j1 + 1)%Z).
  { unfold j2, sync_update_progress. now rewrite success_message_marked. }
  pose proof (sync_pages (py "  Title: " ++ Engine.title p) j2) as H3.
  set (j3 := sync_update_progress (py "  Title: " ++ Engine.title p) j2) in *.
  destruct (not_none (Engine.embedding p)).
  - pose proof (sync_pages (check_mark ++ py " Generated embeddings for: " ++ url) j3) as H4.
    set (j4 := sync_update_progress _ j3) in *.
    pose proof (sync_pages (stats_message p) j4) as H5. lia.
  - pose proof (sync_pages (stats_message p) j3) as H5. lia.
Qed.

(** *** The status endpoint *)

(** The progress [get_job_status] reports is never above 1, and it is 1
    exactly when the status of the job is [completed]: until then the report
    stays at or below 0.99, whatever the job has stored. *)
Lemma full_progress_iff_completed (j : JobState) :
  (reported_progress j <= 1)%Q /\
  ((reported_progress j == 1)%Q <-> status j = py "completed").
Proof.
  unfold reported_progress.
  destruct (bool_decide_reflect (status j = py "completed")) as [E|NE];
    cbn [negb].
  - split; [discriminate|]. split; [now intros _ | reflexivity].
  - pose proof (py_min_le_l 0.99 (progress j)) as H.
    assert (Hlt : (py_min 0.99 (progress j) < 1)%Q)
      by (eapply Qle_lt_trans; [exact H | reflexivity]).
    split; [now apply Qlt_le_weak|]. split; [|contradiction].
    intros Heq. rewrite Heq in Hlt. now apply Qlt_irrefl in Hlt.
Qed.

(** *** The limit on the results *)

Lemma limit_loop_take {K V} (max_pages : Z) : forall (items limited : list (K * V)) i,
  (0 <= max_pages)%Z ->
  i <= Z.to_nat max_pages ->
  limit_loop max_pages i items limited
  = limited ++ take (Z.to_nat max_pages - i) items.
Proof.
  induction items as [|item rest IH]; intros limited i Hm Hi; cbn [limit_loop].
  - now rewrite take_nil, app_nil_r.
  - destruct (Z.geb_spec (Z.of_nat i) max_pages) as [Hge|Hlt].
    + replace (Z.to_nat max_pages - i) with 0 by lia. now rewrite app_nil_r.
    + rewrite IH by lia. rewrite <- app_assoc. cbn [app].
      replace (Z.to_nat max_pages - i) with (S (Z.to_nat max_pages - S i)) by lia.
      reflexivity.
Qed.

(** X23. The limit on the results keeps the first [max_pages] items of the
    dictionary, in their order, when [max_pages] is positive, and keeps
    everything when it is zero or negative; it never reorders or invents an
    item. *)
Theorem limit_results_keeps_first {K V} (max_pages : Z) (results : list (K * V)) :
  limit_results max_pages results
  = if (0 <? max_pages)%Z then take (Z.to_nat max_pages) results else results.
Proof.
  unfold limit_results.
  destruct (Z.gtb_spec max_pages 0) as [Hpos|Hneg]; cbn [andb].
  - destruct (Z.ltb_spec 0 max_pages) as [_|]; [|lia].
    destruct (Z.gtb_spec (Z.of_nat (length results)) max_pages) as [Hlong|Hshort].
    + rewrite limit_loop_take by lia. cbn [app]. now rewrite Nat.sub_0_r.
    + rewrite take_ge by lia. reflexivity.
  - destruct (Z.ltb_spec 0 max_pages); [lia | reflexivity].
Qed.

(** *** The registry of WebSockets *)

Lemma connections_insert m job_id conns :
  connections (<[job_id := conns]> m) job_id = conns.
Proof. unfold connections. now rewrite lookup_insert_eq. Qed.

(** X24. Registering a WebSocket for a job and removing it again leaves the
    registry as it was, provided the WebSocket was not registered for the
    job before and the job was not listed with an empty set. *)
Theorem connect_disconnect_roundtrip (websocket : nat) (job_id : text)
    (m : gmap text (gset nat)) :
  websocket ∉ connections m job_id ->
  m !! job_id <> Some ∅ ->
  disconnect websocket job_id (connect websocket job_id m) = m.
Proof.
  intros Hnew Hne. unfold disconnect, connect.
  rewrite connections_insert.
  assert (Hrest : ({[websocket]} ∪ connections m job_id) ∖ {[websocket]}
                  = connections m job_id).
  { apply set_eq. intros x.
    rewrite elem_of_difference, elem_of_union, !elem_of_singleton. split.
    - intros [[->|H] Hn]; [now contradiction Hn | exact H].
    - intros H. split; [now right | intros ->; contradiction]. }
  rewrite Hrest. unfold connections in *.
  destruct (m !! job_id) as [conns|] eqn:E; cbn [default from_option] in *;
    unfold id in *.
  - rewrite bool_decide_eq_false_2 by (intros ->; now apply Hne).
    rewrite insert_insert_eq. now apply insert_id.
  - rewrite bool_decide_eq_true_2 by reflexivity.
    rewrite delete_insert_eq. now apply delete_id.
Qed.

Lemma connect_disconnect_roundtrip_witness :
  disconnect 7 (py "job-1") (connect 7 (py "job-1") {[py "job-1" := {[3]}]})
  = {[py "job-1" := {[3]}]}.
Proof.
  apply (connect_disconnect_roundtrip 7 (py "job-1") {[py "job-1" := {[3]}]}).
  - unfold connections. rewrite lookup_singleton_eq. cbn [default].
    apply (bool_decide_unpack _). vm_compute. exact I.
  - rewrite lookup_singleton_eq. discriminate.
Defined.

Lemma connect_no_empty websocket job_id m :
  no_empty_entry m -> no_empty_entry (connect websocket job_id m).
Proof.
  intros Hm job. unfold connect.
  destruct (decide (job = job_id)) as [->|Hne].
  - rewrite lookup_insert_eq. intros [= H].
    assert (Hin : websocket ∈ (∅ : gset nat)).
    { rewrite <- H. apply elem_of_union. left. now apply elem_of_singleton. }
    now apply not_elem_of_empty in Hin.
  - rewrite lookup_insert_ne by congruence. apply Hm.
Qed.

Lemma disconnect_no_empty websocket job_id m :
  no_empty_entry m -> no_empty_entry (disconnect websocket job_id m).
Proof.
  intros Hm job. unfold disconnect.
  destruct (bool_decide_reflect (connections m job_id ∖ {[websocket]} = ∅)) as [E|NE];
    (destruct (decide (job = job_id)) as [->|Hne]).
  - now rewrite lookup_delete_eq.
  - rewrite lookup_delete_ne by congruence. apply Hm.
  - rewrite lookup_insert_eq. congruence.
  - rewrite lookup_insert_ne by congruence. apply Hm.
Qed.

(** X25. Whatever WebSockets are registered and removed, in whatever order,
    the registry never lists a job with no connection: a job is listed
    exactly when at least one WebSocket is registered for it. *)
Theorem registry_lists_connected_jobs (ops : list operation) (job_id : text) :
  let m := fold_left apply_operation ops (∅ : gmap text (gset nat)) in
  is_Some (m !! job_id) <-> connections m job_id <> ∅.
Proof.
  cbv zeta.
  assert (H : no_empty_entry (fold_left apply_operation ops (∅ : gmap text (gset nat)))).
  { assert (H0 : no_empty_entry (∅ : gmap text (gset nat)))
      by (intros job; now rewrite lookup_empty).
    revert H0. generalize (∅ : gmap text (gset nat)).
    induction ops as [|op ops IH]; intros m Hm; [exact Hm|].
    cbn [fold_left]. apply IH.
    destruct op; [now apply connect_no_empty | now apply disconnect_no_empty]. }
  specialize (H job_id). unfold connections.
  destruct (fold_left apply_operation ops ∅ !! job_id) as [conns|];
    cbn [default from_option]; unfold id; split.
  - intros _ ->. now apply H.
  - intros _. now eexists.
  - intros [x Hx]. discriminate.
  - intros Hne. now contradiction Hne.
Qed.

(** [close_all_job_connections] is the one place that leaves a job listed
    without a connection. *)
Example close_all_leaves_empty_entry :
  close_all_job_connections (py "job-1") (connect 7 (py "job-1") ∅)
  !! py "job-1" = Some ∅.
Proof.
  unfold close_all_job_connections, connect.
  rewrite lookup_insert_eq. apply lookup_insert_eq.
Qed.

End ApiProps.

(** ** Properties of the selectors *)

Module SelectorsProps.
Import PyStr Selectors PyStrProps.

(** *** Substrings *)

Lemma find_sub_sound marker : forall s before after,
  Job.find_sub marker s = Some (before, after) -> s = before ++ marker ++ after.
Proof.
  induction s as [|c s IH]; intros before after; cbn [Job.find_sub].
  - destruct (startswith marker []) eqn:E; [|discriminate].
    intros [= <- <-]. apply startswith_spec in E as [t Ht].
    symmetry in Ht. apply app_eq_nil in Ht as [-> ->]. reflexivity.
  - destruct (startswith marker (c :: s)) eqn:E.
    + intros [= <- <-]. apply startswith_spec in E as [t Ht].
      rewrite Ht at 1. cbn [app]. f_equal.
      rewrite Ht. now rewrite drop_app_length.
    + destruct (Job.find_sub marker s) as [[b a]|] eqn:F; [|discriminate].
      intros [= <- <-]. cbn [app]. f_equal. now apply IH.
Qed.

Lemma find_sub_complete marker after : forall before,
  Job.contains marker (before ++ marker ++ after) = true.
Proof.
  unfold Job.contains.
  induction before as [|c before IH].
  - cbn [app]. destruct (marker ++ after) as [|d s] eqn:E; cbn [Job.find_sub].
    + apply app_eq_nil in E as [-> ->]. reflexivity.
    + rewrite <- E.
      assert (H : startswith marker (marker ++ after) = true)
        by (apply startswith_spec; now exists after).
      now rewrite H.
  - cbn [app Job.find_sub].
    destruct (startswith marker (c :: before ++ marker ++ after)); [reflexivity|].
    destruct (Job.find_sub marker (before ++ marker ++ after)) as [[b a]|];
      [reflexivity | discriminate].
Qed.

(** [marker in s] *)
Lemma contains_spec marker s :
  Job.contains marker s = true <-> exists before after, s = before ++ marker ++ after.
Proof.
  split.
  - unfold Job.contains.
    destruct (Job.find_sub marker s) as [[b a]|] eqn:F; [|discriminate].
    intros _. exists b, a. now apply find_sub_sound.
  - intros (b & a & ->). apply find_sub_complete.
Qed.

(** A string that contains [a ++ marker ++ b] contains [marker]. *)
Lemma contains_inner a marker b s :
  Job.contains (a ++ marker ++ b) s = true -> Job.contains marker s = true.
Proof.
  intros (before & after & ->)%contains_spec. apply contains_spec.
  exists (before ++ a), (b ++ after). now rewrite <- !app_assoc.
Qed.

(** X26. [get_selectors_for_url] returns one of the two selector lists. It
    returns the Supabase CLI selectors exactly for the URLs whose host is
    [supabase.com] (no other spelling of the host) and whose path contains
    [/docs/reference/cli/], and [is_cli_documentation] is true of every such
    URL. *)
Theorem specialised_selectors_are_for_cli_pages (netloc path : text -> text)
    (url : text) :
  let chosen := get_selectors_for_url netloc path url in
  (chosen = SUPABASE_CLI_SELECTORS \/ chosen = GENERIC_SELECTORS) /\
  (chosen = SUPABASE_CLI_SELECTORS <->
   netloc url = py "supabase.com" /\
   Job.contains (py "/docs/reference/cli/") (path url) = true) /\
  (chosen = SUPABASE_CLI_SELECTORS -> is_cli_documentation path url = true).
Proof.
  cbv zeta.
  assert (Hdiff : SUPABASE_CLI_SELECTORS <> GENERIC_SELECTORS) by discriminate.
  assert (Hchosen :
    get_selectors_for_url netloc path url
    = if bool_decide (netloc url = py "supabase.com")
         && Job.contains (py "/docs/reference/cli/") (path url)
      then SUPABASE_CLI_SELECTORS else GENERIC_SELECTORS).
  { unfold get_selectors_for_url, DOMAIN_SELECTOR_MAP.
    destruct (bool_decide_reflect (netloc url = py "supabase.com")) as [->|Hne].
    - rewrite lookup_singleton_eq. cbn [path_patterns selectors List.find andb].
      now destruct (Job.contains _ _).
    - rewrite lookup_singleton_ne by congruence. reflexivity. }
  rewrite Hchosen.
  destruct (bool_decide_reflect (netloc url = py "supabase.com")) as [Hd|Hd];
    destruct (Job.contains (py "/docs/reference/cli/") (path url)) eqn:Hp;
    cbn [andb].
  - split; [now left|]. split; [tauto|]. intros _.
    unfold is_cli_documentation, cli_patterns. cbn [existsb].
    rewrite (contains_inner (py "/docs/reference") (py "/cli/") [] (path url));
      [reflexivity|].
    rewrite app_nil_r. exact Hp.
  - split; [now right|]. split; [|intros E; now symmetry in E].
    split; [intros E; now symmetry in E | intros [_ H]; discriminate].
  - split; [now right|]. split; [|intros E; now symmetry in E].
    split; [intros E; now symmetry in E | intros [H _]; contradiction].
  - split; [now right|]. split; [|intros E; now symmetry in E].
    split; [intros E; now symmetry in E | intros [H _]; contradiction].
Qed.

End SelectorsProps.

(** ** Properties of the importer *)

Module LoaderProps.
Import PyStr Loader LoaderInputs Inputs.

(** *** Batches *)

Lemma fold_left_batches {A B I} (f : A -> B -> A) (g : I -> list B) (l : list I) :
  forall a,
  fold_left (fun a i => fold_left f (g i) a) l a
  = fold_left f (concat (map g l)) a.
Proof.
  induction l as [|i l IH]; intros a; [reflexivity|].
  cbn [map concat fold_left]. now rewrite fold_left_app, IH.
Qed.

Lemma batches_cover {A} (data : list A) (step : nat) :
  0 < step ->
  forall fuel i, length data - i <= fuel ->
  concat (map (fun i => take step (drop i data))
              (range_from fuel i (length data) step))
  = drop i data.
Proof.
  intros Hstep. induction fuel as [|fuel IH]; intros i Hfuel; cbn [range_from].
  - cbn. rewrite drop_ge by lia. reflexivity.
  - destruct (Nat.ltb_spec i (length data)) as [Hlt|Hge].
    + cbn [map concat]. rewrite IH by lia.
      rewrite <- drop_drop. apply take_drop.
    + cbn. rewrite drop_ge by lia. reflexivity.
Qed.

(** With a positive batch size the batches are the file, in order. *)
Lemma process_batches_positive db batch_size retry_count data st :
  (0 < batch_size)%Z ->
  process_batches db batch_size retry_count data st
  = Some (fold_left (process_url db retry_count) data st).
Proof.
  intros Hpos. unfold process_batches.
  destruct (Z.eqb_spec batch_size 0); [lia|].
  destruct (Z.ltb_spec batch_size 0); [lia|].
  rewrite (fold_left_batches (process_url db retry_count)
             (fun i => take (Z.to_nat batch_size) (drop i data))).
  now rewrite batches_cover by lia.
Qed.

(** *** Counters *)

Lemma try_insert_counters db attempts row : forall st,
  let r := try_insert db attempts row st in
  successful_inserts r.2
  = (if r.1 is Some _ then S (successful_inserts st) else successful_inserts st) /\
  failed_inserts r.2 = failed_inserts st /\
  skipped_duplicates r.2 = skipped_duplicates st.
Proof.
  induction attempts as [|n IH]; intros st; cbn [try_insert]; [now repeat split|].
  destruct (insert_site_page db (calls st) row); try apply (IH (called st)).
  now repeat split.
Qed.

Lemma insert_chunks_counters db url title chunks : forall chunk_idx st,
  let st' := insert_chunks db url title chunk_idx chunks st in
  successful_inserts st' = successful_inserts st /\
  failed_inserts st' = failed_inserts st /\
  skipped_duplicates st' = skipped_duplicates st.
Proof.
  induction chunks as [|chunk rest IH]; intros chunk_idx st;
    cbn [insert_chunks]; [now repeat split|].
  cbv zeta. destruct (bool_decide _); [apply IH|].
  destruct chunk as [content|]; [|apply IH].
  destruct (insert_site_page db (calls st) _);
    match goal with |- context [insert_chunks _ _ _ _ _ ?s] =>
      destruct (IH (S chunk_idx) s) as (-> & -> & ->) end;
    now repeat split.
Qed.

Lemma process_chunks_counters db url title chunks st :
  let st' := process_chunks db url title chunks st in
  successful_inserts st' = successful_inserts st /\
  failed_inserts st'
  = (if chunks is ChunksUnsized then S (failed_inserts st) else failed_inserts st) /\
  skipped_duplicates st' = skipped_duplicates st.
Proof.
  destruct chunks as [| |items]; cbn [process_chunks]; try now repeat split.
  apply insert_chunks_counters.
Qed.






(** A page with ["chunks": null] is inserted and then counted as failed:
    one URL, two counts, and an exit status that reports a failure. *)
Example import_null_chunks :
  let r := process_json_file (Some null_chunks) empty_table 10 3 in
  r.1 = Returns 1 1 /\
  map sp_url (stored r.2) = [page_a] /\
  exit_status r.1 = 1%Z.
Proof. vm_compute. repeat split. Qed.

(** A record that is not an object is counted as failed without a call to
    the adapter, and chunks that are not objects are passed over. *)
Example import_odd_records :
  let r := process_json_file (Some odd_records) empty_table 10 3 in
  r.1 = Returns 1 1 /\
  map sp_url (stored r.2) = [page_a] /\
  calls r.2 = 1.
Proof. vm_compute. repeat split. Qed.

(** The run of the example: the home page is skipped, the other page is
    inserted at the first attempt, its first chunk is refused and its second
    is inserted. *)
Example import_example :
  let r := process_json_file (Some dump) table 10 3 in
  r.1 = Returns 1 0 /\
  skipped_duplicates r.2 = 1 /\
  map sp_url (stored r.2) = [page_a; page_a ++ py "#chunk2"] /\
  map sp_chunk_number (stored r.2) = [1; 3].
Proof. vm_compute. repeat split. Qed.

(** *** No row twice *)

Lemma inserted_no_duplicates before row st :
  sp_url row ∉ existing_urls st ->
  no_duplicates before st -> no_duplicates before (inserted row st).
Proof.
  intros Hnew (Hnd & Hrows & Hsub).
  unfold no_duplicates. cbn [inserted stored existing_urls].
  split; [|split].
  - rewrite map_app. cbn [map]. apply NoDup_app. split; [exact Hnd|].
    split; [|apply NoDup_singleton].
    intros u Hu ->%list_elem_of_singleton. apply Hnew.
    apply list_elem_of_In, in_map_iff in Hu as (row' & <- & Hin).
    now apply Hrows.
  - intros row' [Hin | [<- | []]]%in_app_iff.
    + destruct (Hrows row' Hin) as [H1 H2].
      split; [apply elem_of_union; now right | exact H2].
    + split; [apply elem_of_union; left; now apply elem_of_singleton|].
      intros Hb. apply Hnew. now apply Hsub.
  - etransitivity; [exact Hsub | apply union_subseteq_r].
Qed.

Lemma try_insert_no_duplicates before db attempts row : forall st,
  sp_url row ∉ existing_urls st ->
  no_duplicates before st ->
  no_duplicates before (try_insert db attempts row st).2.
Proof.
  induction attempts as [|n IH]; intros st Hnew Hst; cbn [try_insert];
    [exact Hst|].
  destruct (insert_site_page db (calls st) row); try now apply IH.
  cbn [snd]. now apply inserted_no_duplicates.
Qed.

Lemma insert_chunks_no_duplicates before db url title chunks :
  forall chunk_idx st,
  no_duplicates before st ->
  no_duplicates before (insert_chunks db url title chunk_idx chunks st).
Proof.
  induction chunks as [|chunk rest IH]; intros chunk_idx st Hst;
    cbn [insert_chunks]; [exact Hst|].
  apply IH.
  destruct (bool_decide_reflect (chunk_url url chunk_idx ∈ existing_urls st))
    as [Hin|Hnew]; [exact Hst|].
  destruct chunk as [content|]; [|exact Hst].
  destruct (insert_site_page db (calls st) _); try exact Hst.
  now apply inserted_no_duplicates.
Qed.

Lemma insert_page_no_duplicates before db retry_count url page embedding st :
  url ∉ existing_urls st ->
  no_duplicates before st ->
  no_duplicates before (insert_page db retry_count url page embedding st).
Proof.
  intros Hnew Hst. unfold insert_page.
  set (row := mk_site_page _ _ _ _ _ _).
  pose proof (try_insert_no_duplicates before db (Z.to_nat retry_count) row st
                Hnew Hst) as H.
  destruct (try_insert db (Z.to_nat retry_count) row st) as [[page_id|] st'];
    cbn [snd] in H; [|exact H].
  destruct (pd_chunks page) as [| |items]; cbn [process_chunks]; try exact H.
  now apply insert_chunks_no_duplicates.
Qed.

Lemma process_url_no_duplicates before db retry_count st item :
  no_duplicates before st ->
  no_duplicates before (process_url db retry_count st item).
Proof.
  intros Hst. unfold process_url. destruct item as [url page].
  destruct (bool_decide_reflect (url ∈ existing_urls st)) as [Hin|Hnew];
    [exact Hst|].
  destruct page as [|page]; [exact Hst|].
  destruct (pd_embedding page) as [e|];
    [|now apply insert_page_no_duplicates].
  destruct (Padding.pad_embedding e Padding.target);
    [now apply insert_page_no_duplicates | exact Hst].
Qed.

Lemma fold_no_duplicates before db retry_count data : forall st,
  no_duplicates before st ->
  no_duplicates before (fold_left (process_url db retry_count) data st).
Proof.
  induction data as [|item data IH]; intros st Hst; [exact Hst|].
  cbn [fold_left]. now apply IH, process_url_no_duplicates.
Qed.

(** X28. In one run of [process_json_file], whatever the batch size, the
    number of retries and the answers of the database, no URL is reported
    inserted twice, and no row is inserted for a URL that
    [check_existing_urls] found in the table when the run started; this
    holds for the pages and for their chunks. *)
Theorem import_never_duplicates (data : list (text * page_data))
    (db : Database) (batch_size retry_count : Z) :
  no_duplicates (check_existing_urls db (map fst data))
    (process_json_file (Some data) db batch_size retry_count).2.
Proof.
  set (before := check_existing_urls db (map fst data)).
  assert (H0 : no_duplicates before (start db (map fst data))).
  { split; [constructor|]. split; [intros row []|reflexivity]. }
  unfold process_json_file, process_batches. fold before.
  destruct (batch_size =? 0)%Z; [exact H0|].
  destruct (batch_size <? 0)%Z.
  - now destruct (_ =? 0)%Z.
  - match goal with |- context [fold_left ?f ?l ?a] =>
      assert (H : no_duplicates before (fold_left f l a)) end.
    { generalize (range_from (length data) 0 (length data) (Z.to_nat batch_size)).
      intros batches. generalize dependent (start db (map fst data)).
      induction batches as [|i batches IH]; intros st Hst; [exact Hst|].
      cbn [fold_left]. now apply IH, fold_no_duplicates. }
    now destruct (_ =? 0)%Z.
Qed.

(** *** A file that is in the table already *)




(** *** The exit status *)

Lemma try_insert_present db attempts row : forall st,
  let r := try_insert db attempts row st in
  existing_urls st ⊆ existing_urls r.2 /\
  (is_Some r.1 -> sp_url row ∈ existing_urls r.2).
Proof.
  induction attempts as [|n IH]; intros st; cbn [try_insert].
  - split; [reflexivity | intros [x Hx]; discriminate].
  - destruct (insert_site_page db (calls st) row); try apply (IH (called st)).
    cbn [fst snd inserted existing_urls succeeded called].
    split; [apply union_subseteq_r|].
    intros _. apply elem_of_union. left. now apply elem_of_singleton.
Qed.

Lemma insert_chunks_present db url title chunks : forall chunk_idx st,
  existing_urls st ⊆ existing_urls (insert_chunks db url title chunk_idx chunks st).
Proof.
  induction chunks as [|chunk rest IH]; intros chunk_idx st;
    cbn [insert_chunks]; [reflexivity|].
  etransitivity; [|apply IH].
  destruct (bool_decide _); [reflexivity|].
  destruct chunk as [content|]; [|reflexivity].
  destruct (insert_site_page db (calls st) _); try reflexivity.
  cbn [inserted existing_urls called]. apply union_subseteq_r.
Qed.

Lemma process_chunks_present db url title chunks st :
  existing_urls st ⊆ existing_urls (process_chunks db url title chunks st).
Proof.
  destruct chunks as [| |items]; cbn [process_chunks]; try reflexivity.
  apply insert_chunks_present.
Qed.

Lemma insert_page_present db retry_count url page embedding st :
  let st' := insert_page db retry_count url page embedding st in
  existing_urls st ⊆ existing_urls st' /\
  failed_inserts st <= failed_inserts st' /\
  (failed_inserts st' = failed_inserts st -> url ∈ existing_urls st').
Proof.
  cbv zeta. unfold insert_page.
  set (title := default (py "No Title") (pd_title page)).
  set (row := mk_site_page _ _ _ _ _ _).
  pose proof (try_insert_present db (Z.to_nat retry_count) row st) as [Hsub Hin].
  pose proof (try_insert_counters db (Z.to_nat retry_count) row st)
    as (_ & Hf & _).
  destruct (try_insert db (Z.to_nat retry_count) row st) as [[page_id|] st1];
    cbn [fst snd] in Hsub, Hin, Hf.
  - specialize (Hin (ltac:(now eexists))). cbn [row sp_url] in Hin.
    pose proof (process_chunks_present db url title (pd_chunks page) st1) as Hc.
    destruct (process_chunks_counters db url title (pd_chunks page) st1)
      as (_ & Hf' & _).
    split; [etransitivity; eassumption|].
    split; [destruct (pd_chunks page); lia|].
    intros _. now apply Hc.
  - cbn [failed existing_urls failed_inserts].
    split; [exact Hsub|]. split; lia.
Qed.

Lemma process_url_present db retry_count st item :
  let st' := process_url db retry_count st item in
  existing_urls st ⊆ existing_urls st' /\
  failed_inserts st <= failed_inserts st' /\
  (failed_inserts st' = failed_inserts st -> item.1 ∈ existing_urls st').
Proof.
  cbv zeta. unfold process_url. destruct item as [url page]. cbn [fst].
  destruct (bool_decide_reflect (url ∈ existing_urls st)) as [Hin|Hnew].
  { cbn [skipped existing_urls failed_inserts]. repeat split; auto. }
  destruct page as [|page].
  { cbn [failed existing_urls failed_inserts]. split; [reflexivity|]. split; lia. }
  destruct (pd_embedding page) as [e|]; [|apply insert_page_present].
  destruct (Padding.pad_embedding e Padding.target); [apply insert_page_present|].
  cbn [failed existing_urls failed_inserts]. split; [reflexivity|]. split; lia.
Qed.

Lemma fold_present db retry_count data : forall st,
  let st' := fold_left (process_url db retry_count) data st in
  existing_urls st ⊆ existing_urls st' /\
  failed_inserts st <= failed_inserts st' /\
  (failed_inserts st' = failed_inserts st ->
   Forall (fun item => item.1 ∈ existing_urls st') data).
Proof.
  induction data as [|item data IH]; intros st; cbn [fold_left].
  - repeat split; auto.
  - destruct (process_url_present db retry_count st item) as (Hs1 & Hf1 & Hp1).
    destruct (IH (process_url db retry_count st item)) as (Hs2 & Hf2 & Hp2).
    cbv zeta in *. split; [etransitivity; eassumption|]. split; [lia|].
    intros Heq. constructor.
    + apply Hs2, Hp1. lia.
    + apply Hp2. lia.
Qed.

(** X30. With a positive batch size, the exit status 0 of the script means
    that the run counted no failure and that every URL of the file is among
    the URLs the script holds to be in the table: it was found there at the
    start, or the adapter reported it inserted. *)
Theorem exit_status_zero_means_all_present (data : list (text * page_data))
    (db : Database) (batch_size retry_count : Z) :
  (0 < batch_size)%Z ->
  let r := process_json_file (Some data) db batch_size retry_count in
  exit_status r.1 = 0%Z ->
  failed_inserts r.2 = 0 /\
  Forall (fun item => item.1 ∈ existing_urls r.2) data.
Proof.
  intros Hpos. cbv zeta. unfold process_json_file.
  rewrite process_batches_positive by exact Hpos.
  destruct (fold_present db retry_count data (start db (map fst data)))
    as (_ & _ & Hall).
  cbv zeta in Hall. set (st := fold_left _ data _) in *.
  destruct (_ =? 0)%Z; cbn [fst snd exit_status]; [discriminate|].
  destruct (Nat.eqb_spec (failed_inserts st) 0) as [E|NE].
  - intros _. split; [exact E|]. apply Hall. now rewrite E.
  - destruct (0 <? successful_inserts st); discriminate.
Qed.

Lemma exit_status_zero_means_all_present_witness :
  let r := process_json_file (Some dump) table 10 3 in
  failed_inserts r.2 = 0 /\
  Forall (fun item => item.1 ∈ existing_urls r.2) dump.
Proof.
  apply (exit_status_zero_means_all_present dump table 10 3); [lia|].
  vm_compute. reflexivity.
Defined.

(** A negative batch size gives an empty range of batches: nothing is
    imported, and the script ends with exit status 0. *)
Example negative_batch_size_imports_nothing :
  let r := process_json_file (Some dump) table (-1) 3 in
  r.1 = Returns 0 0 /\ calls r.2 = 0 /\ exit_status r.1 = 0%Z.
Proof. vm_compute. repeat split. Qed.

(** A batch size of zero makes [range] raise. *)
Example zero_batch_size_raises :
  (process_json_file (Some dump) table 0 3).1 = RaisesValueError.
Proof. reflexivity. Qed.

End LoaderProps.
